(** * cisonblockchain: maturity scoring, canonical fingerprints, attestation

    A shallow embedding of the pure core of [app.py] (with the pieces of
    [chain.py] and [ipfs_upload.py] it relies on) and the properties its
    specification states about it.

    Conventions of the embedding.

    - A Python [str] is a Rocq [string] holding the UTF-8 encoding of the
      text, so [s.encode("utf-8")] is the list of bytes of the string and
      equality of [str] values is equality of strings.  A [str] with a lone
      surrogate has no UTF-8 encoding ([encode] raises on it): such texts are
      outside the embedding.
    - A Python [float] that holds a score, a percentage or an average is an
      exact rational [Q].  Scores are 0, 1/2 and 1, their sums are exact in
      binary64, and the correctly rounded quotient [k/(2n)] compares with
      the literals 0.2 ... 0.9 exactly as the rational does as long as a
      bucket has fewer than 2^50 safeguards, so every comparison made by the
      classifier has the same outcome in both readings.
    - A Python [dict] whose iteration order is observable is an association
      list in insertion order; the answers, which are only looked up, are a
      [gmap].
    - A call that may raise returns a [result]; the error type lists the
      exceptions the modelled code can raise. *)

From Stdlib Require Import ZArith QArith String Ascii List Lia Permutation Bool.
From Stdlib.Strings Require Import Byte.
From Stdlib Require DecimalString OrderedTypeEx.
From stdpp Require Import gmap strings.
Import ListNotations.
Open Scope string_scope.

(** ** Exceptions as values *)

Inductive result (E A : Type) : Type :=
| Ok (a : A)
| Raise (e : E).
Arguments Ok {E A} a.
Arguments Raise {E A} e.

(** Sequencing stops at the first exception; [x ← m; k] is stdpp's
    notation for it. *)
#[global] Instance result_bind {E} : MBind (result E) := fun A B k m =>
  match m with
  | Ok a => k a
  | Raise e => Raise e
  end.

#[global] Instance result_ret {E} : MRet (result E) := fun A a => Ok a.

(** ** Insertion-ordered dictionaries keyed by integers *)

Definition dict (V : Type) : Type := list (Z * V).

Fixpoint dict_get {V} (k : Z) (d : dict V) : option V :=
  match d with
  | [] => None
  | (k', v) :: d' => if Z.eqb k k' then Some v else dict_get k d'
  end.

(** [d[k] = v]: an existing key keeps its position, a new key goes last. *)
Fixpoint dict_set {V} (k : Z) (v : V) (d : dict V) : dict V :=
  match d with
  | [] => [(k, v)]
  | (k', v') :: d' =>
      if Z.eqb k k' then (k, v) :: d' else (k', v') :: dict_set k v d'
  end.

Definition dict_keys {V} (d : dict V) : list Z := map fst d.

(** ** Maturity scoring ([app.py], lines 123-177) *)

Record safeguard : Type := Safeguard {
  control : Z;
  id : string;
  ig : string;
  title : string;
  control_name : string
}.

(** The value [defaultdict] creates for a new control:
    [{"name": "", "IG1": [], "IG2": [], "IG3": []}]. *)
Record bucket : Type := Bucket {
  name : string;
  IG1 : list string;
  IG2 : list string;
  IG3 : list string
}.

Definition new_bucket : bucket := Bucket "" [] [] [].

Inductive score_error : Type :=
| KeyError (key : string)
| AttributeError
| ZeroDivisionError.

Definition Qltb (x y : Q) : bool := negb (Qle_bool y x).
Definition Qgeb (x y : Q) : bool := Qle_bool y x.

Definition score_answer (a : string) : Q :=
  if String.eqb a "Implementado" then 1
  else if String.eqb a "Parcial" then 0.5
  else if String.eqb a "Não se aplica" then 1
  else 0.

Definition cmmi_level_from_igs (p_ig1 p_ig2 p_ig3 : Q) : Z :=
  if Qltb p_ig1 0.2 && Qltb p_ig2 0.2 then 1
  else if Qgeb p_ig1 0.80 && Qltb p_ig2 0.40 then 2
  else if Qgeb p_ig1 0.80 && Qgeb p_ig2 0.50 && Qltb p_ig3 0.40 then 3
  else if Qgeb p_ig1 0.80 && Qgeb p_ig2 0.70 && Qgeb p_ig3 0.40 then
    (if Qgeb p_ig1 0.90 && Qgeb p_ig2 0.85 && Qgeb p_ig3 0.70 then 5 else 4)
  else if Qgeb p_ig1 0.5 then 2 else 1.

(** [by_control[s["control"]]["name"] = s["control_name"]] followed by
    [by_control[s["control"]][s["ig"]].append(s["id"])].  The bucket has the
    four keys above: appending under ["name"] finds a [str], which has no
    [append]; any other key is missing. *)
Definition add_safeguard (by_control : dict bucket) (s : safeguard)
  : result score_error (dict bucket) :=
  let b := default new_bucket (dict_get (control s) by_control) in
  let b := Bucket (control_name s) (IG1 b) (IG2 b) (IG3 b) in
  let by_control := dict_set (control s) b by_control in
  if String.eqb (ig s) "IG1" then
    Ok (dict_set (control s) (Bucket (name b) (IG1 b ++ [id s]) (IG2 b) (IG3 b)) by_control)
  else if String.eqb (ig s) "IG2" then
    Ok (dict_set (control s) (Bucket (name b) (IG1 b) (IG2 b ++ [id s]) (IG3 b)) by_control)
  else if String.eqb (ig s) "IG3" then
    Ok (dict_set (control s) (Bucket (name b) (IG1 b) (IG2 b) (IG3 b ++ [id s])) by_control)
  else if String.eqb (ig s) "name" then Raise AttributeError
  else Raise (KeyError (ig s)).

Fixpoint group_safeguards (by_control : dict bucket) (safeguards : list safeguard)
  : result score_error (dict bucket) :=
  match safeguards with
  | [] => Ok by_control
  | s :: rest =>
      by_control' ← add_safeguard by_control s;
      group_safeguards by_control' rest
  end.

(** [sum(xs)]: starts from 0 and adds from the left. *)
Definition py_sum (xs : list Q) : Q := fold_left Qplus xs 0%Q.

(** [a / b] on numbers raises on a zero divisor. *)
Definition py_div (a b : Q) : result score_error Q :=
  if Qeq_bool b 0 then Raise ZeroDivisionError else Ok (a / b)%Q.

Definition py_len {A} (xs : list A) : Q := inject_Z (Z.of_nat (length xs)).

(** The body of [for ig in ["IG1", "IG2", "IG3"]] for one list of ids. *)
Definition ig_percent (respostas_by_id : gmap string string) (ids : list string)
  : result score_error Q :=
  match ids with
  | [] => Ok 0%Q
  | _ =>
      let scores :=
        map (fun sid => score_answer (default "Não implementado" (respostas_by_id !! sid))) ids in
      py_div (py_sum scores) (py_len scores)
  end.

Record control_maturity : Type := ControlMaturity {
  m_name : string;
  ig1 : Q;
  ig2 : Q;
  ig3 : Q;
  cmmi : Z
}.

(** The loop [for ctrl, bucket in by_control.items()], threading [maturity]
    and [all_levels]. *)
Fixpoint maturity_loop (respostas_by_id : gmap string string)
    (items : list (Z * bucket)) (maturity : dict control_maturity) (all_levels : list Z)
  : result score_error (dict control_maturity * list Z) :=
  match items with
  | [] => Ok (maturity, all_levels)
  | (ctrl, bucket) :: rest =>
      p1 ← ig_percent respostas_by_id (IG1 bucket);
      p2 ← ig_percent respostas_by_id (IG2 bucket);
      p3 ← ig_percent respostas_by_id (IG3 bucket);
      let cmmi := cmmi_level_from_igs p1 p2 p3 in
      maturity_loop respostas_by_id rest
        (dict_set ctrl (ControlMaturity (name bucket) p1 p2 p3 cmmi) maturity)
        (all_levels ++ [cmmi])
  end.

Definition compute_maturity (respostas_by_id : gmap string string)
    (safeguards : list safeguard)
  : result score_error (dict control_maturity * Q) :=
  by_control ← group_safeguards [] safeguards;
  '(maturity, all_levels) ← maturity_loop respostas_by_id by_control [] [];
  cmmi_avg ← match all_levels with
             | [] => Ok 0%Q
             | _ => py_div (py_sum (map inject_Z all_levels)) (py_len all_levels)
             end;
  Ok (maturity, cmmi_avg).

(** The embedded catalogue [FALLBACK] of [app.py]. *)
Definition FALLBACK : list safeguard := [
  Safeguard 1 "1.1" "IG1"
    "Inventário de ativos de hardware mantido"
    "1 — Inventory and Control of Enterprise Assets";
  Safeguard 1 "1.2" "IG2"
    "Rastrear ativos temporários ou remotos"
    "1 — Inventory and Control of Enterprise Assets";
  Safeguard 1 "1.3" "IG3"
    "Automatizar descoberta de ativos"
    "1 — Inventory and Control of Enterprise Assets";
  Safeguard 2 "2.1" "IG1"
    "Inventário de software autorizado"
    "2 — Inventory and Control of Software Assets";
  Safeguard 2 "2.2" "IG2"
    "Bloquear instalações não autorizadas"
    "2 — Inventory and Control of Software Assets";
  Safeguard 3 "3.1" "IG1"
    "Proteção de dados em repouso (criptografia básica)"
    "3 — Data Protection";
  Safeguard 3 "3.5" "IG2"
    "Classificação de dados sensíveis"
    "3 — Data Protection";
  Safeguard 3 "3.7" "IG3"
    "DLP aplicado a SaaS"
    "3 — Data Protection";
  Safeguard 4 "4.1" "IG1"
    "Defesa contra malware em endpoints"
    "4 — Secure Configuration of Enterprise Assets and Software";
  Safeguard 4 "4.6" "IG2"
    "Hardening padronizado (CIS Benchmarks)"
    "4 — Secure Configuration of Enterprise Assets and Software";
  Safeguard 5 "5.1" "IG1"
    "Políticas de acesso e identidade básicas"
    "5 — Account Management";
  Safeguard 5 "5.6" "IG2"
    "Revisões periódicas de acessos"
    "5 — Account Management";
  Safeguard 5 "5.9" "IG3"
    "Automatizar recertificação de acessos"
    "5 — Account Management";
  Safeguard 16 "16.1" "IG1"
    "Treinamento de conscientização (básico)"
    "16 — Security Awareness and Skills Training";
  Safeguard 16 "16.3" "IG2"
    "Simulações de phishing"
    "16 — Security Awareness and Skills Training";
  Safeguard 16 "16.7" "IG3"
    "Programa de skills por função"
    "16 — Security Awareness and Skills Training";
  Safeguard 17 "17.1" "IG1"
    "Resposta a incidentes: plano básico"
    "17 — Incident Response Management";
  Safeguard 17 "17.5" "IG2"
    "Tabletop exercises recorrentes"
    "17 — Incident Response Management";
  Safeguard 17 "17.7" "IG3"
    "Integração de forense e e-discovery"
    "17 — Incident Response Management";
  Safeguard 18 "18.1" "IG2"
    "Pentest externo anual"
    "18 — Penetration Testing";
  Safeguard 18 "18.2" "IG3"
    "Red Team orientado a objetivos"
    "18 — Penetration Testing"
].

(** The table-driven example of the specification: control 1 with one
    safeguard per implementation group, answered Implemented, Partial and
    NotImplemented. *)
Definition example_safeguards : list safeguard := firstn 3 FALLBACK.

Definition example_answers : gmap string string :=
  <["1.1" := "Implementado"]> (<["1.2" := "Parcial"]> (<["1.3" := "Não implementado"]> ∅)).

(** ** Fingerprints ([app.py], lines 61-66)

    [hashlib.sha256] and [Web3.keccak] are library code; they are modelled by
    the algorithms they implement (FIPS 180-4 and Keccak-f[1600] with rate
    1088 and the original padding), on integers with the wrap-around written
    out.  Bytes are [Byte.byte]; inside the algorithms a byte is its value. *)

Definition byte_val (b : byte) : Z := Z.of_N (Byte.to_N b).

Definition byte_of_Z (z : Z) : byte :=
  byte_of_ascii (ascii_of_N (Z.to_N (z mod 256))).

(** Cut a list into pieces of [n] elements; [fuel] bounds the number of
    pieces and the length of the list is always enough. *)
Fixpoint chunks {A} (fuel n : nat) (l : list A) : list (list A) :=
  match fuel with
  | O => []
  | S fuel' =>
      match l with
      | [] => []
      | _ => firstn n l :: chunks fuel' n (skipn n l)
      end
  end.

Module SHA256.

Definition mask : Z := 0xffffffff.
Definition add (x y : Z) : Z := Z.land (x + y) mask.
Definition rotr (n x : Z) : Z := Z.land (Z.lor (Z.shiftr x n) (Z.shiftl x (32 - n))) mask.
Definition shr (n x : Z) : Z := Z.shiftr x n.
Definition neg (x : Z) : Z := Z.lxor x mask.

Definition Ch (x y z : Z) : Z := Z.lxor (Z.land x y) (Z.land (neg x) z).
Definition Maj (x y z : Z) : Z := Z.lxor (Z.lxor (Z.land x y) (Z.land x z)) (Z.land y z).
Definition Sigma0 (x : Z) : Z := Z.lxor (Z.lxor (rotr 2 x) (rotr 13 x)) (rotr 22 x).
Definition Sigma1 (x : Z) : Z := Z.lxor (Z.lxor (rotr 6 x) (rotr 11 x)) (rotr 25 x).
Definition sigma0 (x : Z) : Z := Z.lxor (Z.lxor (rotr 7 x) (rotr 18 x)) (shr 3 x).
Definition sigma1 (x : Z) : Z := Z.lxor (Z.lxor (rotr 17 x) (rotr 19 x)) (shr 10 x).

(** The constants are defined as in FIPS 180-4, sections 4.2.2 and 5.3.3:
    the first 32 bits of the fractional parts of the cube roots of the first
    64 primes, and of the square roots of the first 8 primes. *)
Definition is_prime (p : Z) : bool :=
  Z.ltb 1 p &&
  forallb (fun d => negb (Z.eqb (p mod d) 0)) (map Z.of_nat (seq 2 (Z.to_nat p - 2))).

Definition first_primes (n : nat) : list Z :=
  firstn n (filter is_prime (map Z.of_nat (seq 2 310))).

(** The integer part of a cube root, one bit at a time from bit [bits]. *)
Fixpoint cube_root (bits : nat) (n acc : Z) : Z :=
  match bits with
  | O => acc
  | S bits' =>
      let c := (acc + 2 ^ Z.of_nat bits')%Z in
      if Z.leb (c * c * c) n then cube_root bits' n c else cube_root bits' n acc
  end.

Definition K : list Z :=
  map (fun p => Z.land (cube_root 36 (p * 2 ^ 96) 0) mask) (first_primes 64).

Definition state : Type := (Z * Z * Z * Z * Z * Z * Z * Z)%type.

Definition H0 : state :=
  match map (fun p => Z.land (Z.sqrt (p * 2 ^ 64)) mask) (first_primes 8) with
  | [a; b; c; d; e; f; g; h] => (a, b, c, d, e, f, g, h)
  | _ => (0, 0, 0, 0, 0, 0, 0, 0)%Z
  end.

(** Padding: a 1 bit, zeros up to 56 modulo 64 bytes, the length in bits on
    8 bytes, most significant first. *)
Definition be_bytes (n : nat) (x : Z) : list Z :=
  map (fun i => Z.land (Z.shiftr x (8 * Z.of_nat (n - 1 - i))) 0xff) (seq 0 n).

Definition pad (msg : list Z) : list Z :=
  let len := Z.of_nat (length msg) in
  (msg ++ [0x80%Z] ++ repeat 0%Z (Z.to_nat ((- (len + 9)) mod 64)) ++ be_bytes 8 (8 * len))%list.

Definition be_word (bs : list Z) : Z :=
  fold_left (fun acc b => (Z.shiftl acc 8 + b)%Z) bs 0%Z.

Definition block_words (block : list Z) : list Z := map be_word (chunks 16 4 block).

(** The message schedule: 48 more words after the 16 of the block. *)
Fixpoint schedule (n : nat) (w : list Z) : list Z :=
  match n with
  | O => w
  | S n' =>
      let t := length w in
      let at_ (k : nat) := nth (t - k) w 0%Z in
      schedule n' (w ++ [add (add (sigma1 (at_ 2%nat)) (at_ 7%nat))
                             (add (sigma0 (at_ 15%nat)) (at_ 16%nat))])%list
  end.

Definition round (s : state) (kw : Z * Z) : state :=
  let '(a, b, c, d, e, f, g, h) := s in
  let t1 := add (add (add h (Sigma1 e)) (add (Ch e f g) (fst kw))) (snd kw) in
  let t2 := add (Sigma0 a) (Maj a b c) in
  (add t1 t2, a, b, c, add d t1, e, f, g).

Definition compress (s : state) (block : list Z) : state :=
  let '(a, b, c, d, e, f, g, h) := s in
  let '(a', b', c', d', e', f', g', h') :=
    fold_left round (combine K (schedule 48 (block_words block))) s in
  (add a a', add b b', add c c', add d d', add e e', add f f', add g g', add h h').

Definition digest_bytes (s : state) : list Z :=
  let '(a, b, c, d, e, f, g, h) := s in
  (be_bytes 4 a ++ be_bytes 4 b ++ be_bytes 4 c ++ be_bytes 4 d ++
   be_bytes 4 e ++ be_bytes 4 f ++ be_bytes 4 g ++ be_bytes 4 h)%list.

(** [hashlib.sha256(data).digest()] *)
Definition digest (data : list byte) : list byte :=
  let padded := pad (map byte_val data) in
  map byte_of_Z (digest_bytes (fold_left compress (chunks (length padded) 64 padded) H0)).

End SHA256.

Module Keccak.

Definition mask : Z := 0xffffffffffffffff.
Definition rol (n x : Z) : Z :=
  Z.land (Z.lor (Z.shiftl x n) (Z.shiftr x (64 - n))) mask.
Definition neg (x : Z) : Z := Z.lxor x mask.

Definition RC : list Z :=
  [
   0x0000000000000001; 0x0000000000008082; 0x800000000000808a;
   0x8000000080008000; 0x000000000000808b; 0x0000000080000001;
   0x8000000080008081; 0x8000000000008009; 0x000000000000008a;
   0x0000000000000088; 0x0000000080008009; 0x000000008000000a;
   0x000000008000808b; 0x800000000000008b; 0x8000000000008089;
   0x8000000000008003; 0x8000000000008002; 0x8000000000000080;
   0x000000000000800a; 0x800000008000000a; 0x8000000080008081;
   0x8000000000008080; 0x0000000080000001; 0x8000000080008008
  ]%Z.

(** Rotation offsets, lane (x, y) at position x + 5 y. *)
Definition offsets : list Z :=
  [0; 1; 62; 28; 27; 36; 44; 6; 55; 20; 3; 10; 43; 25; 39; 41; 45; 15; 21; 8; 18; 2; 61; 56; 14]%Z.

Definition lane (st : list Z) (x y : nat) : Z := nth (x mod 5 + 5 * (y mod 5)) st 0%Z.

Definition theta (st : list Z) : list Z :=
  let C (x : nat) :=
    Z.lxor (Z.lxor (Z.lxor (Z.lxor (lane st x 0) (lane st x 1)) (lane st x 2)) (lane st x 3))
           (lane st x 4) in
  let D (x : nat) := Z.lxor (C (x + 4)%nat) (rol 1 (C (x + 1)%nat)) in
  map (fun i => Z.lxor (nth i st 0%Z) (D (i mod 5)%nat)) (seq 0 25).

(** rho and pi: lane (x, y), rotated, moves to (y, 2x + 3y); read from the
    destination (X, Y), the source is ((X + 3Y) mod 5, X). *)
Definition rho_pi (st : list Z) : list Z :=
  map (fun i =>
         let X := (i mod 5)%nat in
         let Y := (i / 5)%nat in
         let x := ((X + 3 * Y) mod 5)%nat in
         rol (nth (x + 5 * X) offsets 0%Z) (lane st x X))
      (seq 0 25).

Definition chi (st : list Z) : list Z :=
  map (fun i =>
         let x := (i mod 5)%nat in
         let y := (i / 5)%nat in
         Z.lxor (lane st x y) (Z.land (neg (lane st (x + 1) y)) (lane st (x + 2) y)))
      (seq 0 25).

Definition iota (rc : Z) (st : list Z) : list Z :=
  match st with
  | [] => []
  | l :: st' => Z.lxor l rc :: st'
  end.

Definition keccak_round (st : list Z) (rc : Z) : list Z :=
  iota rc (chi (rho_pi (theta st))).

Definition keccak_f (st : list Z) : list Z := fold_left keccak_round RC st.

Definition rate : nat := 136.

(** Padding to a multiple of the rate: 0x01, zeros, and 0x80 on the last
    byte (0x81 when one byte is missing). *)
Definition pad (msg : list Z) : list Z :=
  let k := ((rate - 1 - length msg mod rate) mod rate)%nat in
  match k with
  | O => (msg ++ [0x81%Z])%list
  | S k' => (msg ++ [0x01%Z] ++ repeat 0%Z k' ++ [0x80%Z])%list
  end.

Definition le_word (bs : list Z) : Z :=
  fold_right (fun b acc => (b + Z.shiftl acc 8)%Z) 0%Z bs.

Definition le_bytes (x : Z) : list Z :=
  map (fun i => Z.land (Z.shiftr x (8 * Z.of_nat i)) 0xff) (seq 0 8).

Definition absorb (st : list Z) (block : list Z) : list Z :=
  let lanes := map le_word (chunks 17 8 block) in
  keccak_f (map (fun i => Z.lxor (nth i st 0%Z) (nth i lanes 0%Z)) (seq 0 25)).

(** [Web3.keccak(data)]: the first 32 bytes of the state after absorbing. *)
Definition digest (data : list byte) : list byte :=
  let padded := pad (map byte_val data) in
  let st := fold_left absorb (chunks (length padded) rate padded) (repeat 0%Z 25) in
  map byte_of_Z (le_bytes (lane st 0 0) ++ le_bytes (lane st 1 0) ++
                 le_bytes (lane st 2 0) ++ le_bytes (lane st 3 0))%list.

End Keccak.

(** [bytes.hex()]: two lower-case digits per byte. *)
Definition hex_char (n : N) : ascii :=
  if N.ltb n 10 then ascii_of_N (48 + n) else ascii_of_N (87 + n).

Fixpoint hexdigest (bs : list byte) : string :=
  match bs with
  | [] => EmptyString
  | b :: bs' =>
      String (hex_char (Byte.to_N b / 16)) (String (hex_char (Byte.to_N b mod 16)) (hexdigest bs'))
  end.

(** [s.encode("utf-8")], on the texts of the embedding, which all have an
    encoding. *)
Definition encode_utf8 (s : string) : list byte := list_byte_of_string s.

Definition sha256_hex (data : list byte) : string := "0x" ++ hexdigest (SHA256.digest data).

(** [HexBytes.hex()] is [bytes.hex()] (hexbytes 1.x): the digits and
    nothing before them. *)
Definition hexbytes_hex (bs : list byte) : string := hexdigest bs.

(** [Web3.keccak(data).hex()]: the function adds nothing of its own to what
    the library returns, whatever its docstring says. *)
Definition keccak256_hex (data : list byte) : string := hexbytes_hex (Keccak.digest data).

(** ** Hash normalisation ([app.py], lines 68-77)

    The [str] methods used by [normalize_hash], on UTF-8 text.  A byte below
    128 is a character of its own and every other character is a lead byte
    followed by continuation bytes, so matching a character at either end of
    the text is matching its encoding there. *)

Definition byte_is (n : N) (c : ascii) : bool := N.eqb (N_of_ascii c) n.

Definition byte_in (lo hi : N) (c : ascii) : bool :=
  N.leb lo (N_of_ascii c) && N.leb (N_of_ascii c) hi.

(** [str.isspace] below 128: U+0009..U+000D, U+001C..U+001F and U+0020. *)
Definition ascii_space (c : ascii) : bool :=
  byte_in 9 13 c || byte_in 28 31 c || byte_is 32 c.

(** U+0085 and U+00A0. *)
Definition space2 (c1 c2 : ascii) : bool :=
  byte_is 194 c1 && (byte_is 133 c2 || byte_is 160 c2).

(** U+1680, U+2000..U+200A, U+2028, U+2029, U+202F, U+205F and U+3000. *)
Definition space3 (c1 c2 c3 : ascii) : bool :=
  byte_is 225 c1 && byte_is 154 c2 && byte_is 128 c3 ||
  byte_is 226 c1 && byte_is 128 c2 &&
    (byte_in 128 138 c3 || byte_is 168 c3 || byte_is 169 c3 || byte_is 175 c3) ||
  byte_is 226 c1 && byte_is 129 c2 && byte_is 159 c3 ||
  byte_is 227 c1 && byte_is 128 c2 && byte_is 128 c3.

Fixpoint str_lstrip (s : string) : string :=
  match s with
  | String c1 s1 =>
      if ascii_space c1 then str_lstrip s1
      else match s1 with
           | String c2 s2 =>
               if space2 c1 c2 then str_lstrip s2
               else match s2 with
                    | String c3 s3 => if space3 c1 c2 c3 then str_lstrip s3 else s
                    | EmptyString => s
                    end
           | EmptyString => s
           end
  | EmptyString => s
  end.

Definition str_rev (s : string) : string :=
  string_of_list_ascii (rev (list_ascii_of_string s)).

(** The same scan from the end: the bytes of a character come in reverse. *)
Fixpoint str_lstrip_rev (s : string) : string :=
  match s with
  | String c1 s1 =>
      if ascii_space c1 then str_lstrip_rev s1
      else match s1 with
           | String c2 s2 =>
               if space2 c2 c1 then str_lstrip_rev s2
               else match s2 with
                    | String c3 s3 => if space3 c3 c2 c1 then str_lstrip_rev s3 else s
                    | EmptyString => s
                    end
           | EmptyString => s
           end
  | EmptyString => s
  end.

(** [s.strip()] *)
Definition str_strip (s : string) : string :=
  str_rev (str_lstrip_rev (str_rev (str_lstrip s))).

(** [s.replace(c, "")] for a one-character [c] below 128. *)
Fixpoint str_remove (c : ascii) (s : string) : string :=
  match s with
  | EmptyString => EmptyString
  | String c' s' => if Ascii.eqb c' c then str_remove c s' else String c' (str_remove c s')
  end.

(** The characters of [s] that satisfy [p], in order. *)
Fixpoint str_filter (p : ascii -> bool) (s : string) : string :=
  match s with
  | EmptyString => EmptyString
  | String c s' => if p c then String c (str_filter p s') else str_filter p s'
  end.

Fixpoint str_lstrip_chars (p : ascii -> bool) (s : string) : string :=
  match s with
  | String c s' => if p c then str_lstrip_chars p s' else s
  | EmptyString => s
  end.

(** [s.strip(chars)] for characters below 128. *)
Definition str_strip_chars (p : ascii -> bool) (s : string) : string :=
  str_rev (str_lstrip_chars p (str_rev (str_lstrip_chars p s))).

Definition is_quote (c : ascii) : bool := byte_is 39 c || byte_is 34 c.

Fixpoint str_startswith (p s : string) : bool :=
  match p with
  | EmptyString => true
  | String a p' =>
      match s with
      | String b s' => Ascii.eqb a b && str_startswith p' s'
      | EmptyString => false
      end
  end.

(** [s[2:]] *)
Definition str_drop2 (s : string) : string :=
  match s with
  | String _ (String _ s') => s'
  | _ => EmptyString
  end.

Definition is_hex (c : ascii) : bool :=
  byte_in 48 57 c || byte_in 97 102 c || byte_in 65 70 c.

Definition is_lower_hex (c : ascii) : bool := byte_in 48 57 c || byte_in 97 102 c.

(** [re.fullmatch(cls{n}, s)]: exactly [n] characters of the class, then the
    end of the text. *)
Fixpoint re_fullmatch_class (cls : ascii -> bool) (n : nat) (s : string) : bool :=
  match n, s with
  | O, EmptyString => true
  | S n', String c s' => cls c && re_fullmatch_class cls n' s'
  | _, _ => false
  end.

(** [str.lower] on a character below 128. *)
Definition ascii_lower (c : ascii) : ascii :=
  if byte_in 65 90 c then ascii_of_N (N_of_ascii c + 32) else c.

Fixpoint str_lower (s : string) : string :=
  match s with
  | EmptyString => EmptyString
  | String c s' => String (ascii_lower c) (str_lower s')
  end.

(** [unicodedata.normalize("NFKC", _)] is a parameter [nfkc]: the tables of
    the Unicode standard are not part of the program.  [str.lower] is only
    applied to text that matched the hexadecimal class. *)
Definition normalize_hash (nfkc : string -> string) (h : string) : option string :=
  if String.eqb h "" then None
  else
    let h := str_strip (nfkc h) in
    let h := str_strip_chars is_quote
               (str_remove "013" (str_remove "010" (str_remove " " h))) in
    let h := if str_startswith "0x" h || str_startswith "0X" h then str_drop2 h else h in
    if re_fullmatch_class is_hex 64 h then Some ("0x" ++ str_lower h) else None.

(** ** Canonical serialisation ([app.py], line 366; [ipfs_upload.py], line 19)

    [json.dumps(obj, ensure_ascii=False, sort_keys=True, separators=(",", ":"))]
    is library code, modelled here on the values a report is made of.  A
    dictionary is the list of its items in insertion order; its keys are
    strings or integers (the controls of the maturity map).  The text of a
    float is a parameter [float_repr]. *)

Inductive json_key : Type :=
| KStr (s : string)
| KInt (n : Z).

#[local] Set Warnings "-register-all".
Inductive json : Type :=
| JNull
| JBool (b : bool)
| JInt (n : Z)
| JFloat (q : Q)
| JStr (s : string)
| JList (elems : list json)
| JDict (items : list (json_key * json)).

Inductive json_error : Type := TypeError.

(** [k1 < k2] on keys: text by code points, which is the order of the UTF-8
    bytes; integers by value; a string and an integer cannot be ordered. *)
Definition key_lt (a b : json_key) : result json_error bool :=
  match a, b with
  | KStr s, KStr t => Ok (String.ltb s t)
  | KInt x, KInt y => Ok (Z.ltb x y)
  | _, _ => Raise TypeError
  end.

(** [sorted(dct.items())].  The keys of a dictionary are distinct, so items
    are ordered by their keys alone.  The sort is written as an insertion
    sort: any sort returns the same list, and raises exactly when a string
    key meets an integer key, since two neighbours of the sorted list must
    have been compared. *)
Fixpoint insert_item {V} (x : json_key * V) (l : list (json_key * V))
  : result json_error (list (json_key * V)) :=
  match l with
  | [] => Ok [x]
  | y :: l' =>
      lt ← key_lt (fst x) (fst y);
      if (lt : bool) then Ok (x :: y :: l')
      else r ← insert_item x l'; Ok (y :: r)
  end.

Fixpoint sorted_items {V} (l : list (json_key * V))
  : result json_error (list (json_key * V)) :=
  match l with
  | [] => Ok []
  | x :: l' => s ← sorted_items l'; insert_item x s
  end.

(** The first exception of a list of computations, or all their values. *)
Fixpoint sequence {E A} (l : list (result E A)) : result E (list A) :=
  match l with
  | [] => Ok []
  | m :: l' => a ← m; r ← sequence l'; Ok (a :: r)
  end.

Fixpoint join (sep : string) (parts : list string) : string :=
  match parts with
  | [] => ""
  | [x] => x
  | x :: rest => x ++ sep ++ join sep rest
  end.

Definition quote : string := String "034" "".
Definition backslash : string := String "092" "".

(** With [ensure_ascii=False] only the quote, the backslash and the control
    characters are escaped. *)
Definition escape_char (c : ascii) : string :=
  if byte_is 34 c then backslash ++ quote
  else if byte_is 92 c then backslash ++ backslash
  else if byte_is 10 c then backslash ++ "n"
  else if byte_is 13 c then backslash ++ "r"
  else if byte_is 9 c then backslash ++ "t"
  else if byte_is 8 c then backslash ++ "b"
  else if byte_is 12 c then backslash ++ "f"
  else if byte_in 0 31 c then
    backslash ++ "u00" ++
    String (hex_char (N_of_ascii c / 16)) (String (hex_char (N_of_ascii c mod 16)) "")
  else String c "".

Fixpoint escape (s : string) : string :=
  match s with
  | EmptyString => EmptyString
  | String c s' => escape_char c ++ escape s'
  end.

Definition encode_str (s : string) : string := quote ++ escape s ++ quote.

(** [str(n)] of an integer. *)
Definition int_str (n : Z) : string :=
  DecimalString.NilZero.string_of_int (Z.to_int n).

Definition key_str (k : json_key) : string :=
  match k with
  | KStr s => encode_str s
  | KInt n => quote ++ int_str n ++ quote
  end.

Definition encode_item (kv : json_key * result json_error string)
  : result json_error string :=
  v ← snd kv; Ok (key_str (fst kv) ++ ":" ++ v).

Fixpoint dumps (float_repr : Q -> string) (v : json) : result json_error string :=
  match v with
  | JNull => Ok "null"
  | JBool b => Ok (if b then "true" else "false")
  | JInt n => Ok (int_str n)
  | JFloat q => Ok (float_repr q)
  | JStr s => Ok (encode_str s)
  | JList elems =>
      parts ← sequence (map (dumps float_repr) elems);
      Ok ("[" ++ join "," parts ++ "]")
  | JDict items =>
      sorted ← sorted_items (map (fun kv => (fst kv, dumps float_repr (snd kv))) items);
      parts ← sequence (map encode_item sorted);
      Ok ("{" ++ join "," parts ++ "}")
  end.

(** The fingerprint of a report: lines 366-367 of [app.py]. *)
Definition report_fingerprint (float_repr : Q -> string) (report : json)
  : result json_error string :=
  report_json ← dumps float_repr report;
  Ok (sha256_hex (encode_utf8 report_json)).

(** The upload body of [upload_json_to_ipfs]: line 19 of [ipfs_upload.py]. *)
Definition canonical_bytes (float_repr : Q -> string) (obj : json)
  : result json_error (list byte) :=
  text ← dumps float_repr obj;
  Ok (encode_utf8 text).

(** Identical logical content, as [==] decides it on dictionaries and lists:
    lists agree element by element, dictionaries have as many items and
    every key of the first is a key of the second with the same value.
    Numbers are the same when they are the same number of the same kind. *)
Definition key_eqb (a b : json_key) : bool :=
  match a, b with
  | KStr s, KStr t => String.eqb s t
  | KInt x, KInt y => Z.eqb x y
  | _, _ => false
  end.

Fixpoint item_get {V} (k : json_key) (d : list (json_key * V)) : option V :=
  match d with
  | [] => None
  | (k', v) :: d' => if key_eqb k k' then Some v else item_get k d'
  end.

Definition forall2b {A B} (f : A -> B -> bool) : list A -> list B -> bool :=
  fix go (xs : list A) (ys : list B) : bool :=
    match xs, ys with
    | [], [] => true
    | x :: xs', y :: ys' => f x y && go xs' ys'
    | _, _ => false
    end.

Fixpoint same_content (a b : json) : bool :=
  match a, b with
  | JNull, JNull => true
  | JBool x, JBool y => Bool.eqb x y
  | JInt x, JInt y => Z.eqb x y
  | JFloat x, JFloat y => Z.eqb (Qnum x) (Qnum y) && Pos.eqb (Qden x) (Qden y)
  | JStr x, JStr y => String.eqb x y
  | JList xs, JList ys => forall2b same_content xs ys
  | JDict d1, JDict d2 =>
      Nat.eqb (length d1) (length d2) &&
      forallb (fun kv => match item_get (fst kv) d2 with
                         | Some v' => same_content (snd kv) v'
                         | None => false
                         end) d1
  | _, _ => false
  end.

(** The keys of every dictionary of a value are distinct. *)
Definition all_of {A} (P : A -> Prop) (l : list A) : Prop :=
  fold_right (fun x acc => P x /\ acc) True l.

Fixpoint distinct_keys (v : json) : Prop :=
  match v with
  | JList elems => all_of distinct_keys elems
  | JDict items =>
      NoDup (map fst items) /\ all_of (fun kv => distinct_keys (snd kv)) items
  | _ => True
  end.

(** The report of [app.py], lines 357-365, as a JSON value. *)
Definition safeguard_json (s : safeguard) : json :=
  JDict [(KStr "control", JInt (control s)); (KStr "id", JStr (id s));
         (KStr "ig", JStr (ig s)); (KStr "title", JStr (title s));
         (KStr "control_name", JStr (control_name s))].

Definition maturity_json (maturity : dict control_maturity) : json :=
  JDict (map (fun ce =>
                (KInt (fst ce),
                 JDict [(KStr "name", JStr (m_name (snd ce)));
                        (KStr "ig1", JFloat (ig1 (snd ce)));
                        (KStr "ig2", JFloat (ig2 (snd ce)));
                        (KStr "ig3", JFloat (ig3 (snd ce)));
                        (KStr "cmmi", JInt (cmmi (snd ce)))]))
             maturity).

Definition answers_json (respostas_by_id : gmap string string) : json :=
  JDict (map (fun kv => (KStr (fst kv), JStr (snd kv))) (map_to_list respostas_by_id)).

Definition build_report (company now_iso : string) (safeguards : list safeguard)
    (respostas_by_id : gmap string string) (maturity : dict control_maturity)
    (cmmi_avg : Q) : json :=
  JDict [(KStr "schema", JStr "cis-v8/ig1-ig2-ig3/v1");
         (KStr "company", JStr company);
         (KStr "generated_at", JStr now_iso);
         (KStr "safeguards", JList (map safeguard_json safeguards));
         (KStr "answers", answers_json respostas_by_id);
         (KStr "maturity", maturity_json maturity);
         (KStr "cmmi_avg", JFloat cmmi_avg)].

(** The same value with the fields of every dictionary inserted in the
    opposite order. *)
Fixpoint reversed_fields (v : json) : json :=
  match v with
  | JList elems => JList (map reversed_fields elems)
  | JDict items => JDict (rev (map (fun kv => (fst kv, reversed_fields (snd kv))) items))
  | _ => v
  end.

(** A decision procedure for [distinct_keys]. *)
Fixpoint no_repeat (ks : list json_key) : bool :=
  match ks with
  | [] => true
  | k :: ks' => negb (existsb (key_eqb k) ks') && no_repeat ks'
  end.

Fixpoint distinct_keysb (v : json) : bool :=
  match v with
  | JList elems => forallb distinct_keysb elems
  | JDict items =>
      no_repeat (map fst items) && forallb (fun kv => distinct_keysb (snd kv)) items
  | _ => true
  end.

(** The report of the specification's example, and a float printer that
    covers the values met in it. *)
Definition example_float_repr (q : Q) : string :=
  if Qeq_bool q 0 then "0.0"
  else if Qeq_bool q 0.5 then "0.5"
  else if Qeq_bool q 1 then "1.0"
  else if Qeq_bool q 3 then "3.0"
  else "?".

Definition example_report : json :=
  match compute_maturity example_answers example_safeguards with
  | Ok (maturity, cmmi_avg) =>
      build_report "Minha Empresa LTDA" "2025-01-01T12:00:00Z"
                   example_safeguards example_answers maturity cmmi_avg
  | Raise _ => JNull
  end.

(** The order of keys made total (integers before strings), the insertion
    sort without exceptions, and keys of one kind. *)
Definition key_ltb (a b : json_key) : bool :=
  match a, b with
  | KStr s, KStr t => String.ltb s t
  | KInt x, KInt y => Z.ltb x y
  | KInt _, KStr _ => true
  | KStr _, KInt _ => false
  end.

Fixpoint insert_pure {V} (x : json_key * V) (l : list (json_key * V))
  : list (json_key * V) :=
  match l with
  | [] => [x]
  | y :: l' => if key_ltb (fst x) (fst y) then x :: y :: l' else y :: insert_pure x l'
  end.

Fixpoint isort {V} (l : list (json_key * V)) : list (json_key * V) :=
  match l with
  | [] => []
  | x :: l' => insert_pure x (isort l')
  end.

Definition same_kind (a b : json_key) : bool :=
  match a, b with
  | KStr _, KStr _ => true
  | KInt _, KInt _ => true
  | _, _ => false
  end.

Definition uniform {V} (l : list (json_key * V)) : Prop :=
  forall a b, In a l -> In b l -> same_kind (fst a) (fst b) = true.

(** Texts all of whose characters satisfy a test, and what a string of 64
    hexadecimal characters is. *)
Definition str_forall (p : ascii -> bool) (s : string) : bool :=
  forallb p (list_ascii_of_string s).

Definition hex64 (s : string) : Prop :=
  String.length s = 64%nat /\ str_forall is_hex s = true.

Definition lower_hex64 (s : string) : Prop :=
  String.length s = 64%nat /\ str_forall is_lower_hex s = true.

(** The text [normalize_hash] matches against the 64 digits: a name for the
    value its steps compute, used to calculate with it. *)
Definition hash_content (nfkc : string -> string) (h : string) : string :=
  let h := str_strip (nfkc h) in
  let h := str_strip_chars is_quote
             (str_remove "013" (str_remove "010" (str_remove " " h))) in
  if str_startswith "0x" h || str_startswith "0X" h then str_drop2 h else h.

Definition ascii_only (s : string) : bool := str_forall (byte_in 0 127) s.

(** Characters of a prefixed hexadecimal string. *)
Definition token (c : ascii) : bool := is_hex c || byte_is 120 c || byte_is 88 c.

(** A fragment of NFKC, enough to instantiate the parameter: the fullwidth
    forms U+FF01..U+FF5E become the characters U+0021..U+007E, the no-break
    and ideographic spaces become a space, everything else is kept. *)
Fixpoint nfkc_fragment (s : string) : string :=
  match s with
  | String c1 s1 =>
      match s1 with
      | String c2 s2 =>
          if byte_is 194 c1 && byte_is 160 c2 then String " " (nfkc_fragment s2)
          else match s2 with
               | String c3 s3 =>
                   if byte_is 239 c1 && byte_is 188 c2 && byte_in 129 191 c3 then
                     String (ascii_of_N (N_of_ascii c3 - 96)) (nfkc_fragment s3)
                   else if byte_is 239 c1 && byte_is 189 c2 && byte_in 128 158 c3 then
                     String (ascii_of_N (N_of_ascii c3 - 32)) (nfkc_fragment s3)
                   else if byte_is 227 c1 && byte_is 128 c2 && byte_is 128 c3 then
                     String " " (nfkc_fragment s3)
                   else String c1 (nfkc_fragment s1)
               | EmptyString => String c1 (nfkc_fragment s1)
               end
      | EmptyString => s
      end
  | EmptyString => s
  end.

(** The rows of the specification's hash normalisation table. *)
Definition upper_hex_64 : string :=
  "ABCDEF0123456789ABCDEF0123456789ABCDEF0123456789ABCDEF0123456789".

Definition lower_hex_64 : string :=
  "abcdef0123456789abcdef0123456789abcdef0123456789abcdef0123456789".

Definition hex_63 : string :=
  "abcdef0123456789abcdef0123456789abcdef0123456789abcdef012345678".

(** What [normalize_hash] accepts, said without its steps.  A whitespace
    character is one of the UTF-8 encodings [str.isspace] holds of; a blank
    text is a sequence of them. *)
Definition ws_char (w : string) : Prop :=
  (exists c, w = String c "" /\ ascii_space c = true) \/
  (exists c1 c2, w = String c1 (String c2 "") /\ space2 c1 c2 = true) \/
  (exists c1 c2 c3, w = String c1 (String c2 (String c3 "")) /\ space3 c1 c2 c3 = true).

Inductive blank_text : string -> Prop :=
| blank_nil : blank_text ""
| blank_cons (w s : string) : ws_char w -> blank_text s -> blank_text (w ++ s).

(** A space, a line feed or a carriage return. *)
Definition gap (c : ascii) : bool := byte_is 32 c || byte_is 10 c || byte_is 13 c.

Definition hash_prefix (p : string) : Prop := p = "" \/ p = "0x" \/ p = "0X".

(** [t] spells the 64 digits [body]: blank text around a core which, read
    without its spaces and line breaks, is the digits after an optional
    prefix, between quotes or not. *)
Definition spells (t body : string) : Prop :=
  exists lead core trail ql qr p,
    t = lead ++ core ++ trail /\ blank_text lead /\ blank_text trail /\
    str_filter (fun c => negb (gap c)) core = ql ++ p ++ body ++ qr /\
    str_forall is_quote ql = true /\ str_forall is_quote qr = true /\
    hash_prefix p /\ hex64 body.

(** The claim as the specification words it: only what surrounds the text is
    stripped (whitespace, then quotes), an optional prefix is dropped, and
    what remains must be the 64 digits. *)
Definition claimed_content (nfkc : string -> string) (h : string) : string :=
  let h := str_strip_chars is_quote (str_strip (nfkc h)) in
  if str_startswith "0x" h || str_startswith "0X" h then str_drop2 h else h.

Definition claimed_normalize_hash (nfkc : string -> string) (h : string) : option string :=
  if String.eqb h "" then None
  else if re_fullmatch_class is_hex 64 (claimed_content nfkc h)
       then Some ("0x" ++ str_lower (claimed_content nfkc h))
       else None.

(** Digits written in two groups, digits after a tab, and digits with a tab
    between them. *)
Definition hex_32 : string := "abcdef0123456789abcdef0123456789".

Definition spaced_hex : string := hex_32 ++ " " ++ hex_32.

Definition tab : string := String "009" "".

Definition tabbed_hex : string := hex_32 ++ tab ++ hex_32.

(** ** Registration ([chain.py]; [app.py], lines 437-451, 491-504, 520-552)

    An exception caught by a handler is known by its class and by the text
    [str(e)]. *)
Record exception : Type := Exception {
  exc_type : string;
  exc_str : string
}.

(** [needle in hay] *)
Fixpoint str_contains (needle hay : string) : bool :=
  str_startswith needle hay ||
  match hay with
  | String _ hay' => str_contains needle hay'
  | EmptyString => false
  end.

(** The test of the four handlers on [msg = str(e)]. *)
Definition already_registered (msg : string) : bool :=
  str_contains "Hash ja registrado" msg ||
  (str_contains "execution reverted" msg && str_contains "Hash" msg &&
   str_contains "registrado" msg).

Inductive ui_event : Type :=
| st_success (text : string)
| st_write (label text : string)
| st_warning (text : string)
| st_error (text : string)
| st_exception (e : exception).

Definition duplicate_warning : string :=
  "⚠️ Este hash já foi registrado anteriormente. Nenhuma nova transação foi enviada.".

(** [etherscan_tx_url] of [chain.py]. *)
Definition etherscan_tx_url (etherscan_base tx_hash_hex : string) : string :=
  etherscan_base ++ "/tx/" ++ tx_hash_hex.

(** The [try ... except Exception as e] block around a registration call;
    [success_text] is the message of the handler at hand. *)
Definition on_registration (etherscan_base : string) (success_text : Z -> string)
    (call : result exception (string * Z)) : list ui_event :=
  match call with
  | Ok (tx, block) =>
      [st_success (success_text block); st_write "Tx:" (etherscan_tx_url etherscan_base tx)]
  | Raise e =>
      let msg := exc_str e in
      if already_registered msg then [st_warning duplicate_warning]
      else [st_exception e]
  end.

(** The handlers of the buttons "Registrar agora (apenas hash)" and
    "Registrar apenas o hash", of "Registrar hash + CID (Blockchain)" and of
    "Registrar hash + CID". *)
Definition on_register_hash (etherscan_base : string) :=
  on_registration etherscan_base (fun block => "Hash registrado no bloco " ++ int_str block).

Definition on_register_hash_with_cid_report (etherscan_base : string) :=
  on_registration etherscan_base (fun block => "Registrado no bloco " ++ int_str block).

Definition on_register_hash_with_cid (etherscan_base : string) :=
  on_registration etherscan_base
    (fun block => "Hash + CID registrados no bloco " ++ int_str block).

(** [_to_bytes32] of [chain.py], up to [bytes.fromhex]: the 64 digits stand
    for the 32 bytes. *)
Definition to_bytes32 (hash_hex : string) : result exception string :=
  let clean := str_strip (str_lower hash_hex) in
  let clean := if str_startswith "0x" clean then str_drop2 clean else clean in
  if negb (Nat.eqb (String.length clean) 64) || negb (re_fullmatch_class is_lower_hex 64 clean)
  then Raise (Exception "ValueError" "hash deve ter 64 caracteres hexadecimais (0x + 64).")
  else Ok clean.

(** Modelled from the spec: the ledger contract (ProofOfReport.sol is not
    among the sources).  A fingerprint is absent or registered, registration
    is valid only from absent, and on a registered fingerprint the call
    reverts; web3 raises the revert as "execution reverted: " followed by
    the reason of the contract, which is a parameter. *)
Record ledger : Type := Ledger {
  registered : gset string;
  contents : gmap string string;
  height : Z
}.

Definition register_report (revert_reason : string) (tx_id : string -> Z -> string)
    (l : ledger) (key : string) (cid : option string)
  : result exception (string * Z) * ledger :=
  if decide (key ∈ registered l) then
    (Raise (Exception "ContractLogicError" ("execution reverted: " ++ revert_reason)), l)
  else
    let block := (height l + 1)%Z in
    let contents' := match cid with
                     | Some c => <[key := c]> (contents l)
                     | None => contents l
                     end in
    (Ok (tx_id key block, block), Ledger ({[key]} ∪ registered l) contents' block).

(** [register_hash] and [register_hash_with_cid] of [chain.py] against this
    ledger: the argument is checked, then the transaction is built and
    sent. *)
Definition register_hash (revert_reason : string) (tx_id : string -> Z -> string)
    (l : ledger) (hash_hex : string) : result exception (string * Z) * ledger :=
  match to_bytes32 hash_hex with
  | Ok key => register_report revert_reason tx_id l key None
  | Raise e => (Raise e, l)
  end.

Definition register_hash_with_cid (revert_reason : string) (tx_id : string -> Z -> string)
    (l : ledger) (hash_hex cid : string) : result exception (string * Z) * ledger :=
  match to_bytes32 hash_hex with
  | Ok key => register_report revert_reason tx_id l key (Some cid)
  | Raise e => (Raise e, l)
  end.

(** A fingerprint string: the prefix and 64 lower-case digits. *)
Definition fingerprint (f : string) : Prop :=
  exists body, f = "0x" ++ body /\ String.length body = 64%nat /\
               str_forall is_lower_hex body = true.

(** The test of the handlers, as the specification words it. *)
Definition duplicate_message (msg : string) : Prop :=
  (exists before after, msg = before ++ "Hash ja registrado" ++ after) \/
  ((exists before after, msg = before ++ "execution reverted" ++ after) /\
   (exists before after, msg = before ++ "Hash" ++ after) /\
   (exists before after, msg = before ++ "registrado" ++ after)).

(** The outcomes of the specification, read off what the handler shows. *)
Inductive outcome : Type := Registered | AlreadyRegistered | GenericFailure.

Definition outcome_of (events : list ui_event) : outcome :=
  match events with
  | st_warning _ :: _ => AlreadyRegistered
  | st_success _ :: _ => Registered
  | _ => GenericFailure
  end.

(** [needle] occurs in [hay]. *)
Definition occurs (needle hay : string) : Prop :=
  exists before after, hay = before ++ needle ++ after.

(** An example ledger and transaction identifier for the scenarios. *)
Definition empty_ledger : ledger := Ledger ∅ ∅ 0.

Definition example_tx_id (key : string) (block : Z) : string := "0x" ++ key.

(** The ordered rule table of the specification, kept apart from the code:
    a rule applies to the three percentages and assigns a level. *)
Record rule : Type := Rule {
  applies : Q -> Q -> Q -> Prop;
  assigns : Q -> Q -> Q -> Z -> Prop
}.
Arguments applies r (_ _ _)%_Q_scope.
Arguments assigns r (_ _ _)%_Q_scope _%_Z_scope.

Definition rule1 : rule :=
  Rule (fun p1 p2 _ => p1 < 0.20 /\ p2 < 0.20)%Q (fun _ _ _ l => l = 1%Z).

Definition rule2 : rule :=
  Rule (fun p1 p2 _ => 0.80 <= p1 /\ p2 < 0.40)%Q (fun _ _ _ l => l = 2%Z).

Definition rule3 : rule :=
  Rule (fun p1 p2 p3 => 0.80 <= p1 /\ 0.50 <= p2 /\ p3 < 0.40)%Q
       (fun _ _ _ l => l = 3%Z).

Definition rule4 : rule :=
  Rule (fun p1 p2 p3 => 0.80 <= p1 /\ 0.70 <= p2 /\ 0.40 <= p3)%Q
       (fun p1 p2 p3 l =>
          (0.90 <= p1 /\ 0.85 <= p2 /\ 0.70 <= p3)%Q /\ l = 5%Z \/
          ~ (0.90 <= p1 /\ 0.85 <= p2 /\ 0.70 <= p3)%Q /\ l = 4%Z).

Definition rule5 : rule :=
  Rule (fun _ _ _ => True)
       (fun p1 _ _ l => (0.50 <= p1)%Q /\ l = 2%Z \/ (p1 < 0.50)%Q /\ l = 1%Z).

Definition level_table : list rule := [rule1; rule2; rule3; rule4; rule5].

(** The level given by the first rule of a table that applies. *)
Inductive first_match (p1 p2 p3 : Q) : list rule -> Z -> Prop :=
| fm_hit r rs l :
    applies r p1 p2 p3 -> assigns r p1 p2 p3 l -> first_match p1 p2 p3 (r :: rs) l
| fm_skip r rs l :
    ~ applies r p1 p2 p3 -> first_match p1 p2 p3 rs l -> first_match p1 p2 p3 (r :: rs) l.
Arguments first_match (_ _ _)%_Q_scope _ _%_Z_scope.

(** The specification of a percentage, kept apart from the code: the ids of
    the safeguards of control [c] in implementation group [g], the score of
    an answer, and the arithmetic mean. *)
Definition valid_ig (s : safeguard) : Prop :=
  ig s = "IG1" \/ ig s = "IG2" \/ ig s = "IG3".

Definition valid_igs (safeguards : list safeguard) : bool :=
  forallb (fun s => String.eqb (ig s) "IG1" || String.eqb (ig s) "IG2" ||
                    String.eqb (ig s) "IG3") safeguards.

Definition members (safeguards : list safeguard) (c : Z) (g : string) : list string :=
  map id (filter (fun s => Z.eqb (control s) c && String.eqb (ig s) g) safeguards).

Definition spec_score (a : option string) : Q :=
  if decide (a = Some "Implementado") then 1
  else if decide (a = Some "Parcial") then 0.5
  else if decide (a = Some "Não se aplica") then 1
  else 0.

Definition arithmetic_mean (xs : list Q) : Q :=
  (fold_right Qplus 0 xs / inject_Z (Z.of_nat (length xs)))%Q.

Definition is_bucket_mean (respostas_by_id : gmap string string)
    (ids : list string) (p : Q) : Prop :=
  (ids = [] -> p = 0%Q) /\
  (ids <> [] ->
   (p == arithmetic_mean (map (fun sid => spec_score (respostas_by_id !! sid)) ids))%Q).

Definition in_unit_interval (p : Q) : Prop := (0 <= p /\ p <= 1)%Q.

Definition entry_in_bounds (e : control_maturity) : Prop :=
  in_unit_interval (ig1 e) /\ in_unit_interval (ig2 e) /\ in_unit_interval (ig3 e) /\
  (cmmi e = 1 \/ cmmi e = 2 \/ cmmi e = 3 \/ cmmi e = 4 \/ cmmi e = 5)%Z.

(** What the grouping loop has built after the safeguards [seen]. *)
Definition grouped (seen : list safeguard) (by_control : dict bucket) : Prop :=
  NoDup (dict_keys by_control) /\
  (forall c, In c (dict_keys by_control) <-> In c (map control seen)) /\
  (forall c b, dict_get c by_control = Some b ->
     IG1 b = members seen c "IG1" /\
     IG2 b = members seen c "IG2" /\
     IG3 b = members seen c "IG3").

(** The values the scoring loop computes, as total functions. *)
Definition percent_value (respostas_by_id : gmap string string) (ids : list string) : Q :=
  match ids with
  | [] => 0%Q
  | _ =>
      let scores :=
        map (fun sid => score_answer (default "Não implementado" (respostas_by_id !! sid))) ids in
      (py_sum scores / py_len scores)%Q
  end.

Definition entry_of (respostas_by_id : gmap string string) (b : bucket) : control_maturity :=
  let p1 := percent_value respostas_by_id (IG1 b) in
  let p2 := percent_value respostas_by_id (IG2 b) in
  let p3 := percent_value respostas_by_id (IG3 b) in
  ControlMaturity (name b) p1 p2 p3 (cmmi_level_from_igs p1 p2 p3).

Definition scored (respostas_by_id : gmap string string) (items : list (Z * bucket))
    (maturity : dict control_maturity) : dict control_maturity :=
  fold_left (fun m cb => dict_set (fst cb) (entry_of respostas_by_id (snd cb)) m)
            items maturity.

Definition levels (respostas_by_id : gmap string string) (items : list (Z * bucket)) : list Z :=
  map (fun cb => cmmi (entry_of respostas_by_id (snd cb))) items.

Definition average_value (all_levels : list Z) : Q :=
  match all_levels with
  | [] => 0%Q
  | _ => (py_sum (map inject_Z all_levels) / py_len all_levels)%Q
  end.

(** ** Vocabulary for further properties of the scoring *)

(** The controls of a catalogue in the order of their first safeguard. *)
Definition first_occurrences (cs : list Z) : list Z :=
  fold_left (fun acc c => if existsb (Z.eqb c) acc then acc else (acc ++ [c])%list) cs [].

(** The last safeguard of a control in a catalogue. *)
Definition last_of_control (safeguards : list safeguard) (c : Z) : option safeguard :=
  last (filter (fun s => Z.eqb (control s) c) safeguards).

(** The mean of the levels of the entries of a result. *)
Definition mean_level (maturity : dict control_maturity) : Q :=
  (inject_Z (fold_right Z.add 0%Z (map (fun ce => cmmi (snd ce)) maturity)) /
   inject_Z (Z.of_nat (length maturity)))%Q.

(** A catalogue whose control 1 is named twice. *)
Definition renamed_catalogue : list safeguard := [
  Safeguard 1 "1.1" "IG1" "t1" "first name";
  Safeguard 2 "2.1" "IG1" "t2" "other";
  Safeguard 1 "1.2" "IG2" "t3" "second name"
].


(** ** Contract address ([chain.py], lines 26-34) *)

(** [re.sub(r"\s+", "", v)]: every whitespace character is removed. *)
Fixpoint str_remove_spaces (s : string) : string :=
  match s with
  | String c1 s1 =>
      if ascii_space c1 then str_remove_spaces s1
      else match s1 with
           | String c2 s2 =>
               if space2 c1 c2 then str_remove_spaces s2
               else match s2 with
                    | String c3 s3 =>
                        if space3 c1 c2 c3 then str_remove_spaces s3
                        else String c1 (str_remove_spaces s1)
                    | EmptyString => String c1 (str_remove_spaces s1)
                    end
           | EmptyString => s
           end
  | EmptyString => s
  end.

(** [HEX40_RE.fullmatch(v)] for [^0x[0-9a-fA-F]{40}$]. *)
Definition hex40_fullmatch (v : string) : bool :=
  str_startswith "0x" v && re_fullmatch_class is_hex 40 (str_drop2 v).

(** [_clean_address]; [repr(v)] in the message is a parameter. *)
Definition clean_address (nfkc py_repr : string -> string) (value : string)
  : result exception string :=
  let v := nfkc value in
  let v := str_strip_chars (byte_is 34) (str_strip_chars (byte_is 39) (str_strip v)) in
  let v := str_remove_spaces v in
  if negb (hex40_fullmatch v) then
    Raise (Exception "ValueError"
             ("CONTRACT_ADDRESS malformado: " ++ py_repr v ++ " (esperado 0x + 40 hex)"))
  else Ok v.

Definition hex40 (s : string) : Prop :=
  String.length s = 40%nat /\ str_forall is_hex s = true.

Definition example_address : string := "0x52908400098527886E0F7030069857D2E4169EE7".

(** ** Values every dictionary of which has keys of one kind *)

Fixpoint uniform_keys (v : json) : Prop :=
  match v with
  | JList elems => all_of uniform_keys elems
  | JDict items => uniform items /\ all_of (fun kv => uniform_keys (snd kv)) items
  | _ => True
  end.

(** A dictionary with a string key and an integer key. *)
Definition mixed_keys : json := JDict [(KStr "1", JInt 1); (KInt 2, JInt 2)].

(** ** File-name slugs ([app.py], lines 56-59) *)

(** [text.encode("ascii", "ignore").decode("ascii")] drops the characters
    above U+007F, which in UTF-8 are the bytes above 127: it is
    [str_filter (byte_in 0 127)]. *)

(** The class [[a-zA-Z0-9_-]]. *)
Definition slug_char (c : ascii) : bool :=
  byte_in 97 122 c || byte_in 65 90 c || byte_in 48 57 c || byte_is 95 c || byte_is 45 c.

(** [re.sub(r"[^a-zA-Z0-9_-]+", "-", text)]: every maximal run of characters
    outside the class becomes one hyphen; [in_run] tells that the run has
    begun. *)
Fixpoint sub_runs (in_run : bool) (s : string) : string :=
  match s with
  | EmptyString => EmptyString
  | String c s' =>
      if slug_char c then String c (sub_runs false s')
      else if in_run then sub_runs true s'
      else String "-" (sub_runs true s')
  end.

(** [slugify]; [unicodedata.normalize("NFKD", _)] is a parameter. *)
Definition slugify (nfkd : string -> string) (text : string) : string :=
  let text := str_filter (byte_in 0 127) (nfkd text) in
  let text := str_strip_chars (byte_is 45) (sub_runs false text) in
  if String.eqb text "" then "empresa" else text.

(** ** IPFS upload ([app.py], lines 45-51 and 182-224; [ipfs_upload.py])

    The HTTP client is outside the program: [post] answers a request with a
    response or raises, and every function returns, beside its result, the
    requests it has sent. *)

Inductive payload : Type :=
| JsonPayload (content : json)
| FilePayload (filename : string) (data : list byte) (content_type : string).

Record request : Type := Request {
  req_url : string;
  req_headers : list (string * string);
  req_payload : payload
}.

(** A response: its status, its text and what [.json()] returns or raises. *)
Record response : Type := Response {
  status_code : Z;
  resp_text : string;
  resp_json : result exception json
}.

(** [Response.ok]: [raise_for_status()] does not raise, which it does for
    the statuses from 400 to 599. *)
Definition resp_ok (r : response) : bool :=
  negb (Z.leb 400 (status_code r) && Z.ltb (status_code r) 600).

(** What the functions take from outside: the HTTP client, the clock
    ([utcnow().strftime(...)]), [str()] of a value other than a string, the
    text of a float, NFKD, and the texts of the exceptions of the libraries. *)
Record world : Type := World {
  post : request -> result exception response;
  now_stamp : string;
  py_str : json -> string;
  float_text : Q -> string;
  nfkd : string -> string;
  type_error_text : string;
  http_error_text : response -> string
}.

Record config : Type := Config {
  PINATA_JWT : string;
  PINATA_ENDPOINT : string;
  NFT_STORAGE_TOKEN : string;
  NFT_STORAGE_API : string;
  WEB3_STORAGE_TOKEN : string
}.

(** [(os.getenv(name) or default).strip()] *)
Definition env_setting (env : gmap string string) (name default : string) : string :=
  str_strip (match env !! name with
             | Some v => if String.eqb v "" then default else v
             | None => default
             end).

(** Lines 45-51 of [app.py]. *)
Definition load_config (env : gmap string string) : config :=
  Config (env_setting env "PINATA_JWT" "")
         (env_setting env "PINATA_ENDPOINT" "https://api.pinata.cloud/pinning/pinJSONToIPFS")
         (env_setting env "NFT_STORAGE_TOKEN" "")
         (env_setting env "NFT_STORAGE_API" "https://api.nft.storage/upload")
         (env_setting env "WEB3_STORAGE_TOKEN" "").

Definition RuntimeError (msg : string) : exception := Exception "RuntimeError" msg.

Definition type_name (v : json) : string :=
  match v with
  | JNull => "NoneType"
  | JBool _ => "bool"
  | JInt _ => "int"
  | JFloat _ => "float"
  | JStr _ => "str"
  | JList _ => "list"
  | JDict _ => "dict"
  end.

Definition no_attribute (v : json) (attr : string) : exception :=
  Exception "AttributeError"
            ("'" ++ type_name v ++ "' object has no attribute '" ++ attr ++ "'").

(** [v.get(key)]: a dictionary answers with the value or [None]. *)
Definition py_get (v : json) (key : string) : result exception json :=
  match v with
  | JDict items => Ok (default JNull (item_get (KStr key) items))
  | _ => Raise (no_attribute v "get")
  end.

(** The truth value of an object. *)
Definition truthy (v : json) : bool :=
  match v with
  | JNull => false
  | JBool b => b
  | JInt n => negb (Z.eqb n 0)
  | JFloat q => negb (Qeq_bool q 0)
  | JStr s => negb (String.eqb s "")
  | JList elems => match elems with [] => false | _ => true end
  | JDict items => match items with [] => false | _ => true end
  end.

(** [a or b] *)
Definition py_or (a b : json) : json := if truthy a then a else b.

(** [v.strip()] *)
Definition py_strip (v : json) : result exception string :=
  match v with
  | JStr s => Ok (str_strip s)
  | _ => Raise (no_attribute v "strip")
  end.

(** [f"{v}"] *)
Definition format (w : world) (v : json) : string :=
  match v with
  | JStr s => s
  | _ => py_str w v
  end.

(** [json.dumps(obj, ensure_ascii=False, sort_keys=True, separators=(",", ":")).encode("utf-8")]
    where an exception is expected. *)
Definition dumps_bytes (w : world) (obj : json) : result exception (list byte) :=
  match canonical_bytes (float_text w) obj with
  | Ok b => Ok b
  | Raise TypeError => Raise (Exception "TypeError" (type_error_text w))
  end.

Definition bearer (token : string) : string * string := ("Authorization", "Bearer " ++ token).

Definition ipfs_upload_json_pinata (w : world) (cfg : config) (obj : json)
  : result exception (json * string * string) * list request :=
  if String.eqb (PINATA_JWT cfg) "" then
    (Raise (RuntimeError "PINATA_JWT não definido no .env"), [])
  else
    match c ← py_get obj "company"; py_strip (py_or c (JStr "empresa")) with
    | Raise e => (Raise e, [])
    | Ok company =>
        let name := "cis_ig1_ig2_ig3_" ++ slugify (nfkd w) company ++ "_" ++ now_stamp w in
        let payload := JDict [(KStr "pinataContent", obj);
                              (KStr "pinataMetadata", JDict [(KStr "name", JStr name)])] in
        let headers := [bearer (PINATA_JWT cfg); ("Content-Type", "application/json")] in
        let req := Request (PINATA_ENDPOINT cfg) headers (JsonPayload payload) in
        (r ← post w req;
         if negb (resp_ok r) then
           Raise (RuntimeError (PINATA_ENDPOINT cfg ++ " -> " ++ int_str (status_code r) ++
                                ": " ++ resp_text r))
         else
           data ← resp_json r;
           cid ← py_get data "IpfsHash";
           if negb (truthy cid) then
             Raise (RuntimeError ("Pinata respondeu sem CID: " ++ format w data))
           else Ok (cid, "ipfs://" ++ format w cid, "pinata"),
         [req])
    end.

Definition post_multipart (w : world) (url token filename : string) (data_bytes : list byte)
  : result exception json * list request :=
  let headers := [bearer token] in
  let req := Request url headers (FilePayload filename data_bytes "application/json") in
  (resp ← post w req;
   if negb (resp_ok resp) then
     Raise (RuntimeError (url ++ " -> " ++ int_str (status_code resp) ++ ": " ++ resp_text resp))
   else resp_json resp,
   [req]).

(** [(j.get("value") or {}).get("cid") if j.get("ok") else None] *)
Definition value_cid (j : json) : result exception json :=
  ok ← py_get j "ok";
  if truthy ok then
    value ← py_get j "value";
    py_get (py_or value (JDict [])) "cid"
  else Ok JNull.

Definition web3_storage_url : string := "https://api.web3.storage/upload".

Definition no_provider : string :=
  "Nenhum provedor IPFS configurado. Defina PINATA_JWT (recomendado) " ++
  "ou NFT_STORAGE_TOKEN (JWT clássico) ou WEB3_STORAGE_TOKEN.".

Definition ipfs_upload_json_auto (w : world) (cfg : config) (obj : json)
  : result exception (json * string * string) * list request :=
  if negb (String.eqb (PINATA_JWT cfg) "") then ipfs_upload_json_pinata w cfg obj
  else if negb (String.eqb (NFT_STORAGE_TOKEN cfg) "") &&
          str_startswith "eyJ" (NFT_STORAGE_TOKEN cfg) then
    match dumps_bytes w obj with
    | Raise e => (Raise e, [])
    | Ok b =>
        let '(r, sent) := post_multipart w (NFT_STORAGE_API cfg) (NFT_STORAGE_TOKEN cfg)
                                         "relatorio.json" b in
        (j ← r;
         cid ← value_cid j;
         if negb (truthy cid) then
           Raise (RuntimeError ("NFT.Storage respondeu sem CID: " ++ format w j))
         else Ok (cid, "ipfs://" ++ format w cid, "nft.storage"),
         sent)
    end
  else if negb (String.eqb (WEB3_STORAGE_TOKEN cfg) "") then
    match dumps_bytes w obj with
    | Raise e => (Raise e, [])
    | Ok b =>
        let '(r, sent) := post_multipart w web3_storage_url (WEB3_STORAGE_TOKEN cfg)
                                         "relatorio.json" b in
        (j ← r;
         cid ← (c ← py_get j "cid"; if truthy c then Ok c else value_cid j);
         if negb (truthy cid) then
           Raise (RuntimeError ("Web3.Storage respondeu sem CID: " ++ format w j))
         else Ok (cid, "ipfs://" ++ format w cid, "web3.storage"),
         sent)
    end
  else (Raise (RuntimeError no_provider), []).

(** [upload_json_to_ipfs] of [ipfs_upload.py]; its token is
    [os.getenv("WEB3_STORAGE_TOKEN")], not stripped. *)
Definition upload_json_to_ipfs (w : world) (token : option string) (obj : json)
  : result exception (json * string) * list request :=
  match token with
  | None => (Raise (Exception "ValueError" "WEB3_STORAGE_TOKEN não definido no .env"), [])
  | Some token =>
      if String.eqb token "" then
        (Raise (Exception "ValueError" "WEB3_STORAGE_TOKEN não definido no .env"), [])
      else
        match dumps_bytes w obj with
        | Raise e => (Raise e, [])
        | Ok data =>
            let req := Request web3_storage_url [bearer token]
                               (FilePayload "relatorio.json" data "application/json") in
            (resp ← post w req;
             if negb (resp_ok resp) then Raise (Exception "HTTPError" (http_error_text w resp))
             else
               j ← resp_json resp;
               cid ← py_get j "cid";
               if negb (truthy cid) then
                 Raise (RuntimeError ("Resposta inesperada da Web3.Storage: " ++ format w j))
               else Ok (cid, "ipfs://" ++ format w cid),
             [req])
        end
  end.

(** The provider the configuration selects: its name, its endpoint and its
    token. *)
Definition selected (cfg : config) : option (string * string * string) :=
  if negb (String.eqb (PINATA_JWT cfg) "") then
    Some ("pinata", PINATA_ENDPOINT cfg, PINATA_JWT cfg)
  else if str_startswith "eyJ" (NFT_STORAGE_TOKEN cfg) then
    Some ("nft.storage", NFT_STORAGE_API cfg, NFT_STORAGE_TOKEN cfg)
  else if negb (String.eqb (WEB3_STORAGE_TOKEN cfg) "") then
    Some ("web3.storage", web3_storage_url, WEB3_STORAGE_TOKEN cfg)
  else None.

(** A request to a provider: its endpoint, with its token and no other. *)
Definition sent_to (provider : string * string * string) (r : request) : Prop :=
  req_url r = snd (fst provider) /\
  In (bearer (snd provider)) (req_headers r) /\
  forall value, In ("Authorization", value) (req_headers r) -> value = "Bearer " ++ snd provider.

(** What an upload through one provider can do: raise before any request,
    or send one request to the provider and, when it returns, return a
    non-empty identifier. *)
Definition upload_outcome (w : world) (provider : string * string * string)
    (r : result exception (json * string * string) * list request) : Prop :=
  (snd r = [] /\ exists e, fst r = Raise e) \/
  (exists req, snd r = [req] /\ sent_to provider req /\
     forall cid url prov, fst r = Ok (cid, url, prov) ->
       prov = fst (fst provider) /\ truthy cid = true /\ url = "ipfs://" ++ format w cid).


(** An example of the outside: every request is answered by [resp]. *)
Definition example_world (resp : response) : world :=
  World (fun _ => Ok resp) "20250101T120000Z" (fun _ => "?") example_float_repr
        (fun s => s) "'<' not supported between instances of 'int' and 'str'"
        (fun _ => "Client Error").

Definition nft_config : config :=
  Config "" "https://api.pinata.cloud/pinning/pinJSONToIPFS"
         "eyJhbGciOi" "https://api.nft.storage/upload" "w3s-token".


Definition nft_answer : response :=
  Response 200 "" (Ok (JDict [(KStr "ok", JBool true);
                              (KStr "value", JDict [(KStr "cid", JStr "bafy")])])).

Definition web3_answer : response :=
  Response 200 "" (Ok (JDict [(KStr "cid", JStr "bafy")])).

(** The report as a file of a multipart request. *)
Definition canonical_file (w : world) (obj : json) (req : request) : Prop :=
  exists b, req_payload req = FilePayload "relatorio.json" b "application/json" /\
            canonical_bytes (float_text w) obj = Ok b /\
            report_fingerprint (float_text w) obj = Ok (sha256_hex b).


(** A variable of the environment that is unset, empty or blank. *)
Definition blank (env : gmap string string) (name : string) : Prop :=
  match env !! name with
  | Some v => str_forall ascii_space v = true
  | None => True
  end.

(** A text that does not begin with a character of [p]. *)
Definition no_lead (p : ascii -> bool) (s : string) : Prop :=
  match s with
  | String c _ => p c = false
  | EmptyString => True
  end.

(** The characters of the class other than the hyphen. *)
Definition word_char (c : ascii) : bool := slug_char c && negb (byte_is 45 c).

(** ** The answers of the questionnaire ([app.py], line 353) *)

(** [s.replace(old, "")] for a non-empty [old]: the occurrences of [old],
    from left to right and without overlap, are removed; [skip] counts the
    characters of an occurrence that are still to be dropped. *)
Fixpoint str_delete_from (old : string) (skip : nat) (s : string) : string :=
  match s with
  | EmptyString => EmptyString
  | String c s' =>
      match skip with
      | S k => str_delete_from old k s'
      | O =>
          if str_startswith old s then str_delete_from old (String.length old - 1) s'
          else String c (str_delete_from old 0 s')
      end
  end.

Definition str_delete (old s : string) : string := str_delete_from old 0 s.

(** [{k.replace("ans_", ""): v for k, v in st.session_state.answers.items()}];
    the session's answers are the items of a dictionary in insertion order. *)
Definition respostas_of_session (answers : list (string * string)) : gmap string string :=
  fold_left (fun m kv => <[str_delete "ans_" (fst kv) := snd kv]> m) answers ∅.

(** ** The text report of [hashing.py]

    The answers are a dictionary from question ids to answers (the field
    ['answer'] of each value).  The texts Python makes of a key in a
    KeyError, of a float and of a sorting failure, and [round(_, 2)], are
    taken from outside. *)

Module Hashing.

Record formats : Type := Formats {
  repr_str : string -> string;
  round2 : Q -> Q;
  float_str : Q -> string;
  type_error : string
}.

(** [{'Implementado':1,'Parcial':0.5,'Nao implementado':0}[ans]] *)
Definition weight (f : formats) (ans : string) : result exception Q :=
  if String.eqb ans "Implementado" then Ok 1%Q
  else if String.eqb ans "Parcial" then Ok 0.5%Q
  else if String.eqb ans "Nao implementado" then Ok 0%Q
  else Raise (Exception "KeyError" (repr_str f ans)).

(** [f"{qid}"] *)
Definition key_text (k : json_key) : string :=
  match k with
  | KStr s => s
  | KInt n => int_str n
  end.

Definition question_line (kv : json_key * string) : string :=
  "Q" ++ key_text (fst kv) ++ ": " ++ snd kv.

(** The loop [for qid in sorted(resps)]. *)
Fixpoint report_loop (f : formats) (items : list (json_key * string))
    (lines : list string) (total : Q) : result exception (list string * Q) :=
  match items with
  | [] => Ok (lines, total)
  | kv :: rest =>
      let lines := (lines ++ [question_line kv])%list in
      x ← weight f (snd kv);
      report_loop f rest lines (total + x)%Q
  end.

(** [lines.insert(1, x)] *)
Definition insert_second (x : string) (lines : list string) : list string :=
  match lines with
  | first :: rest => first :: x :: rest
  | [] => [x]
  end.

Definition newline : string := String "010" "".

Definition build_report (f : formats) (resps : list (json_key * string))
  : result exception string :=
  match sorted_items resps with
  | Raise TypeError => Raise (Exception "TypeError" (type_error f))
  | Ok items =>
      '(lines, total) ← report_loop f items ["CIS IG1 Maturity Report"; ""; ""] 0%Q;
      if Nat.eqb (length resps) 0 then
        Raise (Exception "ZeroDivisionError" "division by zero")
      else
        let pct := round2 f (100 * total / inject_Z (Z.of_nat (length resps)))%Q in
        Ok (join newline (insert_second ("Score: " ++ float_str f pct ++ "%") lines))
  end.

(** The answers [build_report] knows. *)
Definition known (ans : string) : Prop :=
  ans = "Implementado" \/ ans = "Parcial" \/ ans = "Nao implementado".

Definition example_formats : formats :=
  Formats (fun s => "'" ++ s ++ "'") (fun q => q)
          (fun q => if Qeq_bool q 50 then "50.0" else "?") "'<' not supported".

End Hashing.

(** A printing character below 128: neither whitespace nor a byte of a
    longer encoding. *)
Definition printing (c : ascii) : bool := byte_in 33 126 c.






(** * Properties *)

(** ** Comparisons on rationals *)

Lemma Qltb_true (x y : Q) : Qltb x y = true <-> (x < y)%Q.
Proof.
  unfold Qltb. rewrite negb_true_iff, <- not_true_iff_false, Qle_bool_iff.
  split; [apply Qnot_le_lt | apply Qlt_not_le].
Qed.

Lemma Qltb_false (x y : Q) : Qltb x y = false <-> (y <= x)%Q.
Proof. unfold Qltb. rewrite negb_false_iff. apply Qle_bool_iff. Qed.

Lemma Qgeb_true (x y : Q) : Qgeb x y = true <-> (y <= x)%Q.
Proof. apply Qle_bool_iff. Qed.

Lemma Qgeb_false (x y : Q) : Qgeb x y = false <-> (x < y)%Q.
Proof.
  unfold Qgeb. rewrite <- not_true_iff_false, Qle_bool_iff.
  split; [apply Qnot_le_lt | apply Qlt_not_le].
Qed.

(** Turn every comparison in the context into linear integer arithmetic. *)
Ltac q2z :=
  repeat match goal with
  | H : Qltb _ _ = true |- _ => apply Qltb_true in H
  | H : Qltb _ _ = false |- _ => apply Qltb_false in H
  | H : Qgeb _ _ = true |- _ => apply Qgeb_true in H
  | H : Qgeb _ _ = false |- _ => apply Qgeb_false in H
  end;
  unfold Qlt, Qle in *; cbn [Qnum Qden] in *.

Ltac split_cmp :=
  repeat match goal with
  | |- context [Qltb ?a ?b] => destruct (Qltb a b) eqn:?; cbn [andb negb]
  | |- context [Qgeb ?a ?b] => destruct (Qgeb a b) eqn:?; cbn [andb negb]
  end.

Ltac walk_table :=
  repeat first
    [ apply fm_hit; [ cbn; q2z; lia | cbn; q2z; first [lia | left; lia | right; lia] ]
    | apply fm_skip; [ cbn; q2z; lia | ] ].

Lemma first_match_level_table (p1 p2 p3 : Q) :
  first_match p1 p2 p3 level_table (cmmi_level_from_igs p1 p2 p3).
Proof.
  unfold cmmi_level_from_igs, level_table. split_cmp; walk_table.
Qed.

Definition functional_rule (p1 p2 p3 : Q) (r : rule) : Prop :=
  forall l l', assigns r p1 p2 p3 l -> assigns r p1 p2 p3 l' -> l = l'.

Lemma first_match_unique (p1 p2 p3 : Q) (table : list rule) (l l' : Z) :
  Forall (functional_rule p1 p2 p3) table ->
  first_match p1 p2 p3 table l -> first_match p1 p2 p3 table l' -> l = l'.
Proof.
  intros Hfun Hl. revert l'.
  induction Hl as [r rs l Hr Hl | r rs l Hr Hl IH]; intros l' Hl';
    inversion Hl'; subst; inversion Hfun; subst.
  - eauto.
  - contradiction.
  - contradiction.
  - auto.
Qed.

Lemma level_table_functional (p1 p2 p3 : Q) :
  Forall (functional_rule p1 p2 p3) level_table.
Proof.
  repeat constructor; intros l l'; cbn; q2z; lia.
Qed.

(** C1. The classifier returns the level of the first matching rule of the
    ordered table (1: p1 < 0.20 and p2 < 0.20 gives 1; 2: p1 >= 0.80 and
    p2 < 0.40 gives 2; 3: p1 >= 0.80, p2 >= 0.50 and p3 < 0.40 gives 3;
    4: p1 >= 0.80, p2 >= 0.70 and p3 >= 0.40 gives 5 when p1 >= 0.90,
    p2 >= 0.85 and p3 >= 0.70 and 4 otherwise; 5: otherwise 2 when
    p1 >= 0.50 and 1 if not), and no other level is the table's; the input
    (1.0, 0.5, 0.0) is not matched by rules 1 and 2, is matched by rule 3
    and gets level 3. *)
Theorem C1_level_is_first_matching_rule :
  (forall p1 p2 p3 l,
     first_match p1 p2 p3 level_table l <-> cmmi_level_from_igs p1 p2 p3 = l) /\
  (~ applies rule1 1 0.5 0 /\ ~ applies rule2 1 0.5 0 /\ applies rule3 1 0.5 0) /\
  cmmi_level_from_igs 1 0.5 0 = 3%Z.
Proof.
  split; [| split; [| reflexivity]].
  - intros p1 p2 p3 l. split.
    + intros H. symmetry.
      exact (first_match_unique _ _ _ _ _ _ (level_table_functional p1 p2 p3) H
               (first_match_level_table p1 p2 p3)).
    + intros <-. apply first_match_level_table.
  - cbn; q2z; lia.
Qed.

Lemma C1_witness :
  first_match 1 0.5 0 level_table 3 /\ cmmi_level_from_igs 0.9 0.85 0.7 = 5%Z.
Proof.
  split.
  - apply (proj1 C1_level_is_first_matching_rule 1%Q 0.5%Q 0%Q 3%Z). reflexivity.
  - apply (proj1 C1_level_is_first_matching_rule 0.9%Q 0.85%Q 0.7%Q 5%Z).
    unfold level_table. walk_table.
Defined.

(** Componentwise order on the three percentages. *)
Definition igs_le (p q : Q * Q * Q) : Prop :=
  let '(p1, p2, p3) := p in
  let '(q1, q2, q3) := q in
  (p1 <= q1 /\ p2 <= q2 /\ p3 <= q3)%Q.

Definition level_of (p : Q * Q * Q) : Z :=
  let '(p1, p2, p3) := p in cmmi_level_from_igs p1 p2 p3.

(** C8. The classifier is not monotonic: raising p3 from 0.0 to 0.4 at
    p1 = 0.8, p2 = 0.5 lowers the level from 3 to 2.  With p1 >= 0.80 and
    0.40 <= p2 < 0.50 none of rules 1 to 4 applies and the level is 2,
    whatever p3 is, while p2 = 0.5 with a small p3 is classified 3 by rule 3
    and p2 = 0.39 is classified by rule 2. *)
Theorem C8_level_not_monotonic :
  (exists p q, igs_le p q /\ (level_of q < level_of p)%Z) /\
  (forall p1 p2 p3, (0.80 <= p1)%Q -> (0.40 <= p2)%Q -> (p2 < 0.50)%Q ->
     Forall (fun r => ~ applies r p1 p2 p3) [rule1; rule2; rule3; rule4] /\
     cmmi_level_from_igs p1 p2 p3 = 2%Z) /\
  (applies rule3 0.9 0.5 0 /\ cmmi_level_from_igs 0.9 0.5 0 = 3%Z) /\
  (applies rule2 0.9 0.39 0 /\ cmmi_level_from_igs 0.9 0.39 0 = 2%Z).
Proof.
  split; [| split; [| split]].
  - exists (0.8, 0.5, 0)%Q, (0.8, 0.5, 0.4)%Q. split; [| reflexivity].
    cbn; q2z; lia.
  - intros p1 p2 p3 H1 H2 H3. split.
    + repeat constructor; cbn; q2z; lia.
    + unfold cmmi_level_from_igs. split_cmp; q2z; lia.
  - split; [cbn; q2z; lia | reflexivity].
  - split; [cbn; q2z; lia | reflexivity].
Qed.

Lemma C8_witness :
  Forall (fun r => ~ applies r 1 0.45 1) [rule1; rule2; rule3; rule4] /\
  cmmi_level_from_igs 1 0.45 1 = 2%Z.
Proof.
  apply (proj1 (proj2 C8_level_not_monotonic) 1 0.45 1)%Q;
    unfold Qle, Qlt; cbn; lia.
Defined.

(** ** Insertion-ordered dictionaries *)

Section dict_facts.
Context {V : Type}.
Implicit Types (d : dict V) (k : Z) (v : V).

Lemma dict_get_set_eq d k v : dict_get k (dict_set k v d) = Some v.
Proof.
  induction d as [| [k' v'] d IH]; cbn.
  - now rewrite Z.eqb_refl.
  - destruct (Z.eqb k k') eqn:E; cbn; rewrite ?Z.eqb_refl, ?E; auto.
Qed.

Lemma dict_get_set_ne d k k' v : k <> k' -> dict_get k' (dict_set k v d) = dict_get k' d.
Proof.
  intros Hne. induction d as [| [k0 v0] d IH]; cbn.
  - destruct (Z.eqb_spec k' k); congruence.
  - destruct (Z.eqb_spec k k0); cbn.
    + subst k0. destruct (Z.eqb_spec k' k); congruence.
    + destruct (Z.eqb_spec k' k0); auto.
Qed.

Lemma dict_get_is_Some d k : is_Some (dict_get k d) <-> In k (dict_keys d).
Proof.
  unfold dict_keys.
  induction d as [| [k' v'] d IH]; cbn.
  - split; [intros [? ?]; discriminate | tauto].
  - destruct (Z.eqb_spec k k'); [subst; split; eauto |].
    rewrite IH. split; [tauto | intros [? | ?]; [congruence | assumption]].
Qed.

Lemma dict_get_None d k : dict_get k d = None <-> ~ In k (dict_keys d).
Proof. rewrite <- dict_get_is_Some, eq_None_not_Some. tauto. Qed.

Lemma dict_keys_set d k v :
  dict_keys (dict_set k v d) =
  match dict_get k d with
  | Some _ => dict_keys d
  | None => (dict_keys d ++ [k])%list
  end.
Proof.
  unfold dict_keys.
  induction d as [| [k' v'] d IH]; cbn; [reflexivity |].
  destruct (Z.eqb_spec k k'); cbn.
  - now subst.
  - rewrite IH. now destruct (dict_get k d).
Qed.

Lemma dict_set_NoDup d k v : NoDup (dict_keys d) -> NoDup (dict_keys (dict_set k v d)).
Proof.
  intros Hnd. rewrite dict_keys_set. destruct (dict_get k d) eqn:E; [assumption |].
  apply NoDup_app. repeat split; [assumption | | apply NoDup_singleton].
  intros x Hx Hx'%list_elem_of_singleton. subst x.
  apply dict_get_None in E. apply E. now apply list_elem_of_In.
Qed.

Lemma dict_set_In d k k' v :
  In k' (dict_keys (dict_set k v d)) <-> k' = k \/ In k' (dict_keys d).
Proof.
  rewrite dict_keys_set. destruct (dict_get k d) eqn:E.
  - split; [tauto | intros [-> | ?]; [| assumption]].
    apply dict_get_is_Some. rewrite E. eauto.
  - rewrite in_app_iff. cbn. intuition congruence.
Qed.

End dict_facts.

(** ** Grouping safeguards by control and implementation group *)

Lemma members_snoc (seen : list safeguard) (s : safeguard) (c : Z) (g : string) :
  members (seen ++ [s]) c g =
  (members seen c g ++
     if Z.eqb (control s) c && String.eqb (ig s) g then [id s] else [])%list.
Proof.
  unfold members. rewrite filter_app, map_app. cbn.
  now destruct (Z.eqb (control s) c && String.eqb (ig s) g).
Qed.

Lemma members_absent (seen : list safeguard) (c : Z) (g : string) :
  ~ In c (map control seen) -> members seen c g = [].
Proof.
  unfold members. induction seen as [| s seen IH]; cbn; [reflexivity |].
  intros Hc. destruct (Z.eqb_spec (control s) c); cbn; [tauto |]. apply IH. tauto.
Qed.

Lemma grouped_nil : grouped [] [].
Proof.
  repeat split; cbn; try tauto; try discriminate. constructor.
Qed.

Lemma grouped_default (seen : list safeguard) (d : dict bucket) (c : Z) :
  grouped seen d ->
  let b := default new_bucket (dict_get c d) in
  IG1 b = members seen c "IG1" /\ IG2 b = members seen c "IG2" /\
  IG3 b = members seen c "IG3".
Proof.
  intros (_ & Hkeys & Hget). destruct (dict_get c d) as [b |] eqn:E; cbn.
  - now apply Hget.
  - apply dict_get_None in E. rewrite Hkeys in E.
    now rewrite !members_absent.
Qed.

Lemma add_safeguard_grouped (seen : list safeguard) (d d' : dict bucket) (s : safeguard) :
  grouped seen d -> add_safeguard d s = Ok d' -> grouped (seen ++ [s]) d'.
Proof.
  intros Hg Hadd.
  pose proof (grouped_default seen d (control s) Hg) as (H1 & H2 & H3).
  destruct Hg as (Hnd & Hkeys & Hget).
  unfold add_safeguard in Hadd. cbn [IG1 IG2 IG3 name] in Hadd.
  set (b := default new_bucket (dict_get (control s) d)) in *.
  assert (exists b',
    d' = dict_set (control s) b' (dict_set (control s)
           (Bucket (control_name s) (IG1 b) (IG2 b) (IG3 b)) d) /\
    IG1 b' = members (seen ++ [s]) (control s) "IG1" /\
    IG2 b' = members (seen ++ [s]) (control s) "IG2" /\
    IG3 b' = members (seen ++ [s]) (control s) "IG3") as (b' & -> & Hb').
  { rewrite !members_snoc, Z.eqb_refl. cbn [andb].
    destruct (String.eqb_spec (ig s) "IG1") as [E1 | E1];
      [| destruct (String.eqb_spec (ig s) "IG2") as [E2 | E2];
         [| destruct (String.eqb_spec (ig s) "IG3") as [E3 | E3] ] ].
    - injection Hadd as <-. eexists; split; [reflexivity |].
      rewrite E1; cbn. rewrite !app_nil_r. now rewrite H1, H2, H3.
    - injection Hadd as <-. eexists; split; [reflexivity |].
      rewrite E2; cbn. rewrite !app_nil_r. now rewrite H1, H2, H3.
    - injection Hadd as <-. eexists; split; [reflexivity |].
      cbn. rewrite !app_nil_r. now rewrite H1, H2, H3.
    - destruct (String.eqb (ig s) "name"); discriminate. }
  repeat split.
  - now do 2 apply dict_set_NoDup.
  - rewrite !dict_set_In, Hkeys, map_app, in_app_iff. cbn. intuition.
  - rewrite !dict_set_In, Hkeys, map_app, in_app_iff. cbn. intuition.
  - destruct (Z.eq_dec (control s) c) as [<- | Hne].
    + rewrite dict_get_set_eq in H. injection H as <-. apply Hb'.
    + rewrite !dict_get_set_ne in H by assumption. apply Hget in H.
      rewrite members_snoc. apply Z.eqb_neq in Hne. rewrite Hne. cbn.
      rewrite app_nil_r. apply H.
  - destruct (Z.eq_dec (control s) c) as [<- | Hne].
    + rewrite dict_get_set_eq in H. injection H as <-. apply Hb'.
    + rewrite !dict_get_set_ne in H by assumption. apply Hget in H.
      rewrite members_snoc. apply Z.eqb_neq in Hne. rewrite Hne. cbn.
      rewrite app_nil_r. apply H.
  - destruct (Z.eq_dec (control s) c) as [<- | Hne].
    + rewrite dict_get_set_eq in H. injection H as <-. apply Hb'.
    + rewrite !dict_get_set_ne in H by assumption. apply Hget in H.
      rewrite members_snoc. apply Z.eqb_neq in Hne. rewrite Hne. cbn.
      rewrite app_nil_r. apply H.
Qed.

Lemma group_safeguards_grouped (rest seen : list safeguard) (d d' : dict bucket) :
  grouped seen d -> group_safeguards d rest = Ok d' -> grouped (seen ++ rest) d'.
Proof.
  revert seen d. induction rest as [| s rest IH]; intros seen d Hg Hrun; cbn in Hrun.
  - injection Hrun as <-. now rewrite app_nil_r.
  - destruct (add_safeguard d s) as [d1 |] eqn:E; [| discriminate].
    cbn in Hrun. replace (seen ++ s :: rest)%list with ((seen ++ [s]) ++ rest)%list
      by now rewrite <- app_assoc.
    eapply IH; [| exact Hrun]. eapply add_safeguard_grouped; eauto.
Qed.

Lemma add_safeguard_valid (d : dict bucket) (s : safeguard) :
  valid_ig s -> exists d', add_safeguard d s = Ok d'.
Proof.
  unfold valid_ig, add_safeguard. intros [E | [E | E]]; rewrite E; cbn; eauto.
Qed.

Lemma group_safeguards_valid (rest : list safeguard) (d : dict bucket) :
  Forall valid_ig rest -> exists d', group_safeguards d rest = Ok d'.
Proof.
  intros Hall. revert d. induction Hall as [| s rest Hs _ IH]; intros d; cbn.
  - eauto.
  - destruct (add_safeguard_valid d s Hs) as [d1 ->]. cbn. apply IH.
Qed.

Lemma group_safeguards_no_zero_division (rest : list safeguard) (d : dict bucket) :
  group_safeguards d rest <> Raise ZeroDivisionError.
Proof.
  revert d. induction rest as [| s rest IH]; intros d; cbn; [discriminate |].
  destruct (add_safeguard d s) as [d1 | e] eqn:E; cbn; [apply IH |].
  unfold add_safeguard in E.
  repeat match type of E with
         | (if ?c then _ else _) = _ => destruct c
         end; congruence.
Qed.

(** ** The scoring loop never raises *)

Lemma py_len_cons_nonzero {A} (x : A) (xs : list A) : Qeq_bool (py_len (x :: xs)) 0 = false.
Proof.
  apply not_true_iff_false. rewrite Qeq_bool_iff. unfold py_len, Qeq. cbn. lia.
Qed.

Lemma py_div_len {A} (a : Q) (x : A) (xs : list A) :
  py_div a (py_len (x :: xs)) = Ok (a / py_len (x :: xs))%Q.
Proof. unfold py_div. now rewrite py_len_cons_nonzero. Qed.

Lemma ig_percent_ok (answers : gmap string string) (ids : list string) :
  ig_percent answers ids = Ok (percent_value answers ids).
Proof.
  destruct ids as [| sid ids]; [reflexivity |]. cbn [ig_percent percent_value map].
  apply py_div_len.
Qed.

Lemma maturity_loop_ok (answers : gmap string string) (items : list (Z * bucket))
    (maturity : dict control_maturity) (all_levels : list Z) :
  maturity_loop answers items maturity all_levels =
  Ok (scored answers items maturity, (all_levels ++ levels answers items)%list).
Proof.
  revert maturity all_levels.
  induction items as [| [c b] items IH]; intros maturity all_levels; cbn.
  - now rewrite app_nil_r.
  - rewrite !ig_percent_ok. cbn. rewrite IH. now rewrite <- app_assoc.
Qed.

Lemma average_ok (all_levels : list Z) :
  match all_levels with
  | [] => Ok 0%Q
  | _ => py_div (py_sum (map inject_Z all_levels)) (py_len all_levels)
  end = Ok (average_value all_levels).
Proof. destruct all_levels; [reflexivity | apply py_div_len]. Qed.

Lemma compute_maturity_unfold (answers : gmap string string) (safeguards : list safeguard) :
  compute_maturity answers safeguards =
  by_control ← group_safeguards [] safeguards;
  Ok (scored answers by_control [], average_value (levels answers by_control)).
Proof.
  unfold compute_maturity. destruct (group_safeguards [] safeguards) as [d | e]; cbn;
    [| reflexivity].
  rewrite maturity_loop_ok. cbn. now rewrite average_ok.
Qed.

Lemma scored_get (answers : gmap string string) (items : list (Z * bucket))
    (maturity : dict control_maturity) (c : Z) :
  NoDup (dict_keys items) ->
  dict_get c (scored answers items maturity) =
  match dict_get c items with
  | Some b => Some (entry_of answers b)
  | None => dict_get c maturity
  end.
Proof.
  unfold scored, dict_keys. revert maturity.
  induction items as [| [k b] items IH]; intros maturity Hnd; cbn; [reflexivity |].
  apply NoDup_cons in Hnd as [Hk Hnd]. rewrite IH by assumption.
  destruct (Z.eqb_spec c k) as [-> | Hne].
  - assert (dict_get k items = None) as ->.
    { apply dict_get_None. now rewrite <- list_elem_of_In. }
    apply dict_get_set_eq.
  - destruct (dict_get c items); [reflexivity |].
    apply dict_get_set_ne. congruence.
Qed.

Lemma scored_NoDup (answers : gmap string string) (items : list (Z * bucket))
    (maturity : dict control_maturity) :
  NoDup (dict_keys maturity) -> NoDup (dict_keys (scored answers items maturity)).
Proof.
  unfold scored. revert maturity.
  induction items as [| [k b] items IH]; intros maturity Hnd; cbn; [assumption |].
  apply IH. now apply dict_set_NoDup.
Qed.

(** ** Sums, means and bounds *)

Lemma py_sum_from (xs : list Q) (a : Q) :
  (fold_left Qplus xs a == a + fold_right Qplus 0 xs)%Q.
Proof.
  revert a. induction xs as [| x xs IH]; intros a; cbn.
  - now rewrite Qplus_0_r.
  - rewrite IH. now rewrite Qplus_assoc.
Qed.

Lemma py_sum_fold_right (xs : list Q) : (py_sum xs == fold_right Qplus 0 xs)%Q.
Proof. unfold py_sum. rewrite py_sum_from. apply Qplus_0_l. Qed.

Lemma score_answer_spec (o : option string) :
  score_answer (default "Não implementado" o) = spec_score o.
Proof.
  unfold spec_score, score_answer. destruct o as [a |]; unfold default, from_option, Datatypes.id.
  - destruct (String.eqb_spec a "Implementado") as [-> | H1].
    { now rewrite decide_True. }
    rewrite decide_False by congruence.
    destruct (String.eqb_spec a "Parcial") as [-> | H2].
    { now rewrite decide_True. }
    rewrite decide_False by congruence.
    destruct (String.eqb_spec a "Não se aplica") as [-> | H3].
    { now rewrite decide_True. }
    now rewrite decide_False by congruence.
  - now rewrite !decide_False by discriminate.
Qed.

Lemma score_answer_bounds (a : string) : in_unit_interval (score_answer a).
Proof.
  unfold score_answer, in_unit_interval.
  repeat match goal with
         | |- context [if ?c then _ else _] => destruct c
         end; unfold Qle; cbn; lia.
Qed.

Lemma sum_bounds (xs : list Q) :
  Forall in_unit_interval xs ->
  (0 <= fold_right Qplus 0 xs /\ fold_right Qplus 0 xs <= py_len xs)%Q.
Proof.
  unfold py_len. induction 1 as [| x xs [Hx0 Hx1] _ [IH0 IH1]].
  - cbn. split; apply Qle_refl.
  - cbn [fold_right length]. rewrite Nat2Z.inj_succ, <- Z.add_1_l, inject_Z_plus.
    split.
    + exact (Qplus_le_compat 0 x 0 _ Hx0 IH0).
    + now apply Qplus_le_compat.
Qed.

Lemma py_len_pos {A} (x : A) (xs : list A) : (0 < py_len (x :: xs))%Q.
Proof. unfold py_len, Qlt. cbn. lia. Qed.

Lemma mean_bounds (xs : list Q) :
  xs <> [] -> Forall in_unit_interval xs ->
  in_unit_interval (py_sum xs / py_len xs).
Proof.
  intros Hne Hall. destruct (sum_bounds _ Hall) as [H0 H1].
  destruct xs as [| x xs]; [congruence |].
  unfold in_unit_interval. rewrite py_sum_fold_right. split.
  - apply Qle_shift_div_l; [apply py_len_pos |]. now rewrite Qmult_0_l.
  - apply Qle_shift_div_r; [apply py_len_pos |]. now rewrite Qmult_1_l.
Qed.

Lemma percent_value_bounds (answers : gmap string string) (ids : list string) :
  in_unit_interval (percent_value answers ids).
Proof.
  destruct ids as [| sid ids]; unfold percent_value.
  - unfold in_unit_interval, Qle. cbn. lia.
  - apply mean_bounds; [discriminate |]. apply List.Forall_forall.
    intros q [sid' [<- _]]%in_map_iff. apply score_answer_bounds.
Qed.

Lemma percent_value_mean (answers : gmap string string) (ids : list string) :
  is_bucket_mean answers ids (percent_value answers ids).
Proof.
  split; [now intros -> |]. intros Hne. destruct ids as [| sid ids]; [congruence |].
  unfold percent_value, arithmetic_mean, py_len.
  rewrite py_sum_fold_right.
  assert (map (fun sid => score_answer (default "Não implementado" (answers !! sid)))
              (sid :: ids) =
          map (fun sid => spec_score (answers !! sid)) (sid :: ids)) as ->.
  { apply map_ext. intros a. apply score_answer_spec. }
  reflexivity.
Qed.

Lemma cmmi_level_range (p1 p2 p3 : Q) :
  let l := cmmi_level_from_igs p1 p2 p3 in
  (l = 1 \/ l = 2 \/ l = 3 \/ l = 4 \/ l = 5)%Z.
Proof. unfold cmmi_level_from_igs. split_cmp; tauto. Qed.

Lemma entry_of_bounds (answers : gmap string string) (b : bucket) :
  entry_in_bounds (entry_of answers b).
Proof.
  unfold entry_in_bounds, entry_of. cbn.
  repeat split; try apply percent_value_bounds. apply cmmi_level_range.
Qed.

Lemma dict_set_Forall {V} (P : Z * V -> Prop) (d : dict V) (k : Z) (v : V) :
  Forall P d -> P (k, v) -> Forall P (dict_set k v d).
Proof.
  intros Hd Hv. induction Hd as [| [k' v'] d Hx Hd IH]; cbn.
  - now constructor.
  - destruct (Z.eqb k k'); constructor; auto.
Qed.

Lemma scored_Forall (P : Z * control_maturity -> Prop) (answers : gmap string string)
    (items : list (Z * bucket)) (maturity : dict control_maturity) :
  (forall c b, P (c, entry_of answers b)) ->
  Forall P maturity -> Forall P (scored answers items maturity).
Proof.
  intros HP. unfold scored. revert maturity.
  induction items as [| [k b] items IH]; intros maturity Hm; cbn; [assumption |].
  apply IH. now apply dict_set_Forall.
Qed.

Lemma scored_keys (answers : gmap string string) (items : list (Z * bucket)) (c : Z) :
  NoDup (dict_keys items) ->
  In c (dict_keys (scored answers items [])) <-> In c (dict_keys items).
Proof.
  intros Hnd. rewrite <- !dict_get_is_Some, scored_get by assumption.
  destruct (dict_get c items); cbn; split; intros [? ?]; eauto; discriminate.
Qed.

Lemma valid_igs_check (safeguards : list safeguard) :
  valid_igs safeguards = true -> Forall valid_ig safeguards.
Proof.
  unfold valid_igs. rewrite forallb_forall, List.Forall_forall.
  intros H s Hs. specialize (H s Hs). unfold valid_ig.
  rewrite !orb_true_iff, !String.eqb_eq in H. tauto.
Qed.

(** ** The claims about scoring *)

(** C2. Each per-(control, implementation group) percentage computed by
    [compute_maturity] is the arithmetic mean of the scores of the member
    safeguards, where Implementado scores 1.0, Parcial 0.5, Não se aplica 1.0
    and Não implementado, a missing answer or any other value 0.0; the
    percentage of an empty bucket is 0.0.  The computation never divides by
    zero, returns a result whenever every [ig] field is IG1, IG2 or IG3, and
    the result has one entry per control of the catalogue. *)
Theorem C2_percentages_are_bucket_means
    (answers : gmap string string) (safeguards : list safeguard) :
  (score_answer "Implementado" = 1%Q /\ score_answer "Parcial" = 0.5%Q /\
   score_answer "Não se aplica" = 1%Q /\ score_answer "Não implementado" = 0%Q /\
   forall a, a <> "Implementado" -> a <> "Parcial" -> a <> "Não se aplica" ->
             score_answer a = 0%Q) /\
  compute_maturity answers safeguards <> Raise ZeroDivisionError /\
  (Forall valid_ig safeguards ->
   exists maturity avg, compute_maturity answers safeguards = Ok (maturity, avg)) /\
  (forall maturity avg,
     compute_maturity answers safeguards = Ok (maturity, avg) ->
     (forall c, In c (dict_keys maturity) <-> In c (map control safeguards)) /\
     (forall c e, dict_get c maturity = Some e ->
        is_bucket_mean answers (members safeguards c "IG1") (ig1 e) /\
        is_bucket_mean answers (members safeguards c "IG2") (ig2 e) /\
        is_bucket_mean answers (members safeguards c "IG3") (ig3 e))).
Proof.
  rewrite compute_maturity_unfold. repeat apply conj.
  - reflexivity.
  - reflexivity.
  - reflexivity.
  - reflexivity.
  - intros a H1 H2 H3. unfold score_answer.
    apply String.eqb_neq in H1, H2, H3. now rewrite H1, H2, H3.
  - pose proof (group_safeguards_no_zero_division safeguards []) as Hz.
    destruct (group_safeguards [] safeguards); cbn; congruence.
  - intros Hall. destruct (group_safeguards_valid safeguards [] Hall) as [d ->].
    cbn. eauto.
  - intros maturity avg Hrun.
    destruct (group_safeguards [] safeguards) as [d |] eqn:Hgroup; [| discriminate].
    cbn in Hrun. injection Hrun as <- <-.
    destruct (group_safeguards_grouped _ [] _ _ grouped_nil Hgroup)
      as (Hnd & Hkeys & Hget).
    cbn [app] in *. split.
    + intros c. now rewrite scored_keys, Hkeys.
    + intros c e. rewrite scored_get by assumption. cbn [dict_get].
      destruct (dict_get c d) as [b |] eqn:Hb; [| discriminate].
      intros [= <-]. destruct (Hget c b Hb) as (<- & <- & <-).
      cbn. repeat split; apply percent_value_mean.
Qed.

Lemma C2_witness :
  Forall valid_ig FALLBACK /\
  exists maturity avg, compute_maturity example_answers FALLBACK = Ok (maturity, avg).
Proof.
  assert (Forall valid_ig FALLBACK) as Hvalid
    by (apply valid_igs_check; vm_compute; reflexivity).
  split; [exact Hvalid |].
  exact (proj1 (proj2 (proj2
    (C2_percentages_are_bucket_means example_answers FALLBACK))) Hvalid).
Defined.

(** C7. When every [ig] field is IG1, IG2 or IG3, [compute_maturity] returns
    a maturity map all of whose entries have 0 <= ig1 <= 1, 0 <= ig2 <= 1,
    0 <= ig3 <= 1 and a level among 1, 2, 3, 4, 5. *)
Theorem C7_entries_in_bounds
    (answers : gmap string string) (safeguards : list safeguard) :
  Forall valid_ig safeguards ->
  exists maturity avg,
    compute_maturity answers safeguards = Ok (maturity, avg) /\
    Forall (fun ce => entry_in_bounds (snd ce)) maturity.
Proof.
  intros Hall. rewrite compute_maturity_unfold.
  destruct (group_safeguards_valid safeguards [] Hall) as [d ->]. cbn.
  do 2 eexists. split; [reflexivity |].
  apply scored_Forall; [| constructor].
  intros c b. apply entry_of_bounds.
Qed.

Lemma C7_witness :
  Forall valid_ig FALLBACK /\
  exists maturity avg,
    compute_maturity example_answers FALLBACK = Ok (maturity, avg) /\
    Forall (fun ce => entry_in_bounds (snd ce)) maturity.
Proof.
  assert (Forall valid_ig FALLBACK) as Hvalid
    by (apply valid_igs_check; vm_compute; reflexivity).
  split; [exact Hvalid |].
  exact (C7_entries_in_bounds example_answers FALLBACK Hvalid).
Defined.

(** C10. With an empty safeguard list [compute_maturity] returns, for every
    answers map and without raising, the empty maturity map and the average
    0.0, which is not a level between 1 and 5. *)
Theorem C10_empty_catalogue (answers : gmap string string) :
  compute_maturity answers [] = Ok ([], 0%Q) /\
  ~ (1 <= 0 /\ 0 <= 5)%Q.
Proof.
  split; [reflexivity |]. unfold Qle. cbn. lia.
Qed.

(** ** Text: bytes, reversal, stripping *)

Lemma byte_is_out (n : N) (c : ascii) : N_of_ascii c <> n -> byte_is n c = false.
Proof. intros H. unfold byte_is. now apply N.eqb_neq. Qed.

Lemma byte_in_out (lo hi : N) (c : ascii) :
  (N_of_ascii c < lo \/ hi < N_of_ascii c)%N -> byte_in lo hi c = false.
Proof.
  intros H. unfold byte_in. apply andb_false_iff.
  rewrite !N.leb_gt. tauto.
Qed.

Lemma byte_in_spec (lo hi : N) (c : ascii) :
  byte_in lo hi c = true <-> (lo <= N_of_ascii c /\ N_of_ascii c <= hi)%N.
Proof. unfold byte_in. now rewrite andb_true_iff, !N.leb_le. Qed.

Lemma byte_is_spec (n : N) (c : ascii) : byte_is n c = true <-> N_of_ascii c = n.
Proof. apply N.eqb_eq. Qed.

Lemma is_hex_range (c : ascii) :
  is_hex c = true ->
  (48 <= N_of_ascii c <= 57 \/ 97 <= N_of_ascii c <= 102 \/ 65 <= N_of_ascii c <= 70)%N.
Proof. unfold is_hex. rewrite !orb_true_iff, !byte_in_spec. tauto. Qed.

Lemma token_range (c : ascii) :
  token c = true -> (48 <= N_of_ascii c <= 120)%N.
Proof.
  unfold token. rewrite !orb_true_iff, !byte_is_spec.
  intros [[H%is_hex_range | H] | H]; lia.
Qed.

Lemma is_hex_token (c : ascii) : is_hex c = true -> token c = true.
Proof. unfold token. now intros ->. Qed.

Lemma token_not_space (c : ascii) : token c = true -> ascii_space c = false.
Proof.
  intros H%token_range. unfold ascii_space.
  now rewrite !byte_in_out, byte_is_out by lia.
Qed.

Lemma token_not_quote (c : ascii) : token c = true -> is_quote c = false.
Proof.
  intros H%token_range. unfold is_quote. now rewrite !byte_is_out by lia.
Qed.

Lemma token_space2 (c c' : ascii) :
  token c = true -> space2 c c' = false /\ space2 c' c = false.
Proof.
  intros H%token_range. unfold space2.
  rewrite (byte_is_out 194 c), (byte_is_out 133 c), (byte_is_out 160 c) by lia.
  now rewrite andb_false_r.
Qed.

Lemma token_space3 (c c' c'' : ascii) :
  token c = true -> space3 c c' c'' = false /\ space3 c'' c' c = false.
Proof.
  intros H%token_range. unfold space3.
  rewrite (byte_is_out 225 c), (byte_is_out 226 c), (byte_is_out 227 c),
    (byte_is_out 128 c), (byte_is_out 168 c), (byte_is_out 169 c),
    (byte_is_out 175 c), (byte_is_out 159 c), (byte_in_out 128 138 c) by lia.
  now rewrite !andb_false_r.
Qed.

Lemma token_ascii (c : ascii) : token c = true -> byte_in 0 127 c = true.
Proof. intros H%token_range. apply byte_in_spec. lia. Qed.

Lemma token_neq (c : ascii) (n : N) :
  token c = true -> (n < 48)%N -> Ascii.eqb c (ascii_of_N n) = false.
Proof.
  intros H%token_range Hn. apply Ascii.eqb_neq. intros ->.
  rewrite N_ascii_embedding in H by lia. lia.
Qed.

Lemma str_rev_involutive (s : string) : str_rev (str_rev s) = s.
Proof.
  unfold str_rev. rewrite list_ascii_of_string_of_list_ascii, rev_involutive.
  apply string_of_list_ascii_of_string.
Qed.

Lemma str_forall_rev (p : ascii -> bool) (s : string) :
  str_forall p (str_rev s) = str_forall p s.
Proof.
  unfold str_forall, str_rev. rewrite list_ascii_of_string_of_list_ascii.
  apply eq_true_iff_eq. rewrite !forallb_forall.
  split; intros H c Hc; apply H; [now apply -> in_rev | now apply in_rev].
Qed.

Lemma str_forall_cons (p : ascii -> bool) (c : ascii) (s : string) :
  str_forall p (String c s) = p c && str_forall p s.
Proof. reflexivity. Qed.

Lemma str_forall_app (p : ascii -> bool) (s t : string) :
  str_forall p (s ++ t) = str_forall p s && str_forall p t.
Proof.
  induction s as [| c s IH]; [reflexivity |].
  change (String c s ++ t) with (String c (s ++ t)).
  rewrite !str_forall_cons, IH. apply andb_assoc.
Qed.

Lemma str_forall_impl (p q : ascii -> bool) (s : string) :
  (forall c, p c = true -> q c = true) -> str_forall p s = true -> str_forall q s = true.
Proof.
  intros Hpq. unfold str_forall. rewrite !forallb_forall. auto.
Qed.

Lemma str_lstrip_token (s : string) : str_forall token s = true -> str_lstrip s = s.
Proof.
  destruct s as [| c1 [| c2 [| c3 s]]]; [reflexivity | | |];
    rewrite str_forall_cons, andb_true_iff; intros [H1 _]; cbn [str_lstrip];
    rewrite (token_not_space c1 H1); try reflexivity;
    rewrite (proj1 (token_space2 c1 c2 H1)); try reflexivity.
  now rewrite (proj1 (token_space3 c1 c2 c3 H1)).
Qed.

Lemma str_lstrip_rev_token (s : string) : str_forall token s = true -> str_lstrip_rev s = s.
Proof.
  destruct s as [| c1 [| c2 [| c3 s]]]; [reflexivity | | |];
    rewrite str_forall_cons, andb_true_iff; intros [H1 _]; cbn [str_lstrip_rev];
    rewrite (token_not_space c1 H1); try reflexivity;
    rewrite (proj2 (token_space2 c1 c2 H1)); try reflexivity.
  now rewrite (proj2 (token_space3 c1 c2 c3 H1)).
Qed.

Lemma str_strip_token (s : string) : str_forall token s = true -> str_strip s = s.
Proof.
  intros H. unfold str_strip. rewrite str_lstrip_token by assumption.
  rewrite str_lstrip_rev_token by now rewrite str_forall_rev.
  apply str_rev_involutive.
Qed.

Lemma str_remove_token (n : N) (s : string) :
  (n < 48)%N -> str_forall token s = true -> str_remove (ascii_of_N n) s = s.
Proof.
  intros Hn. induction s as [| c s IH]; [reflexivity |].
  rewrite str_forall_cons, andb_true_iff. intros [Hc Hs]. cbn [str_remove].
  now rewrite (token_neq c n Hc Hn), IH.
Qed.

Lemma str_lstrip_chars_token (s : string) :
  str_forall token s = true -> str_lstrip_chars is_quote s = s.
Proof.
  destruct s as [| c s]; [reflexivity |].
  rewrite str_forall_cons, andb_true_iff. intros [Hc _]. cbn.
  now rewrite (token_not_quote c Hc).
Qed.

Lemma str_strip_chars_token (s : string) :
  str_forall token s = true -> str_strip_chars is_quote s = s.
Proof.
  intros H. unfold str_strip_chars. rewrite (str_lstrip_chars_token s) by assumption.
  rewrite str_lstrip_chars_token by now rewrite str_forall_rev.
  apply str_rev_involutive.
Qed.

Lemma re_fullmatch_class_spec (cls : ascii -> bool) (n : nat) (s : string) :
  re_fullmatch_class cls n s = true <-> String.length s = n /\ str_forall cls s = true.
Proof.
  revert s. induction n as [| n IH]; intros [| c s]; cbn [re_fullmatch_class String.length].
  - tauto.
  - split; [discriminate | intros [? _]; discriminate].
  - split; [discriminate | intros [? _]; discriminate].
  - rewrite str_forall_cons, !andb_true_iff, IH. split.
    + intros [? [? ?]]. auto.
    + intros [[= ?] [? ?]]. auto.
Qed.

Lemma str_lower_length (s : string) : String.length (str_lower s) = String.length s.
Proof. induction s as [| c s IH]; cbn; congruence. Qed.

Lemma ascii_lower_hex (c : ascii) : is_hex c = true -> is_lower_hex (ascii_lower c) = true.
Proof.
  intros H%is_hex_range. unfold ascii_lower, is_lower_hex.
  destruct (byte_in 65 90 c) eqn:E.
  - apply byte_in_spec in E. rewrite orb_true_iff, !byte_in_spec.
    rewrite N_ascii_embedding by lia. lia.
  - rewrite orb_true_iff, !byte_in_spec.
    assert (~ (65 <= N_of_ascii c /\ N_of_ascii c <= 90)%N) as Hn
      by (intros Hn%byte_in_spec; congruence).
    lia.
Qed.

Lemma str_lower_hex (s : string) :
  str_forall is_hex s = true -> str_forall is_lower_hex (str_lower s) = true.
Proof.
  induction s as [| c s IH]; [reflexivity |]. cbn [str_lower].
  rewrite !str_forall_cons, !andb_true_iff. intros [Hc Hs].
  split; [now apply ascii_lower_hex | auto].
Qed.

Lemma normalize_hash_content (nfkc : string -> string) (h : string) :
  normalize_hash nfkc h =
  if String.eqb h "" then None
  else if re_fullmatch_class is_hex 64 (hash_content nfkc h)
       then Some ("0x" ++ str_lower (hash_content nfkc h))
       else None.
Proof. reflexivity. Qed.

Lemma hex_not_x (c : ascii) : is_hex c = true -> Ascii.eqb "x" c = false /\ Ascii.eqb "X" c = false.
Proof.
  intros H%is_hex_range.
  split; apply Ascii.eqb_neq; intros <-; cbn in H; lia.
Qed.

Lemma str_startswith2 (a b : ascii) (s : string) :
  str_startswith (String a (String b "")) s =
  match s with
  | String c1 (String c2 _) => Ascii.eqb a c1 && Ascii.eqb b c2
  | _ => false
  end.
Proof.
  destruct s as [| c1 [| c2 s]]; cbn [str_startswith]; try reflexivity.
  - apply andb_false_r.
  - now rewrite andb_true_r.
Qed.

Lemma hex_no_prefix (body : string) :
  str_forall is_hex body = true ->
  str_startswith "0x" body || str_startswith "0X" body = false.
Proof.
  rewrite !str_startswith2. destruct body as [| c1 [| c2 body]]; try reflexivity.
  rewrite !str_forall_cons, !andb_true_iff. intros (_ & H2 & _).
  destruct (hex_not_x c2 H2) as [-> ->]. now rewrite !andb_false_r.
Qed.

Lemma nfkc_fragment_ascii (s : string) : ascii_only s = true -> nfkc_fragment s = s.
Proof.
  unfold ascii_only. induction s as [| c1 s1 IH]; [reflexivity |].
  rewrite str_forall_cons, andb_true_iff. intros [H1 Hs].
  apply byte_in_spec in H1. specialize (IH Hs). cbn [nfkc_fragment].
  destruct s1 as [| c2 [| c3 s3]]; [reflexivity | |];
    rewrite (byte_is_out 194 c1) by lia; cbn [andb]; [congruence |].
  rewrite (byte_is_out 239 c1), (byte_is_out 227 c1) by lia. cbn [andb]. congruence.
Qed.

Lemma str_length_app (s t : string) :
  String.length (s ++ t) = (String.length s + String.length t)%nat.
Proof.
  induction s as [| c s IH]; [reflexivity |].
  change (String c s ++ t) with (String c (s ++ t)). cbn [String.length]. now rewrite IH.
Qed.

(** ** Hash normalisation on digits, bare or prefixed *)

Section normalize_hash_facts.

Variable nfkc : string -> string.
Hypothesis nfkc_ascii : forall s, ascii_only s = true -> nfkc s = s.

Lemma clean_token (s : string) :
  str_forall token s = true ->
  str_strip_chars is_quote
    (str_remove "013" (str_remove "010" (str_remove " " (str_strip (nfkc s))))) = s.
Proof.
  intros H. rewrite nfkc_ascii
    by (unfold ascii_only; eapply str_forall_impl; [apply token_ascii | exact H]).
  rewrite str_strip_token by assumption.
  rewrite (str_remove_token 32), (str_remove_token 10), (str_remove_token 13)
    by (assumption || reflexivity).
  now apply str_strip_chars_token.
Qed.

Lemma hash_content_hex (body : string) :
  str_forall is_hex body = true ->
  hash_content nfkc body = body /\
  hash_content nfkc ("0x" ++ body) = body /\
  hash_content nfkc ("0X" ++ body) = body.
Proof.
  intros H.
  assert (str_forall token body = true) as Ht
    by (eapply str_forall_impl; [apply is_hex_token | exact H]).
  unfold hash_content. repeat split.
  - rewrite clean_token by assumption. now rewrite hex_no_prefix.
  - rewrite clean_token by (rewrite str_forall_app, Ht; reflexivity). reflexivity.
  - rewrite clean_token by (rewrite str_forall_app, Ht; reflexivity). reflexivity.
Qed.

Lemma normalize_hash_Some (h r : string) :
  normalize_hash nfkc h = Some r <->
  h <> "" /\ hex64 (hash_content nfkc h) /\ r = "0x" ++ str_lower (hash_content nfkc h).
Proof.
  rewrite normalize_hash_content. unfold hex64.
  destruct (String.eqb_spec h "") as [-> | Hne].
  - split; [discriminate | tauto].
  - destruct (re_fullmatch_class is_hex 64 (hash_content nfkc h)) eqn:E.
    + apply re_fullmatch_class_spec in E. split; [intros [= <-]; auto |].
      now intros (_ & _ & ->).
    + split; [discriminate |]. intros (_ & E' & _).
      apply re_fullmatch_class_spec in E'. congruence.
Qed.

End normalize_hash_facts.

(** ** Fingerprints *)

Lemma hex_char_lower (n : N) : (n < 16)%N -> is_lower_hex (hex_char n) = true.
Proof.
  intros Hn. unfold hex_char, is_lower_hex.
  rewrite orb_true_iff, !byte_in_spec.
  destruct (N.ltb_spec n 10); rewrite N_ascii_embedding by lia; lia.
Qed.

Lemma hexdigest_length (bs : list byte) :
  String.length (hexdigest bs) = (2 * length bs)%nat.
Proof. induction bs as [| b bs IH]; cbn [hexdigest String.length length]; lia. Qed.

Lemma hexdigest_lower (bs : list byte) : str_forall is_lower_hex (hexdigest bs) = true.
Proof.
  induction bs as [| b bs IH]; [reflexivity |].
  cbn [hexdigest]. rewrite !str_forall_cons, IH.
  pose proof (Byte.to_N_bounded b).
  rewrite !hex_char_lower; [reflexivity | |].
  - apply N.mod_lt. lia.
  - apply N.Div0.div_lt_upper_bound. lia.
Qed.

Lemma sha256_digest_length (data : list byte) : length (SHA256.digest data) = 32%nat.
Proof.
  unfold SHA256.digest. rewrite length_map.
  destruct (fold_left _ _ _) as [[[[[[[a b] c] d] e] f] g] h]. reflexivity.
Qed.

Lemma keccak_digest_length (data : list byte) : length (Keccak.digest data) = 32%nat.
Proof. unfold Keccak.digest. rewrite length_map. reflexivity. Qed.

Lemma fingerprint_shape (digest : list byte) :
  length digest = 32%nat -> lower_hex64 (hexdigest digest).
Proof.
  intros H. split; [rewrite hexdigest_length; lia | apply hexdigest_lower].
Qed.

(** The models agree with the published test vectors of the two functions,
    on the empty message, on a short one and on one longer than a block. *)
Example sha256_hex_vectors :
  sha256_hex (encode_utf8 "") =
    "0xe3b0c44298fc1c149afbf4c8996fb92427ae41e4649b934ca495991b7852b855" /\
  sha256_hex (encode_utf8 "abc") =
    "0xba7816bf8f01cfea414140de5dae2223b00361a396177a9cb410ff61f20015ad" /\
  sha256_hex (repeat "a"%byte 200) =
    "0xc2a908d98f5df987ade41b5fce213067efbcc21ef2240212a41e54b5e7c28ae5".
Proof. repeat split; vm_compute; reflexivity. Qed.

Example keccak256_hex_vectors :
  keccak256_hex (encode_utf8 "") =
    "c5d2460186f7233c927e7db2dcc703c0e500b653ca82273b7bfad8045d85a470" /\
  keccak256_hex (encode_utf8 "abc") =
    "4e03657aea45a94fc7d47ba826c8d667c0d1e6e33a64a036ec44f58fa12d6c45" /\
  keccak256_hex (repeat "a"%byte 200) =
    "96ea54061def936c4be90b518992fdc6f12f535068a256229aca54267b4d084d".
Proof. repeat split; vm_compute; reflexivity. Qed.

(** C9. For every byte string, [sha256_hex] returns the prefix 0x followed
    by exactly 64 lower-case hexadecimal characters, the encoding of a digest
    of 32 bytes.  [keccak256_hex] returns the 64 lower-case hexadecimal
    characters of its digest of 32 bytes and no prefix before them, against
    its docstring: its result is not a fingerprint string, and on the
    message abc it is 4e03...6c45. *)
Theorem C9_fingerprint_format (d : list byte) :
  (length (SHA256.digest d) = 32%nat /\
   fingerprint (sha256_hex d) /\
   sha256_hex d = "0x" ++ hexdigest (SHA256.digest d)) /\
  (length (Keccak.digest d) = 32%nat /\
   lower_hex64 (keccak256_hex d) /\
   keccak256_hex d = hexdigest (Keccak.digest d) /\
   str_startswith "0x" (keccak256_hex d) = false /\
   ~ fingerprint (keccak256_hex d)) /\
  keccak256_hex (encode_utf8 "abc") =
    "4e03657aea45a94fc7d47ba826c8d667c0d1e6e33a64a036ec44f58fa12d6c45".
Proof.
  pose proof (fingerprint_shape _ (sha256_digest_length d)) as [Hs1 Hs2].
  pose proof (fingerprint_shape _ (keccak_digest_length d)) as [Hk1 Hk2].
  assert (str_startswith "0x" (keccak256_hex d) = false) as Hno.
  { pose proof (hex_no_prefix (hexdigest (Keccak.digest d))) as H.
    unfold keccak256_hex, hexbytes_hex. apply orb_false_elim in H as [H _]; [exact H |].
    eapply str_forall_impl; [| exact Hk2]. intros c Hc. unfold is_lower_hex in Hc.
    unfold is_hex. rewrite Hc. reflexivity. }
  split; [| split].
  - split; [apply sha256_digest_length | split; [| reflexivity]].
    exists (hexdigest (SHA256.digest d)). auto.
  - split; [apply keccak_digest_length | split; [split; assumption |]].
    split; [reflexivity | split; [exact Hno |]].
    intros (body & Heq & _). rewrite Heq in Hno. discriminate.
  - vm_compute. reflexivity.
Qed.

(** ** Sorting the items of a dictionary *)

Lemma str_ltb_lt (s t : string) :
  String.ltb s t = true <-> OrderedTypeEx.String_as_OT.lt s t.
Proof.
  unfold String.ltb. rewrite <- OrderedTypeEx.String_as_OT.cmp_lt.
  unfold OrderedTypeEx.String_as_OT.cmp.
  destruct (String.compare s t); split; congruence.
Qed.

Lemma str_ltb_trans (s t u : string) :
  String.ltb s t = true -> String.ltb t u = true -> String.ltb s u = true.
Proof. rewrite !str_ltb_lt. apply OrderedTypeEx.String_as_OT.lt_trans. Qed.

Lemma str_ltb_irrefl (s : string) : String.ltb s s = false.
Proof.
  apply not_true_iff_false. rewrite str_ltb_lt.
  intros H. apply OrderedTypeEx.String_as_OT.lt_not_eq in H. now apply H.
Qed.

Lemma str_ltb_total (s t : string) :
  s <> t -> String.ltb s t = true \/ String.ltb t s = true.
Proof.
  intros Hne. unfold String.ltb. rewrite (String.compare_antisym t s).
  destruct (String.compare s t) eqn:E; cbn; auto.
  apply String.compare_eq_iff in E. contradiction.
Qed.

Lemma key_ltb_trans (a b c : json_key) :
  key_ltb a b = true -> key_ltb b c = true -> key_ltb a c = true.
Proof.
  destruct a, b, c; cbn; try congruence.
  - apply str_ltb_trans.
  - rewrite !Z.ltb_lt. lia.
Qed.

Lemma key_ltb_irrefl (a : json_key) : key_ltb a a = false.
Proof. destruct a; cbn; [apply str_ltb_irrefl | apply Z.ltb_irrefl]. Qed.

Lemma key_ltb_asym (a b : json_key) : key_ltb a b = true -> key_ltb b a = false.
Proof.
  intros H. destruct (key_ltb b a) eqn:E; [| reflexivity].
  pose proof (key_ltb_trans a b a H E) as H'. now rewrite key_ltb_irrefl in H'.
Qed.

Lemma key_ltb_total (a b : json_key) :
  a <> b -> key_ltb a b = true \/ key_ltb b a = true.
Proof.
  destruct a as [s | x], b as [t | y]; cbn; intros Hne; auto.
  - apply str_ltb_total. congruence.
  - rewrite !Z.ltb_lt. assert (x <> y) by congruence. lia.
Qed.

Lemma insert_pure_comm {V} (x y : json_key * V) (l : list (json_key * V)) :
  fst x <> fst y ->
  insert_pure x (insert_pure y l) = insert_pure y (insert_pure x l).
Proof.
  intros Hne. induction l as [| z l IH]; cbn [insert_pure].
  - destruct (key_ltb_total _ _ Hne) as [H | H]; rewrite H;
      now rewrite (key_ltb_asym _ _ H).
  - destruct (key_ltb (fst y) (fst z)) eqn:Hy, (key_ltb (fst x) (fst z)) eqn:Hx;
      cbn [insert_pure]; rewrite ?Hx, ?Hy.
    + destruct (key_ltb_total _ _ Hne) as [H | H]; rewrite H;
        now rewrite (key_ltb_asym _ _ H); cbn [insert_pure]; rewrite ?Hx, ?Hy.
    + destruct (key_ltb (fst x) (fst y)) eqn:Hxy; [| reflexivity].
      now rewrite (key_ltb_trans _ _ _ Hxy Hy) in Hx.
    + destruct (key_ltb (fst y) (fst x)) eqn:Hyx; [| reflexivity].
      now rewrite (key_ltb_trans _ _ _ Hyx Hx) in Hy.
    + now rewrite IH.
Qed.

Lemma insert_pure_perm {V} (x : json_key * V) (l : list (json_key * V)) :
  Permutation (x :: l) (insert_pure x l).
Proof.
  induction l as [| y l IH]; cbn [insert_pure]; [reflexivity |].
  destruct (key_ltb (fst x) (fst y)); [reflexivity |].
  rewrite perm_swap. now apply perm_skip.
Qed.

Lemma isort_perm {V} (l : list (json_key * V)) : Permutation l (isort l).
Proof.
  induction l as [| x l IH]; cbn [isort]; [reflexivity |].
  rewrite <- insert_pure_perm. now apply perm_skip.
Qed.

Lemma isort_permutation {V} (l l' : list (json_key * V)) :
  Permutation l l' -> NoDup (map fst l) -> isort l = isort l'.
Proof.
  induction 1 as [| x l l' Hp IH | x y l | l l' l'' Hp1 IH1 Hp2 IH2]; intros Hnd.
  - reflexivity.
  - cbn [isort]. rewrite IH; [reflexivity |]. now inversion Hnd.
  - cbn [isort]. apply insert_pure_comm. cbn in Hnd.
    inversion Hnd as [| ? ? Hnotin _]; subst. intros Heq. apply Hnotin.
    rewrite Heq. now left.
  - rewrite IH1 by assumption. apply IH2.
    now rewrite <- (Permutation_map fst Hp1).
Qed.

Lemma same_kind_refl (a : json_key) : same_kind a a = true.
Proof. now destruct a. Qed.

Lemma same_kind_sym (a b : json_key) : same_kind a b = same_kind b a.
Proof. now destruct a, b. Qed.

Lemma same_kind_trans (a b c : json_key) :
  same_kind a b = true -> same_kind b c = true -> same_kind a c = true.
Proof. now destruct a, b, c. Qed.

Lemma key_lt_kind (a b : json_key) :
  key_lt a b = if same_kind a b then Ok (key_ltb a b) else Raise TypeError.
Proof. now destruct a, b. Qed.

Lemma insert_item_same_kind {V} (x : json_key * V) (l : list (json_key * V)) :
  (forall y, In y l -> same_kind (fst x) (fst y) = true) ->
  insert_item x l = Ok (insert_pure x l).
Proof.
  induction l as [| y l IH]; intros Hall; [reflexivity |].
  cbn [insert_item insert_pure]. rewrite key_lt_kind, Hall by now left. cbn.
  destruct (key_ltb (fst x) (fst y)); [reflexivity |].
  rewrite IH; [reflexivity |]. intros z Hz. apply Hall. now right.
Qed.

Lemma insert_item_mixed {V} (x y : json_key * V) (l : list (json_key * V)) :
  same_kind (fst x) (fst y) = false -> insert_item x (y :: l) = Raise TypeError.
Proof. intros H. cbn [insert_item]. now rewrite key_lt_kind, H. Qed.

Lemma sorted_items_spec {V} (l : list (json_key * V)) :
  uniform l /\ sorted_items l = Ok (isort l) \/
  ~ uniform l /\ sorted_items l = Raise TypeError.
Proof.
  induction l as [| x l [[Hu Hs] | [Hu Hs]]]; cbn [sorted_items isort].
  - left. split; [intros a b [] | reflexivity].
  - rewrite Hs. cbn.
    destruct (forallb (fun y => same_kind (fst x) (fst y)) l) eqn:Hall.
    + left. rewrite forallb_forall in Hall. split.
      * intros a b [<- | Ha] [<- | Hb].
        -- apply same_kind_refl.
        -- now apply Hall.
        -- rewrite same_kind_sym. now apply Hall.
        -- now apply Hu.
      * apply insert_item_same_kind. intros y Hy. apply Hall.
        eapply Permutation_in; [symmetry; apply isort_perm | exact Hy].
    + right. apply not_true_iff_false in Hall. rewrite forallb_forall in Hall.
      assert (exists y, In y l /\ same_kind (fst x) (fst y) = false) as (y & Hy & Hxy).
      { clear -Hall. induction l as [| y l IH]; [exfalso; apply Hall; intros ? [] |].
        destruct (same_kind (fst x) (fst y)) eqn:E.
        - destruct IH as (z & Hz & Hxz).
          + intros Hl. apply Hall. intros z [<- | Hz]; auto.
          + exists z. split; [now right | assumption].
        - exists y. split; [now left | assumption]. }
      split.
      * intros Hux. specialize (Hux x y (or_introl eq_refl) (or_intror Hy)). congruence.
      * pose proof (isort_perm l) as Hp.
        destruct (isort l) as [| y' s] eqn:Hsort.
        { symmetry in Hp. apply Permutation_nil in Hp. subst l. destruct Hy. }
        apply insert_item_mixed.
        assert (In y' l) as Hy'
          by (eapply Permutation_in; [symmetry; exact Hp | now left]).
        destruct (same_kind (fst x) (fst y')) eqn:E; [| reflexivity].
        rewrite <- Hxy. symmetry. eapply same_kind_trans; [exact E |].
        now apply Hu.
  - rewrite Hs. cbn. right. split; [| reflexivity].
    intros Hux. apply Hu. intros a b Ha Hb. apply Hux; now right.
Qed.

Lemma uniform_perm {V} (l l' : list (json_key * V)) :
  Permutation l l' -> uniform l -> uniform l'.
Proof.
  intros Hp Hu a b Ha Hb.
  apply Hu; eapply Permutation_in; try (symmetry; exact Hp); assumption.
Qed.

Lemma sorted_items_permutation {V} (l l' : list (json_key * V)) :
  Permutation l l' -> NoDup (map fst l) -> sorted_items l = sorted_items l'.
Proof.
  intros Hp Hnd.
  destruct (sorted_items_spec l) as [[Hu ->] | [Hu ->]],
           (sorted_items_spec l') as [[Hu' ->] | [Hu' ->]].
  - f_equal. now apply isort_permutation.
  - exfalso. apply Hu'. now apply (uniform_perm l).
  - exfalso. apply Hu. apply (uniform_perm l'); [now symmetry | assumption].
  - reflexivity.
Qed.

(** ** Canonical serialisation does not depend on insertion order *)

Lemma json_nested_ind (P : json -> Prop) :
  P JNull -> (forall b, P (JBool b)) -> (forall n, P (JInt n)) ->
  (forall q, P (JFloat q)) -> (forall s, P (JStr s)) ->
  (forall elems, Forall P elems -> P (JList elems)) ->
  (forall items, Forall (fun kv => P (snd kv)) items -> P (JDict items)) ->
  forall v, P v.
Proof.
  intros Hnull Hbool Hint Hfloat Hstr Hlist Hdict.
  fix IH 1. intros [| b | n | q | s | elems | items].
  - exact Hnull.
  - apply Hbool.
  - apply Hint.
  - apply Hfloat.
  - apply Hstr.
  - apply Hlist. induction elems as [| x elems IHl]; constructor;
      [apply IH | exact IHl].
  - apply Hdict. induction items as [| kv items IHd]; constructor;
      [apply IH | exact IHd].
Qed.

Lemma key_eqb_eq (a b : json_key) : key_eqb a b = true <-> a = b.
Proof.
  destruct a, b; cbn; rewrite ?String.eqb_eq, ?Z.eqb_eq;
    split; congruence.
Qed.

Lemma item_get_In {V} (k : json_key) (d : list (json_key * V)) (v : V) :
  item_get k d = Some v -> In (k, v) d.
Proof.
  induction d as [| [k' v'] d IH]; cbn; [discriminate |].
  destruct (key_eqb k k') eqn:E.
  - apply key_eqb_eq in E. intros [= ->]. left. congruence.
  - auto.
Qed.

Lemma all_of_cons {A} (P : A -> Prop) (x : A) (l : list A) :
  all_of P (x :: l) <-> P x /\ all_of P l.
Proof. reflexivity. Qed.

Section dumps_facts.

Variable float_repr : Q -> string.

Lemma dumps_list_ext (xs ys : list json) :
  Forall (fun x => forall b, distinct_keys x -> same_content x b = true ->
                             dumps float_repr x = dumps float_repr b) xs ->
  all_of distinct_keys xs -> forall2b same_content xs ys = true ->
  map (dumps float_repr) xs = map (dumps float_repr) ys.
Proof.
  intros Hall. revert ys.
  induction Hall as [| x xs Hx _ IH]; intros [| y ys] Hdk Hsame;
    try discriminate; [reflexivity |].
  cbn in Hsame. apply andb_true_iff in Hsame as [Hxy Hrest].
  apply all_of_cons in Hdk as [Hdx Hdxs]. cbn [map]. f_equal; auto.
Qed.

Lemma dumps_items_perm (d1 d2 : list (json_key * json)) :
  Forall (fun kv => forall b, distinct_keys (snd kv) -> same_content (snd kv) b = true ->
                              dumps float_repr (snd kv) = dumps float_repr b) d1 ->
  NoDup (map fst d1) -> all_of (fun kv => distinct_keys (snd kv)) d1 ->
  length d1 = length d2 ->
  forallb (fun kv => match item_get (fst kv) d2 with
                     | Some v' => same_content (snd kv) v'
                     | None => false
                     end) d1 = true ->
  Permutation (map (fun kv => (fst kv, dumps float_repr (snd kv))) d1)
              (map (fun kv => (fst kv, dumps float_repr (snd kv))) d2).
Proof.
  intros Hall Hnd Hdk Hlen Hsame.
  apply NoDup_Permutation_bis.
  - apply NoDup_ListNoDup in Hnd.
    apply (NoDup_map_inv fst). now rewrite map_map.
  - rewrite !length_map. lia.
  - intros p Hp. apply in_map_iff in Hp as ([k v] & <- & Hin). cbn [fst snd].
    rewrite forallb_forall in Hsame. specialize (Hsame _ Hin). cbn [fst snd] in Hsame.
    destruct (item_get k d2) as [v' |] eqn:Hget; [| discriminate].
    apply item_get_In in Hget.
    rewrite List.Forall_forall in Hall. specialize (Hall _ Hin v'). cbn [snd] in Hall.
    rewrite Hall; [| | assumption].
    + apply in_map_iff. now exists (k, v').
    + clear -Hdk Hin. induction d1 as [| kv d1 IH]; [destruct Hin |].
      apply all_of_cons in Hdk as [H1 H2]. destruct Hin as [-> | Hin]; auto.
Qed.

Lemma same_content_dumps (a : json) :
  forall b, distinct_keys a -> same_content a b = true ->
            dumps float_repr a = dumps float_repr b.
Proof.
  induction a as [| x | x | x | x | xs IH | d1 IH] using json_nested_ind;
    intros [| y | y | y | y | ys | d2] Hdk Hsame; try discriminate; cbn in Hsame.
  - reflexivity.
  - apply Bool.eqb_prop in Hsame. now subst.
  - apply Z.eqb_eq in Hsame. now subst.
  - apply andb_true_iff in Hsame as [Hn Hd].
    apply Z.eqb_eq in Hn. apply Pos.eqb_eq in Hd.
    destruct x, y. cbn in *. now subst.
  - apply String.eqb_eq in Hsame. now subst.
  - cbn [dumps]. now rewrite (dumps_list_ext xs ys IH Hdk Hsame).
  - apply andb_true_iff in Hsame as [Hlen Hsame]. apply Nat.eqb_eq in Hlen.
    destruct Hdk as [Hnd Hdk]. cbn [dumps].
    rewrite (sorted_items_permutation _ _
               (dumps_items_perm d1 d2 IH Hnd Hdk Hlen Hsame)); [reflexivity |].
    now rewrite map_map.
Qed.

End dumps_facts.

Lemma no_repeat_NoDup (ks : list json_key) : no_repeat ks = true -> NoDup ks.
Proof.
  induction ks as [| k ks IH]; cbn; [constructor |].
  rewrite andb_true_iff, negb_true_iff. intros [Hk Hks].
  constructor; [| auto]. rewrite list_elem_of_In. intros Hin.
  apply not_true_iff_false in Hk. apply Hk. apply existsb_exists.
  exists k. split; [assumption | now apply key_eqb_eq].
Qed.

Lemma distinct_keysb_sound (v : json) : distinct_keysb v = true -> distinct_keys v.
Proof.
  induction v as [| x | x | x | x | xs IH | d IH] using json_nested_ind;
    cbn [distinct_keysb distinct_keys]; try tauto.
  - induction IH as [| x xs Hx _ IHxs]; cbn; [tauto |].
    rewrite andb_true_iff. intros [H1 H2]. split; [auto | exact (IHxs H2)].
  - rewrite andb_true_iff. intros [Hnd Hall].
    split; [now apply no_repeat_NoDup |]. clear Hnd.
    induction IH as [| kv d Hkv _ IHd]; cbn in *; [tauto |].
    apply andb_true_iff in Hall as [H1 H2]. split; [auto | exact (IHd H2)].
Qed.

(** C3. Two values with the same logical content (the same keys with the
    same values in every dictionary, whatever the order of insertion) have
    the same canonical serialisation: [json.dumps] with [sort_keys] returns
    the same text for both, or raises for both; hence the UTF-8 bytes are
    identical and so are the SHA-256 fingerprints. *)
Theorem C3_canonical_form_ignores_insertion_order
    (float_repr : Q -> string) (a b : json) :
  distinct_keys a -> same_content a b = true ->
  dumps float_repr a = dumps float_repr b /\
  canonical_bytes float_repr a = canonical_bytes float_repr b /\
  report_fingerprint float_repr a = report_fingerprint float_repr b /\
  (forall s t, dumps float_repr a = Ok s -> dumps float_repr b = Ok t ->
               encode_utf8 s = encode_utf8 t /\
               sha256_hex (encode_utf8 s) = sha256_hex (encode_utf8 t)).
Proof.
  intros Hdk Hsame.
  pose proof (same_content_dumps float_repr a b Hdk Hsame) as Heq.
  unfold canonical_bytes, report_fingerprint. rewrite Heq.
  split; [reflexivity | split; [reflexivity | split; [reflexivity |]]].
  intros s t Hs Ht. rewrite Hs in Ht. now injection Ht as ->.
Qed.

Lemma C3_witness :
  reversed_fields example_report <> example_report /\
  dumps example_float_repr example_report =
    dumps example_float_repr (reversed_fields example_report) /\
  report_fingerprint example_float_repr example_report =
    Ok "0x19d06a0a6aa894458eb577de3ae4664c8768df1a7ec73ed9ae17c2e0a7168008".
Proof.
  split; [vm_compute; discriminate |].
  split; [| vm_compute; reflexivity].
  apply (C3_canonical_form_ignores_insertion_order example_float_repr
           example_report (reversed_fields example_report)).
  - apply distinct_keysb_sound. vm_compute. reflexivity.
  - vm_compute. reflexivity.
Defined.

(** ** Registration: classifying a failed call *)

Lemma str_app_assoc (s t u : string) : (s ++ t) ++ u = s ++ t ++ u.
Proof.
  induction s as [| c s IH]; [reflexivity |].
  change (String c ((s ++ t) ++ u) = String c (s ++ t ++ u)). now rewrite IH.
Qed.

Lemma str_startswith_spec (p s : string) :
  str_startswith p s = true <-> exists t, s = p ++ t.
Proof.
  revert s. induction p as [| a p IH]; intros s; cbn [str_startswith].
  - split; [intros _; now exists s | reflexivity].
  - destruct s as [| b s].
    + split; [discriminate | intros [t Ht]; discriminate].
    + rewrite andb_true_iff, Ascii.eqb_eq, IH. split.
      * intros [-> [t ->]]. now exists t.
      * intros [t Ht]. injection Ht as -> ->. split; [reflexivity | now exists t].
Qed.

Lemma str_contains_spec (needle hay : string) :
  str_contains needle hay = true <-> occurs needle hay.
Proof.
  unfold occurs. induction hay as [| c hay IH]; cbn [str_contains];
    rewrite orb_true_iff, str_startswith_spec.
  - split.
    + intros [[t Ht] | ?]; [| discriminate]. now exists "", t.
    + intros ([| ? ?] & after & H); [| discriminate]. left. now exists after.
  - rewrite IH. split.
    + intros [[t Ht] | (before & after & ->)].
      * now exists "", t.
      * now exists (String c before), after.
    + intros ([| c' before] & after & H).
      * left. now exists after.
      * right. injection H as -> ->. now exists before, after.
Qed.

Lemma already_registered_spec (msg : string) :
  already_registered msg = true <-> duplicate_message msg.
Proof.
  unfold already_registered, duplicate_message.
  rewrite orb_true_iff, !andb_true_iff, !str_contains_spec. unfold occurs. tauto.
Qed.

Lemma occurs_after (needle pre s : string) : occurs needle s -> occurs needle (pre ++ s).
Proof.
  intros (before & after & ->). exists (pre ++ before), after.
  now rewrite str_app_assoc.
Qed.

Lemma is_lower_hex_range (c : ascii) :
  is_lower_hex c = true -> (48 <= N_of_ascii c <= 57 \/ 97 <= N_of_ascii c <= 102)%N.
Proof. unfold is_lower_hex. rewrite orb_true_iff, !byte_in_spec. tauto. Qed.

Lemma is_lower_hex_hex (c : ascii) : is_lower_hex c = true -> is_hex c = true.
Proof. unfold is_hex, is_lower_hex. now intros ->. Qed.

Lemma str_lower_lower_hex (s : string) :
  str_forall is_lower_hex s = true -> str_lower s = s.
Proof.
  induction s as [| c s IH]; [reflexivity |].
  rewrite str_forall_cons, andb_true_iff. intros [Hc Hs]. cbn [str_lower].
  rewrite IH by assumption. f_equal. unfold ascii_lower.
  apply is_lower_hex_range in Hc. now rewrite byte_in_out by lia.
Qed.

Lemma to_bytes32_fingerprint (body : string) :
  String.length body = 64%nat -> str_forall is_lower_hex body = true ->
  to_bytes32 ("0x" ++ body) = Ok body.
Proof.
  intros Hlen Hhex. unfold to_bytes32.
  change (str_lower ("0x" ++ body)) with ("0x" ++ str_lower body).
  rewrite str_lower_lower_hex by assumption.
  assert (str_forall token body = true) as Ht.
  { eapply str_forall_impl; [| exact Hhex]. intros c Hc.
    now apply is_hex_token, is_lower_hex_hex. }
  rewrite str_strip_token by (rewrite str_forall_app, Ht; reflexivity).
  change (str_startswith "0x" ("0x" ++ body)) with true.
  change (str_drop2 ("0x" ++ body)) with body. cbv beta iota zeta.
  rewrite Hlen. cbn [Nat.eqb negb orb].
  now rewrite (proj2 (re_fullmatch_class_spec is_lower_hex 64 body) (conj Hlen Hhex)).
Qed.

Section registration_facts.

Variables (etherscan_base revert_reason : string) (tx_id : string -> Z -> string).
Hypothesis reason_hash : occurs "Hash" revert_reason.
Hypothesis reason_registrado : occurs "registrado" revert_reason.

Lemma revert_message_duplicate :
  already_registered ("execution reverted: " ++ revert_reason) = true.
Proof.
  apply already_registered_spec. right. repeat split.
  - now exists "", (": " ++ revert_reason).
  - now apply (occurs_after "Hash" "execution reverted: ").
  - now apply (occurs_after "registrado" "execution reverted: ").
Qed.

Lemma register_report_twice (l : ledger) (key : string) (cid cid' : option string) :
  let first := register_report revert_reason tx_id l key cid in
  register_report revert_reason tx_id (snd first) key cid' =
  (Raise (Exception "ContractLogicError" ("execution reverted: " ++ revert_reason)),
   snd first).
Proof.
  cbn zeta. unfold register_report at 2 3.
  destruct (decide (key ∈ registered l)) as [Hin | Hout]; cbn [snd].
  - unfold register_report. now rewrite decide_True.
  - unfold register_report. cbn [registered]. rewrite decide_True; [reflexivity | set_solver].
Qed.

Lemma register_report_fresh (l : ledger) (key : string) (cid : option string) :
  key ∉ registered l ->
  exists tx block l',
    register_report revert_reason tx_id l key cid = (Ok (tx, block), l') /\
    key ∈ registered l'.
Proof.
  intros Hout. unfold register_report. rewrite decide_False by assumption.
  do 3 eexists. split; [reflexivity |]. cbn. set_solver.
Qed.

(** C5. A failed registration whose message contains "Hash ja registrado",
    or "execution reverted" together with "Hash" and "registrado", is shown
    as the warning of an already registered fingerprint; any other failure
    is shown as the exception itself.  With a ledger whose revert reason
    contains "Hash" and "registrado", registering a fingerprint succeeds
    when it is absent, and registering it again, with any of the handlers,
    leaves the ledger as it is and is classified AlreadyRegistered; a
    connection failure is classified as a generic failure. *)
Theorem C5_duplicate_registration_is_distinguished :
  (forall success_text e,
     duplicate_message (exc_str e) ->
     on_registration etherscan_base success_text (Raise e) = [st_warning duplicate_warning]) /\
  (forall success_text e,
     ~ duplicate_message (exc_str e) ->
     on_registration etherscan_base success_text (Raise e) = [st_exception e]) /\
  (forall l body,
     String.length body = 64%nat -> str_forall is_lower_hex body = true ->
     let f := "0x" ++ body in
     let first := register_hash revert_reason tx_id l f in
     let second := register_hash revert_reason tx_id (snd first) f in
     (body ∉ registered l ->
      outcome_of (on_register_hash etherscan_base (fst first)) = Registered) /\
     snd second = snd first /\
     outcome_of (on_register_hash etherscan_base (fst second)) = AlreadyRegistered) /\
  (forall l body cid,
     String.length body = 64%nat -> str_forall is_lower_hex body = true ->
     let f := "0x" ++ body in
     let first := register_hash_with_cid revert_reason tx_id l f cid in
     let second := register_hash_with_cid revert_reason tx_id (snd first) f cid in
     (body ∉ registered l ->
      outcome_of (on_register_hash_with_cid etherscan_base (fst first)) = Registered) /\
     snd second = snd first /\
     outcome_of (on_register_hash_with_cid etherscan_base (fst second)) = AlreadyRegistered /\
     outcome_of (on_register_hash_with_cid_report etherscan_base (fst second)) =
       AlreadyRegistered) /\
  (forall e,
     exc_str e = "HTTPSConnectionPool(host='rpc.sepolia.org', port=443): Read timed out." ->
     on_register_hash etherscan_base (Raise e) = [st_exception e] /\
     outcome_of (on_register_hash etherscan_base (Raise e)) = GenericFailure).
Proof.
  repeat apply conj.
  - intros success_text e H%already_registered_spec. cbn. now rewrite H.
  - intros success_text e H. cbn.
    destruct (already_registered (exc_str e)) eqn:E; [| reflexivity].
    now apply already_registered_spec in E.
  - intros l body Hlen Hhex. cbn zeta. unfold register_hash.
    rewrite to_bytes32_fingerprint by assumption.
    rewrite register_report_twice. cbn [fst snd]. repeat split.
    + intros Hout.
      destruct (register_report_fresh l body None Hout) as (tx & block & l' & -> & _).
      reflexivity.
    + unfold on_register_hash. cbn. now rewrite revert_message_duplicate.
  - intros l body cid Hlen Hhex. cbn zeta. unfold register_hash_with_cid.
    rewrite to_bytes32_fingerprint by assumption.
    rewrite register_report_twice. cbn [fst snd]. repeat split.
    + intros Hout.
      destruct (register_report_fresh l body (Some cid) Hout) as (tx & block & l' & -> & _).
      reflexivity.
    + unfold on_register_hash_with_cid. cbn. now rewrite revert_message_duplicate.
    + unfold on_register_hash_with_cid_report. cbn. now rewrite revert_message_duplicate.
  - intros e He. unfold on_register_hash. cbn. rewrite He. split; reflexivity.
Qed.

End registration_facts.

Lemma C5_witness :
  let f := "0x" ++ lower_hex_64 in
  let first := register_hash "Hash ja registrado" example_tx_id empty_ledger f in
  let second := register_hash "Hash ja registrado" example_tx_id (snd first) f in
  outcome_of (on_register_hash "https://sepolia.etherscan.io" (fst first)) = Registered /\
  snd second = snd first /\
  outcome_of (on_register_hash "https://sepolia.etherscan.io" (fst second)) = AlreadyRegistered.
Proof.
  assert (occurs "Hash" "Hash ja registrado") as H1
    by (apply str_contains_spec; reflexivity).
  assert (occurs "registrado" "Hash ja registrado") as H2
    by (apply str_contains_spec; reflexivity).
  pose proof (C5_duplicate_registration_is_distinguished
                "https://sepolia.etherscan.io" "Hash ja registrado" example_tx_id H1 H2)
    as (_ & _ & H & _).
  destruct (H empty_ledger lower_hex_64 eq_refl eq_refl) as (Ha & Hb & Hc).
  exact (conj (Ha (not_elem_of_empty (C:=gset string) lower_hex_64)) (conj Hb Hc)).
Defined.

(** * Further properties of the code *)

(** ** The classifier, level by level *)

Ltac level_cases :=
  unfold cmmi_level_from_igs; split_cmp; q2z;
  repeat match goal with
         | |- _ <-> _ => split
         | |- _ -> _ => intro
         | H : _ /\ _ |- _ => destruct H
         | H : _ \/ _ |- _ => destruct H
         end;
  first [ lia | left; lia | right; lia | repeat split; lia
        | repeat split; first [ lia | left; lia | right; lia ] ].

Lemma level_at_least_2 (p1 p2 p3 : Q) :
  (2 <= cmmi_level_from_igs p1 p2 p3)%Z <-> (0.5 <= p1)%Q.
Proof. level_cases. Qed.

Lemma level_at_least_3 (p1 p2 p3 : Q) :
  (3 <= cmmi_level_from_igs p1 p2 p3)%Z <->
  (0.8 <= p1 /\ 0.5 <= p2 /\ (p3 < 0.4 \/ 0.7 <= p2))%Q.
Proof. level_cases. Qed.

Lemma level_at_least_4 (p1 p2 p3 : Q) :
  (4 <= cmmi_level_from_igs p1 p2 p3)%Z <-> (0.8 <= p1 /\ 0.7 <= p2 /\ 0.4 <= p3)%Q.
Proof. level_cases. Qed.

Lemma level_at_least_5 (p1 p2 p3 : Q) :
  (5 <= cmmi_level_from_igs p1 p2 p3)%Z <-> (0.9 <= p1 /\ 0.85 <= p2 /\ 0.7 <= p3)%Q.
Proof. level_cases. Qed.

(** X1. The level is 1 exactly when the IG1 percentage is below 0.5; it is
    at least 3 exactly when p1 >= 0.8, p2 >= 0.5 and either p3 < 0.4 or
    p2 >= 0.7; at least 4 exactly when p1 >= 0.8, p2 >= 0.7 and p3 >= 0.4;
    and 5 exactly when p1 >= 0.9, p2 >= 0.85 and p3 >= 0.7. *)
Theorem X1_level_thresholds (p1 p2 p3 : Q) :
  (cmmi_level_from_igs p1 p2 p3 = 1%Z <-> (p1 < 0.5)%Q) /\
  ((3 <= cmmi_level_from_igs p1 p2 p3)%Z <->
   (0.8 <= p1 /\ 0.5 <= p2 /\ (p3 < 0.4 \/ 0.7 <= p2))%Q) /\
  ((4 <= cmmi_level_from_igs p1 p2 p3)%Z <-> (0.8 <= p1 /\ 0.7 <= p2 /\ 0.4 <= p3)%Q) /\
  (cmmi_level_from_igs p1 p2 p3 = 5%Z <-> (0.9 <= p1 /\ 0.85 <= p2 /\ 0.7 <= p3)%Q).
Proof.
  pose proof (cmmi_level_range p1 p2 p3) as Hr. cbn zeta in Hr.
  pose proof (level_at_least_2 p1 p2 p3) as H2.
  pose proof (level_at_least_5 p1 p2 p3) as H5.
  repeat apply conj.
  - intros H1. apply Qnot_le_lt. intros Hle. apply H2 in Hle. lia.
  - intros Hlt. destruct (Z.eq_dec (cmmi_level_from_igs p1 p2 p3) 1%Z); [assumption |].
    exfalso. assert (0.5 <= p1)%Q as Hle by (apply H2; lia).
    exact (Qlt_not_le _ _ Hlt Hle).
  - apply level_at_least_3.
  - apply level_at_least_3.
  - apply level_at_least_4.
  - apply level_at_least_4.
  - intros H. apply H5. lia.
  - intros H. apply H5 in H. lia.
Qed.

(** X2. For a fixed IG3 percentage the level never decreases when the IG1
    and IG2 percentages increase.  When only the IG3 percentage increases
    the level can decrease in one way only: from 3 to 2, when p3 crosses 0.4
    with p1 >= 0.8 and 0.5 <= p2 < 0.7. *)
Theorem X2_level_monotone_except_in_ig3 (p1 p2 p3 q1 q2 q3 : Q) :
  ((p1 <= q1)%Q -> (p2 <= q2)%Q ->
   (cmmi_level_from_igs p1 p2 p3 <= cmmi_level_from_igs q1 q2 p3)%Z) /\
  ((p3 <= q3)%Q ->
   (cmmi_level_from_igs p1 p2 q3 < cmmi_level_from_igs p1 p2 p3)%Z ->
   cmmi_level_from_igs p1 p2 p3 = 3%Z /\ cmmi_level_from_igs p1 p2 q3 = 2%Z /\
   (0.8 <= p1 /\ 0.5 <= p2 /\ p2 < 0.7 /\ p3 < 0.4 /\ 0.4 <= q3)%Q).
Proof.
  split.
  - intros H1 H2.
    pose proof (cmmi_level_range p1 p2 p3) as Hp. cbn zeta in Hp.
    pose proof (cmmi_level_range q1 q2 p3) as Hq. cbn zeta in Hq.
    assert ((2 <= cmmi_level_from_igs p1 p2 p3)%Z -> (2 <= cmmi_level_from_igs q1 q2 p3)%Z) as L2.
    { rewrite !level_at_least_2. intros H. eapply Qle_trans; eauto. }
    assert ((3 <= cmmi_level_from_igs p1 p2 p3)%Z -> (3 <= cmmi_level_from_igs q1 q2 p3)%Z) as L3.
    { rewrite !level_at_least_3. intros (Ha & Hb & Hc).
      repeat split; [eapply Qle_trans; eauto | eapply Qle_trans; eauto |].
      destruct Hc as [Hc | Hc]; [now left | right; eapply Qle_trans; eauto]. }
    assert ((4 <= cmmi_level_from_igs p1 p2 p3)%Z -> (4 <= cmmi_level_from_igs q1 q2 p3)%Z) as L4.
    { rewrite !level_at_least_4. intros (Ha & Hb & Hc).
      repeat split; [eapply Qle_trans; eauto | eapply Qle_trans; eauto | assumption]. }
    assert ((5 <= cmmi_level_from_igs p1 p2 p3)%Z -> (5 <= cmmi_level_from_igs q1 q2 p3)%Z) as L5.
    { rewrite !level_at_least_5. intros (Ha & Hb & Hc).
      repeat split; [eapply Qle_trans; eauto | eapply Qle_trans; eauto | assumption]. }
    lia.
  - intros H3 Hdrop.
    pose proof (cmmi_level_range p1 p2 p3) as Hp. cbn zeta in Hp.
    pose proof (cmmi_level_range p1 p2 q3) as Hq. cbn zeta in Hq.
    pose proof (level_at_least_2 p1 p2 p3) as A2.
    pose proof (level_at_least_2 p1 p2 q3) as B2.
    pose proof (level_at_least_3 p1 p2 p3) as A3.
    pose proof (level_at_least_3 p1 p2 q3) as B3.
    pose proof (level_at_least_4 p1 p2 p3) as A4.
    pose proof (level_at_least_4 p1 p2 q3) as B4.
    pose proof (level_at_least_5 p1 p2 p3) as A5.
    pose proof (level_at_least_5 p1 p2 q3) as B5.
    assert (~ (4 <= cmmi_level_from_igs p1 p2 p3)%Z) as N4.
    { intros H4. pose proof H4 as (Ha & Hb & Hc)%A4.
      assert (4 <= cmmi_level_from_igs p1 p2 q3)%Z as H4'
        by (apply B4; repeat split; try assumption; eapply Qle_trans; eauto).
      assert ((5 <= cmmi_level_from_igs p1 p2 p3)%Z -> (5 <= cmmi_level_from_igs p1 p2 q3)%Z).
      { rewrite A5, B5. intros (? & ? & ?). repeat split; try assumption.
        eapply Qle_trans; eauto. }
      lia. }
    assert (3 <= cmmi_level_from_igs p1 p2 p3)%Z as H3l.
    { destruct (Z_le_gt_dec 3 (cmmi_level_from_igs p1 p2 p3)); [assumption |].
      assert (2 <= cmmi_level_from_igs p1 p2 p3)%Z as H2l by lia.
      apply A2 in H2l. apply B2 in H2l. lia. }
    pose proof H3l as (Ha & Hb & Hc)%A3.
    assert (2 <= cmmi_level_from_igs p1 p2 q3)%Z as H2q.
    { apply B2. apply Qle_trans with (0.8)%Q; [| assumption]. unfold Qle. cbn. lia. }
    assert (~ (3 <= cmmi_level_from_igs p1 p2 q3)%Z) as N3 by lia.
    rewrite B3 in N3.
    assert (p2 < 0.7)%Q as Hp2.
    { apply Qnot_le_lt. intros H. apply N3. auto. }
    assert (0.4 <= q3)%Q as Hq3.
    { apply Qnot_lt_le. intros H. apply N3. auto. }
    destruct Hc as [Hc | Hc]; [| exfalso; exact (Qlt_not_le _ _ Hp2 Hc)].
    repeat split; try assumption; lia.
Qed.

Lemma X2_witness :
  (cmmi_level_from_igs 0.5 0.3 0 <= cmmi_level_from_igs 0.9 0.6 0)%Z /\
  cmmi_level_from_igs 0.8 0.5 0 = 3%Z /\ cmmi_level_from_igs 0.8 0.5 0.4 = 2%Z.
Proof.
  destruct (X2_level_monotone_except_in_ig3 0.5 0.3 0 0.9 0.6 0) as [H1 _].
  destruct (X2_level_monotone_except_in_ig3 0.8 0.5 0 0.8 0.5 0.4) as [_ H2].
  split.
  - apply H1; unfold Qle; cbn; lia.
  - assert ((0 <= 0.4)%Q) as Hle by (unfold Qle; cbn; lia).
    assert ((cmmi_level_from_igs 0.8 0.5 0.4 < cmmi_level_from_igs 0.8 0.5 0)%Z) as Hlt
      by (vm_compute; reflexivity).
    destruct (H2 Hle Hlt) as (Ha & Hb & _). exact (conj Ha Hb).
Defined.

(** ** Scoring: failures, order of the controls, names, average *)

Lemma group_safeguards_app (l1 l2 : list safeguard) (d : dict bucket) :
  group_safeguards d (l1 ++ l2) =
  d' ← group_safeguards d l1; group_safeguards d' l2.
Proof.
  revert d. induction l1 as [| s l1 IH]; intros d; cbn; [reflexivity |].
  destruct (add_safeguard d s); cbn; [apply IH | reflexivity].
Qed.

Lemma add_safeguard_invalid (d : dict bucket) (s : safeguard) :
  ~ valid_ig s ->
  add_safeguard d s =
  Raise (if String.eqb (ig s) "name" then AttributeError else KeyError (ig s)).
Proof.
  unfold valid_ig, add_safeguard. intros H.
  destruct (String.eqb_spec (ig s) "IG1"); [tauto |].
  destruct (String.eqb_spec (ig s) "IG2"); [tauto |].
  destruct (String.eqb_spec (ig s) "IG3"); [tauto |].
  now destruct (String.eqb (ig s) "name").
Qed.

Lemma group_safeguards_Ok_valid (l : list safeguard) (d d' : dict bucket) :
  group_safeguards d l = Ok d' -> Forall valid_ig l.
Proof.
  revert d. induction l as [| s l IH]; intros d H; [constructor |]. cbn in H.
  destruct (add_safeguard d s) as [d1 |] eqn:E; [| discriminate]. cbn in H.
  constructor; [| eauto]. unfold add_safeguard, valid_ig in *.
  destruct (String.eqb_spec (ig s) "IG1"); [tauto |].
  destruct (String.eqb_spec (ig s) "IG2"); [tauto |].
  destruct (String.eqb_spec (ig s) "IG3"); [tauto |].
  destruct (String.eqb (ig s) "name"); discriminate.
Qed.

(** X3. [compute_maturity] returns a result exactly when every [ig] field
    is IG1, IG2 or IG3.  Otherwise it raises at the first safeguard that is
    not: AttributeError when its [ig] is "name" (a key of the bucket that
    holds a string), KeyError with the offending value in every other
    case; the answers play no part in it. *)
Theorem X3_compute_maturity_failures
    (answers : gmap string string) (safeguards : list safeguard) :
  ((exists maturity avg, compute_maturity answers safeguards = Ok (maturity, avg)) <->
   Forall valid_ig safeguards) /\
  (forall before s after,
     safeguards = (before ++ s :: after)%list -> Forall valid_ig before -> ~ valid_ig s ->
     compute_maturity answers safeguards =
     Raise (if String.eqb (ig s) "name" then AttributeError else KeyError (ig s))).
Proof.
  split.
  - split.
    + intros (maturity & avg & H). rewrite compute_maturity_unfold in H.
      destruct (group_safeguards [] safeguards) as [d |] eqn:E; [| discriminate].
      eapply group_safeguards_Ok_valid; eauto.
    + intros H. rewrite compute_maturity_unfold.
      destruct (group_safeguards_valid safeguards [] H) as [d ->]. cbn. eauto.
  - intros before s after -> Hbefore Hs.
    rewrite compute_maturity_unfold, group_safeguards_app.
    destruct (group_safeguards_valid before [] Hbefore) as [d ->]. cbn.
    now rewrite add_safeguard_invalid.
Qed.

Lemma X3_witness :
  compute_maturity example_answers
    (example_safeguards ++ [Safeguard 2 "2.1" "IG4" "t" "c"; Safeguard 2 "2.2" "name" "t" "c"]) =
  Raise (KeyError "IG4").
Proof.
  refine (proj2 (X3_compute_maturity_failures example_answers _)
            example_safeguards (Safeguard 2 "2.1" "IG4" "t" "c")
            [Safeguard 2 "2.2" "name" "t" "c"] eq_refl _ _).
  - apply valid_igs_check. vm_compute. reflexivity.
  - unfold valid_ig. cbn. intros [H | [H | H]]; discriminate.
Defined.

Lemma dict_get_existsb {V} (d : dict V) (k : Z) :
  existsb (Z.eqb k) (dict_keys d) = match dict_get k d with Some _ => true | None => false end.
Proof.
  unfold dict_keys. induction d as [| [k' v] d IH]; cbn; [reflexivity |].
  destruct (Z.eqb k k'); [reflexivity | exact IH].
Qed.

Lemma add_safeguard_keys (d d' : dict bucket) (s : safeguard) :
  add_safeguard d s = Ok d' ->
  dict_keys d' =
  if existsb (Z.eqb (control s)) (dict_keys d) then dict_keys d
  else (dict_keys d ++ [control s])%list.
Proof.
  intros H.
  assert (exists b b', d' = dict_set (control s) b' (dict_set (control s) b d)) as (b & b' & ->).
  { unfold add_safeguard in H.
    repeat match type of H with
           | (if ?c then _ else _) = _ => destruct c
           end; try discriminate; injection H as <-; eauto. }
  rewrite dict_keys_set, dict_get_set_eq, dict_keys_set, dict_get_existsb.
  now destruct (dict_get (control s) d).
Qed.

Lemma group_safeguards_keys (l : list safeguard) (d d' : dict bucket) :
  group_safeguards d l = Ok d' ->
  dict_keys d' =
  fold_left (fun acc c => if existsb (Z.eqb c) acc then acc else (acc ++ [c])%list)
            (map control l) (dict_keys d).
Proof.
  revert d. induction l as [| s l IH]; intros d H; cbn in H.
  - now injection H as <-.
  - destruct (add_safeguard d s) as [d1 |] eqn:E; [| discriminate]. cbn in H.
    cbn [map fold_left]. rewrite <- (add_safeguard_keys d d1 s E). now apply IH.
Qed.

Lemma dict_set_fresh {V} (d : dict V) (k : Z) (v : V) :
  ~ In k (dict_keys d) -> dict_set k v d = (d ++ [(k, v)])%list.
Proof.
  unfold dict_keys. induction d as [| [k' v'] d IH]; cbn; [reflexivity |].
  intros H. destruct (Z.eqb_spec k k'); [subst; tauto |]. rewrite IH; tauto.
Qed.

Lemma scored_map (answers : gmap string string) (items : list (Z * bucket))
    (maturity : dict control_maturity) :
  NoDup (dict_keys maturity ++ dict_keys items) ->
  scored answers items maturity =
  (maturity ++ map (fun cb => (fst cb, entry_of answers (snd cb))) items)%list.
Proof.
  unfold scored. revert maturity.
  induction items as [| [k b] items IH]; intros maturity Hnd; cbn [fold_left map].
  - now rewrite app_nil_r.
  - cbn [fst snd]. rewrite dict_set_fresh.
    + rewrite IH; [now rewrite <- app_assoc |].
      unfold dict_keys in *. rewrite map_app. cbn [map fst].
      rewrite <- app_assoc. exact Hnd.
    + apply NoDup_app in Hnd as (_ & Hdisj & _). intros Hin.
      apply (Hdisj k); [now apply list_elem_of_In | cbn; left].
Qed.

Lemma compute_maturity_Ok (answers : gmap string string) (safeguards : list safeguard)
    (maturity : dict control_maturity) (avg : Q) :
  compute_maturity answers safeguards = Ok (maturity, avg) ->
  exists by_control,
    group_safeguards [] safeguards = Ok by_control /\
    grouped safeguards by_control /\
    maturity = map (fun cb => (fst cb, entry_of answers (snd cb))) by_control /\
    avg = average_value (map (fun ce => cmmi (snd ce)) maturity).
Proof.
  rewrite compute_maturity_unfold. intros H.
  destruct (group_safeguards [] safeguards) as [d |] eqn:E; [| discriminate].
  cbn in H. injection H as <- <-. exists d.
  pose proof (group_safeguards_grouped _ [] _ _ grouped_nil E) as Hg. cbn [app] in Hg.
  split; [reflexivity | split; [exact Hg |]].
  rewrite scored_map by (cbn; apply Hg). cbn [app].
  split; [reflexivity |]. unfold levels. now rewrite map_map.
Qed.

Lemma sum_inject_Z (zs : list Z) :
  (fold_right Qplus 0 (map inject_Z zs) == inject_Z (fold_right Z.add 0%Z zs))%Q.
Proof.
  induction zs as [| z zs IH]; cbn [map fold_right]; [reflexivity |].
  now rewrite IH, inject_Z_plus.
Qed.

Lemma sum_levels_bounds (zs : list Z) :
  Forall (fun z => 1 <= z <= 5)%Z zs ->
  (Z.of_nat (length zs) <= fold_right Z.add 0 zs <= 5 * Z.of_nat (length zs))%Z.
Proof.
  induction 1 as [| z zs Hz _ IH]; cbn [fold_right length]; lia.
Qed.

(** X4. In the result of [compute_maturity] the controls come in the order
    of their first safeguard in the catalogue, one entry each; the average
    is 0 when there is no control, and otherwise it is the sum of the levels
    divided by the number of controls, between 1 and 5. *)
Theorem X4_controls_in_order_and_average
    (answers : gmap string string) (safeguards : list safeguard)
    (maturity : dict control_maturity) (avg : Q) :
  compute_maturity answers safeguards = Ok (maturity, avg) ->
  dict_keys maturity = first_occurrences (map control safeguards) /\
  NoDup (dict_keys maturity) /\
  (maturity = [] <-> safeguards = []) /\
  (maturity = [] -> avg = 0%Q) /\
  (maturity <> [] -> (avg == mean_level maturity)%Q /\ (1 <= avg)%Q /\ (avg <= 5)%Q).
Proof.
  intros (d & Hgroup & (Hnd & Hkeys & _) & Hm & Havg)%compute_maturity_Ok.
  assert (dict_keys maturity = dict_keys d) as Hk.
  { subst maturity. unfold dict_keys. rewrite map_map. reflexivity. }
  split; [| split; [| split; [| split]]].
  - rewrite Hk. apply (group_safeguards_keys _ _ _ Hgroup).
  - now rewrite Hk.
  - split.
    + intros ->. destruct safeguards as [| s l]; [reflexivity |].
      exfalso. assert (In (control s) (dict_keys d)) as Hin by (apply Hkeys; now left).
      rewrite <- Hk in Hin. destruct Hin.
    + intros ->. cbn in Hgroup. injection Hgroup as <-. now subst.
  - intros ->. now subst avg.
  - intros Hne. destruct maturity as [| e m]; [congruence |].
    set (zs := map (fun ce => cmmi (snd ce)) (e :: m)) in *.
    assert (Forall (fun z => 1 <= z <= 5)%Z zs) as Hz.
    { subst zs. rewrite Hm, map_map. apply List.Forall_forall.
      intros z ([c b] & <- & _)%in_map_iff. cbn.
      pose proof (cmmi_level_range (percent_value answers (IG1 b))
                    (percent_value answers (IG2 b)) (percent_value answers (IG3 b))) as Hr.
      cbn zeta in Hr. lia. }
    apply sum_levels_bounds in Hz.
    assert (length zs = length (e :: m)) as Hlen by (subst zs; apply length_map).
    assert (avg == mean_level (e :: m))%Q as Hmean.
    { subst avg. unfold average_value, mean_level. fold zs.
      destruct zs as [| z zs'] eqn:Ezs; [discriminate |].
      rewrite py_sum_fold_right, sum_inject_Z. unfold py_len. now rewrite Hlen. }
    split; [exact Hmean |]. rewrite Hmean. unfold mean_level. fold zs.
    rewrite <- Hlen.
    assert (0 < inject_Z (Z.of_nat (length zs)))%Q as Hpos.
    { rewrite Hlen. unfold Qlt. cbn. lia. }
    split.
    + apply Qle_shift_div_l; [exact Hpos |]. rewrite Qmult_1_l.
      rewrite <- Zle_Qle. lia.
    + apply Qle_shift_div_r; [exact Hpos |].
      change 5%Q with (inject_Z 5). rewrite <- inject_Z_mult, <- Zle_Qle. lia.
Qed.

Lemma X4_witness :
  exists maturity avg,
    compute_maturity example_answers FALLBACK = Ok (maturity, avg) /\
    dict_keys maturity = [1; 2; 3; 4; 5; 16; 17; 18]%Z /\ (1 <= avg)%Q /\ (avg <= 5)%Q.
Proof.
  destruct (compute_maturity example_answers FALLBACK) as [[maturity avg] |] eqn:E;
    [| vm_compute in E; discriminate].
  exists maturity, avg. split; [reflexivity |].
  destruct (X4_controls_in_order_and_average _ _ _ _ E) as (Hk & _ & He & _ & Hb).
  split; [rewrite Hk; vm_compute; reflexivity |].
  apply Hb. intros Hm. apply He in Hm. discriminate.
Defined.

Lemma ig_percent_ext (a a' : gmap string string) (ids : list string) :
  (forall sid, In sid ids ->
     score_answer (default "Não implementado" (a !! sid)) =
     score_answer (default "Não implementado" (a' !! sid))) ->
  ig_percent a ids = ig_percent a' ids.
Proof.
  intros H. destruct ids as [| i ids]; [reflexivity |].
  unfold ig_percent. cbv zeta.
  now rewrite (map_ext_in _ _ _ H).
Qed.

Lemma maturity_loop_ext (a a' : gmap string string) (items : list (Z * bucket)) :
  (forall c b sid, In (c, b) items -> In sid (IG1 b ++ IG2 b ++ IG3 b)%list ->
     score_answer (default "Não implementado" (a !! sid)) =
     score_answer (default "Não implementado" (a' !! sid))) ->
  forall maturity all_levels,
    maturity_loop a items maturity all_levels = maturity_loop a' items maturity all_levels.
Proof.
  induction items as [| [c b] items IH]; intros H maturity all_levels; [reflexivity |].
  cbn [maturity_loop].
  rewrite (ig_percent_ext a a' (IG1 b)), (ig_percent_ext a a' (IG2 b)),
    (ig_percent_ext a a' (IG3 b)).
  - destruct (ig_percent a' (IG1 b)); [| reflexivity].
    destruct (ig_percent a' (IG2 b)); [| reflexivity].
    destruct (ig_percent a' (IG3 b)); [| reflexivity].
    cbn. apply IH. intros c' b' sid Hin. apply (H c' b' sid). now right.
  - intros sid Hin. apply (H c b sid); [now left |]. rewrite !in_app_iff. tauto.
  - intros sid Hin. apply (H c b sid); [now left |]. rewrite !in_app_iff. tauto.
  - intros sid Hin. apply (H c b sid); [now left |]. rewrite !in_app_iff. tauto.
Qed.

Lemma dict_get_In {V} (d : dict V) (c : Z) (v : V) :
  NoDup (dict_keys d) -> In (c, v) d -> dict_get c d = Some v.
Proof.
  unfold dict_keys. induction d as [| [k w] d IH]; cbn; [tauto |].
  intros Hnd [Heq | Hin].
  - injection Heq as -> ->. now rewrite Z.eqb_refl.
  - apply NoDup_cons in Hnd as [Hk Hnd].
    destruct (Z.eqb_spec c k) as [-> |]; [| now apply IH].
    exfalso. apply Hk. apply list_elem_of_In.
    change k with (fst (k, v)). now apply in_map.
Qed.

Lemma members_ids (seen : list safeguard) (c : Z) (g sid : string) :
  In sid (members seen c g) -> exists s, In s seen /\ id s = sid.
Proof.
  unfold members. intros (s & Hid & Hin)%in_map_iff.
  apply list_elem_of_In, list_elem_of_filter in Hin as [_ Hin].
  apply list_elem_of_In in Hin. eauto.
Qed.

(** X5. The result of [compute_maturity] depends on the answers only through
    the score of the answer to each safeguard of the catalogue: answers that
    score alike on the catalogue's ids (whatever they hold for other ids, and
    whether an id is missing or answered with a text of score 0) give the
    same result, failures included. *)
Theorem X5_only_catalogue_scores_matter
    (a a' : gmap string string) (safeguards : list safeguard) :
  (forall s, In s safeguards ->
     score_answer (default "Não implementado" (a !! id s)) =
     score_answer (default "Não implementado" (a' !! id s))) ->
  compute_maturity a safeguards = compute_maturity a' safeguards.
Proof.
  intros H. unfold compute_maturity.
  destruct (group_safeguards [] safeguards) as [d |] eqn:E; [| reflexivity].
  cbn. pose proof (group_safeguards_grouped _ [] _ _ grouped_nil E) as (Hnd & _ & Hb).
  cbn [app] in Hb.
  rewrite (maturity_loop_ext a a' d); [reflexivity |].
  intros c b sid Hin Hsid.
  destruct (Hb c b (dict_get_In d c b Hnd Hin)) as (H1 & H2 & H3).
  rewrite H1, H2, H3, !in_app_iff in Hsid.
  destruct Hsid as [Hs | [Hs | Hs]]; apply members_ids in Hs as (s & Hs & <-); now apply H.
Qed.

Lemma X5_witness :
  compute_maturity (<["1.1" := "Não se aplica"]> (<["9.9" := "Parcial"]> ∅)) example_safeguards =
  compute_maturity (<["1.1" := "Implementado"]> (<["1.3" := "talvez"]> ∅)) example_safeguards.
Proof.
  apply X5_only_catalogue_scores_matter.
  intros s [<- | [<- | [<- | []]]]; vm_compute; reflexivity.
Defined.

Lemma add_safeguard_name (d d' : dict bucket) (s : safeguard) :
  add_safeguard d s = Ok d' ->
  (exists b, dict_get (control s) d' = Some b /\ name b = control_name s) /\
  (forall c, c <> control s -> dict_get c d' = dict_get c d).
Proof.
  intros H. unfold add_safeguard in H. cbv zeta in H.
  repeat match type of H with
         | (if ?c then _ else _) = _ => destruct c
         end; try discriminate; injection H as <-;
    (split; [eexists; rewrite dict_get_set_eq; split; reflexivity |
             intros c Hc; now rewrite !dict_get_set_ne by congruence]).
Qed.

Lemma last_of_control_snoc (seen : list safeguard) (s : safeguard) (c : Z) :
  last_of_control (seen ++ [s]) c =
  if Z.eqb (control s) c then Some s else last_of_control seen c.
Proof.
  unfold last_of_control. rewrite filter_app.
  destruct (Z.eqb (control s) c) eqn:E.
  - rewrite filter_cons_True, filter_nil by now rewrite E. apply last_snoc.
  - rewrite filter_cons_False, filter_nil by now rewrite E. now rewrite app_nil_r.
Qed.

Lemma group_safeguards_name (l seen : list safeguard) (d d' : dict bucket) :
  (forall c b, dict_get c d = Some b ->
     option_map control_name (last_of_control seen c) = Some (name b)) ->
  group_safeguards d l = Ok d' ->
  forall c b, dict_get c d' = Some b ->
    option_map control_name (last_of_control (seen ++ l) c) = Some (name b).
Proof.
  revert seen d. induction l as [| s l IH]; intros seen d Hinv H; cbn in H.
  - injection H as <-. now rewrite app_nil_r.
  - destruct (add_safeguard d s) as [d1 |] eqn:E; [| discriminate]. cbn in H.
    change (seen ++ s :: l)%list with (seen ++ [s] ++ l)%list. rewrite app_assoc.
    apply (IH (seen ++ [s])%list d1); [| exact H].
    intros c b Hget. rewrite last_of_control_snoc.
    destruct (add_safeguard_name _ _ _ E) as ((b' & Hb' & Hname) & Hother).
    destruct (Z.eqb_spec (control s) c) as [<- | Hne].
    + rewrite Hb' in Hget. injection Hget as <-. cbn. now rewrite Hname.
    + rewrite Hother in Hget by congruence. now apply Hinv.
Qed.

Lemma dict_get_map {V W} (f : V -> W) (d : dict V) (c : Z) :
  dict_get c (map (fun cb => (fst cb, f (snd cb))) d) = option_map f (dict_get c d).
Proof.
  induction d as [| [k v] d IH]; cbn; [reflexivity |].
  destruct (Z.eqb c k); [reflexivity | exact IH].
Qed.

(** X6. The name [compute_maturity] records for a control is the
    [control_name] of the last safeguard of that control in the catalogue:
    every safeguard overwrites the name its control had. *)
Theorem X6_name_of_last_safeguard
    (answers : gmap string string) (safeguards : list safeguard)
    (maturity : dict control_maturity) (avg : Q) (c : Z) (e : control_maturity) :
  compute_maturity answers safeguards = Ok (maturity, avg) ->
  dict_get c maturity = Some e ->
  exists s, last_of_control safeguards c = Some s /\ m_name e = control_name s.
Proof.
  intros (d & Hgroup & _ & -> & _)%compute_maturity_Ok Hget.
  rewrite dict_get_map in Hget.
  destruct (dict_get c d) as [b |] eqn:Hb; [| discriminate].
  injection Hget as <-.
  pose proof (group_safeguards_name safeguards [] [] d
                ltac:(intros ? ? [=]) Hgroup c b Hb) as Hn.
  cbn [app] in Hn.
  destruct (last_of_control safeguards c) as [s |]; [| discriminate].
  injection Hn as Hn. exists s. split; [reflexivity |]. now cbn.
Qed.

Lemma X6_witness :
  exists maturity avg e s,
    compute_maturity ∅ renamed_catalogue = Ok (maturity, avg) /\
    dict_get 1 maturity = Some e /\
    last_of_control renamed_catalogue 1 = Some s /\
    m_name e = "second name".
Proof.
  destruct (compute_maturity ∅ renamed_catalogue) as [[maturity avg] |] eqn:E;
    [| vm_compute in E; discriminate].
  destruct (dict_get 1 maturity) as [e |] eqn:He.
  - destruct (X6_name_of_last_safeguard _ _ _ _ _ _ E He) as (s & Hs & Hn).
    exists maturity, avg, e, s.
    split; [reflexivity | split; [exact He | split; [exact Hs |]]].
    rewrite Hn. vm_compute in Hs. injection Hs as <-. reflexivity.
  - exfalso. vm_compute in E. injection E as <- _. vm_compute in He. discriminate.
Defined.

(** ** Fingerprints through [normalize_hash] and [_to_bytes32] *)

Lemma lower_hex_token (s : string) :
  str_forall is_lower_hex s = true -> str_forall token s = true.
Proof.
  apply str_forall_impl. intros c Hc. now apply is_hex_token, is_lower_hex_hex.
Qed.

Lemma lower_hex_is_hex (s : string) :
  str_forall is_lower_hex s = true -> str_forall is_hex s = true.
Proof. apply str_forall_impl, is_lower_hex_hex. Qed.

Lemma normalize_hash_fingerprint (nfkc : string -> string) (body : string) :
  (forall s, ascii_only s = true -> nfkc s = s) ->
  lower_hex64 body -> normalize_hash nfkc ("0x" ++ body) = Some ("0x" ++ body).
Proof.
  intros nfkc_ascii [Hlen Hhex].
  apply (normalize_hash_Some nfkc).
  destruct (hash_content_hex nfkc nfkc_ascii body (lower_hex_is_hex _ Hhex)) as (_ & -> & _).
  split; [discriminate | split].
  - split; [exact Hlen | now apply lower_hex_is_hex].
  - now rewrite str_lower_lower_hex.
Qed.

Lemma normalize_hash_shape (nfkc : string -> string) (h r : string) :
  normalize_hash nfkc h = Some r ->
  exists body, r = "0x" ++ body /\ lower_hex64 body.
Proof.
  rewrite normalize_hash_content.
  destruct (String.eqb h ""); [discriminate |].
  destruct (re_fullmatch_class is_hex 64 (hash_content nfkc h)) eqn:E; [| discriminate].
  intros [= <-]. apply re_fullmatch_class_spec in E as [Hlen Hhex].
  eexists. split; [reflexivity |]. split.
  - now rewrite str_lower_length.
  - now apply str_lower_hex.
Qed.

Lemma normalize_hash_digits (nfkc : string -> string) (body : string) :
  (forall s, ascii_only s = true -> nfkc s = s) ->
  lower_hex64 body -> normalize_hash nfkc body = Some ("0x" ++ body).
Proof.
  intros nfkc_ascii [Hlen Hhex].
  apply (normalize_hash_Some nfkc).
  destruct (hash_content_hex nfkc nfkc_ascii body (lower_hex_is_hex _ Hhex)) as (-> & _).
  split; [| split].
  - intros ->. discriminate.
  - split; [exact Hlen | now apply lower_hex_is_hex].
  - now rewrite str_lower_lower_hex.
Qed.

(** X7. What [normalize_hash] returns it accepts unchanged, and so it does
    the fingerprints of [sha256_hex]: a fingerprint shown by the application
    can be pasted back into its forms as it is.  The digits of
    [keccak256_hex], which come without the prefix, are accepted too, and
    returned with the prefix before them. *)
Theorem X7_normalize_hash_round_trip (nfkc : string -> string) :
  (forall s, ascii_only s = true -> nfkc s = s) ->
  (forall h r, normalize_hash nfkc h = Some r -> normalize_hash nfkc r = Some r) /\
  (forall data, normalize_hash nfkc (sha256_hex data) = Some (sha256_hex data)) /\
  (forall data,
     normalize_hash nfkc (keccak256_hex data) = Some ("0x" ++ keccak256_hex data) /\
     normalize_hash nfkc (keccak256_hex data) <> Some (keccak256_hex data)).
Proof.
  intros nfkc_ascii. split; [| split].
  - intros h r (body & -> & Hb)%normalize_hash_shape.
    now apply normalize_hash_fingerprint.
  - intros data. apply normalize_hash_fingerprint; [exact nfkc_ascii |].
    apply fingerprint_shape, sha256_digest_length.
  - intros data.
    assert (normalize_hash nfkc (keccak256_hex data) = Some ("0x" ++ keccak256_hex data))
      as H by (apply normalize_hash_digits;
               [exact nfkc_ascii | apply fingerprint_shape, keccak_digest_length]).
    split; [exact H |]. rewrite H. generalize (keccak256_hex data). intros k Heq.
    assert (String.length ("0x" ++ k) = String.length k) as Hlen by congruence.
    rewrite str_length_app in Hlen. cbn [String.length] in Hlen. lia.
Qed.

Lemma X7_witness :
  normalize_hash nfkc_fragment (sha256_hex []) = Some (sha256_hex []) /\
  normalize_hash nfkc_fragment (keccak256_hex []) = Some ("0x" ++ keccak256_hex []) /\
  normalize_hash nfkc_fragment ("0x" ++ lower_hex_64) = Some ("0x" ++ lower_hex_64).
Proof.
  destruct (X7_normalize_hash_round_trip nfkc_fragment nfkc_fragment_ascii) as (Ha & Hb & Hc).
  split; [apply Hb | split; [apply Hc |]].
  apply (Ha ("  0X" ++ upper_hex_64 ++ "'")). vm_compute. reflexivity.
Defined.

Lemma str_lower_app (s t : string) : str_lower (s ++ t) = str_lower s ++ str_lower t.
Proof.
  induction s as [| c s IH]; [reflexivity |].
  change (String c s ++ t) with (String c (s ++ t)).
  cbn [str_lower]. rewrite IH. reflexivity.
Qed.

Lemma to_bytes32_Ok (h key : string) :
  to_bytes32 h = Ok key -> lower_hex64 key.
Proof.
  unfold to_bytes32. cbv zeta.
  set (clean := if str_startswith "0x" _ then _ else _).
  destruct (Nat.eqb_spec (String.length clean) 64) as [Hlen |]; [| discriminate].
  cbn [negb orb].
  destruct (re_fullmatch_class is_lower_hex 64 clean) eqn:E; [| discriminate].
  intros [= <-]. now apply re_fullmatch_class_spec in E.
Qed.

Lemma to_bytes32_fails (h : string) (e : exception) :
  to_bytes32 h = Raise e -> exc_type e = "ValueError".
Proof.
  unfold to_bytes32. cbv zeta.
  destruct (_ || _); [| discriminate]. now intros [= <-].
Qed.

(** X8. [_to_bytes32] returns 64 lower-case hexadecimal digits or raises
    ValueError.  It takes 64 hexadecimal digits of either case, bare or after
    0x or 0X, to their lower-case form, so every spelling of a fingerprint
    names the same key; in particular it accepts whatever [normalize_hash]
    returns.  Unlike [normalize_hash] it does not strip quotes. *)
Theorem X8_to_bytes32_accepts_fingerprints :
  (forall h key, to_bytes32 h = Ok key -> lower_hex64 key) /\
  (forall h e, to_bytes32 h = Raise e -> exc_type e = "ValueError") /\
  (forall p body, In p [""; "0x"; "0X"] -> hex64 body ->
     to_bytes32 (p ++ body) = Ok (str_lower body)) /\
  (forall nfkc h r, normalize_hash nfkc h = Some r ->
     exists body, r = "0x" ++ body /\ to_bytes32 r = Ok body) /\
  (exists e, to_bytes32 ("'0x" ++ lower_hex_64 ++ "'") = Raise e).
Proof.
  split; [exact to_bytes32_Ok | split; [exact to_bytes32_fails | split; [| split]]].
  - intros p body Hp [Hlen Hhex].
    pose proof (str_lower_hex body Hhex) as Hlow.
    assert (String.length (str_lower body) = 64%nat) as Hlen'
      by now rewrite str_lower_length.
    assert (p = "" \/ str_lower p = "0x") as [-> | Hp'].
    { cbn in Hp. destruct Hp as [<- | [<- | [<- | []]]]; auto. }
    + change ("" ++ body) with body. unfold to_bytes32. cbv zeta.
      rewrite str_strip_token by now apply lower_hex_token.
      pose proof (hex_no_prefix (str_lower body) (lower_hex_is_hex _ Hlow)) as Hno.
      apply orb_false_elim in Hno as [-> _]. cbv beta iota zeta.
      rewrite Hlen'. cbn [Nat.eqb negb orb].
      now rewrite (proj2 (re_fullmatch_class_spec is_lower_hex 64 _) (conj Hlen' Hlow)).
    + rewrite <- (to_bytes32_fingerprint (str_lower body) Hlen' Hlow).
      unfold to_bytes32. rewrite !str_lower_app, Hp'.
      now rewrite (str_lower_lower_hex (str_lower body)).
  - intros nfkc h r (body & -> & Hlen & Hhex)%normalize_hash_shape.
    exists body. split; [reflexivity | now apply to_bytes32_fingerprint].
  - eexists. vm_compute. reflexivity.
Qed.

Lemma X8_witness :
  to_bytes32 ("0X" ++ upper_hex_64) = Ok lower_hex_64 /\
  to_bytes32 upper_hex_64 = to_bytes32 ("0x" ++ lower_hex_64).
Proof.
  destruct X8_to_bytes32_accepts_fingerprints as (_ & _ & H & _).
  assert (hex64 upper_hex_64) as Hu by (split; vm_compute; reflexivity).
  assert (hex64 lower_hex_64) as Hl by (split; vm_compute; reflexivity).
  split.
  - apply (H "0X" upper_hex_64); [cbn; tauto | exact Hu].
  - change upper_hex_64 with ("" ++ upper_hex_64) at 1.
    rewrite (H "" upper_hex_64 ltac:(cbn; tauto) Hu).
    rewrite (H "0x" lower_hex_64 ltac:(cbn; tauto) Hl). reflexivity.
Defined.

(** ** The contract address *)

Lemma str_remove_spaces_token (s : string) :
  str_forall token s = true -> str_remove_spaces s = s.
Proof.
  induction s as [| c s IH]; [reflexivity |].
  rewrite str_forall_cons. intros [Hc Hs]%andb_prop.
  cbn [str_remove_spaces]. rewrite (token_not_space c Hc).
  destruct s as [| c2 s2]; [reflexivity |].
  rewrite (proj1 (token_space2 c c2 Hc)).
  destruct s2 as [| c3 s3]; [now rewrite (IH Hs) |].
  rewrite (proj1 (token_space3 c c2 c3 Hc)). now rewrite (IH Hs).
Qed.

Lemma str_remove_spaces_token_cons (c : ascii) (s : string) :
  token c = true -> str_remove_spaces (String c s) = String c (str_remove_spaces s).
Proof.
  intros Hc. cbn [str_remove_spaces]. rewrite (token_not_space c Hc).
  destruct s as [| c2 s2]; [reflexivity |].
  rewrite (proj1 (token_space2 c c2 Hc)).
  destruct s2 as [| c3 s3]; [reflexivity |].
  now rewrite (proj1 (token_space3 c c2 c3 Hc)).
Qed.

Lemma str_remove_spaces_app (s sep t : string) :
  str_forall token s = true -> str_forall ascii_space sep = true ->
  str_remove_spaces (s ++ sep ++ t) = s ++ str_remove_spaces t.
Proof.
  intros Hs Hsep. induction s as [| c s IH].
  - change ("" ++ sep ++ t) with (sep ++ t). change ("" ++ str_remove_spaces t) with (str_remove_spaces t).
    induction sep as [| d sep IHsep]; [reflexivity |].
    rewrite str_forall_cons in Hsep. apply andb_prop in Hsep as [Hd Hsep].
    change (String d sep ++ t) with (String d (sep ++ t)).
    cbn [str_remove_spaces]. rewrite Hd. now apply IHsep.
  - rewrite str_forall_cons in Hs. apply andb_prop in Hs as [Hc Hs].
    change (String c s ++ sep ++ t) with (String c (s ++ sep ++ t)).
    rewrite (str_remove_spaces_token_cons c _ Hc), (IH Hs). reflexivity.
Qed.

Lemma token_not_char (n : N) (c : ascii) :
  token c = true -> (n < 48)%N -> byte_is n c = false.
Proof.
  intros Hc Hn. apply byte_is_out. apply token_range in Hc. lia.
Qed.

Lemma str_lstrip_chars_head (p : ascii -> bool) (c : ascii) (s : string) :
  p c = false -> str_lstrip_chars p (String c s) = String c s.
Proof. intros H. cbn. now rewrite H. Qed.

Lemma str_rev_snoc (s : string) (c : ascii) :
  str_rev (s ++ String c "") = String c (str_rev s).
Proof.
  unfold str_rev.
  assert (list_ascii_of_string (s ++ String c "") =
          (list_ascii_of_string s ++ [c])%list) as ->.
  { induction s as [| d s IH]; [reflexivity |].
    change (String d s ++ String c "") with (String d (s ++ String c "")).
    cbn [list_ascii_of_string]. now rewrite IH. }
  now rewrite rev_app_distr.
Qed.

Lemma str_rev_cons (c : ascii) (s : string) :
  str_rev (String c s) = str_rev s ++ String c "".
Proof.
  rewrite <- (str_rev_involutive (str_rev s ++ String c "")).
  now rewrite str_rev_snoc, str_rev_involutive.
Qed.

(** A text that begins and ends with characters outside [p] is not changed
    by [strip(p)]. *)
Lemma str_strip_chars_ends (p : ascii -> bool) (c d : ascii) (s : string) :
  p c = false -> p d = false ->
  str_strip_chars p (String c (s ++ String d "")) = String c (s ++ String d "").
Proof.
  intros Hc Hd. unfold str_strip_chars.
  rewrite (str_lstrip_chars_head p c _ Hc).
  change (String c (s ++ String d "")) with (String c s ++ String d "").
  rewrite str_rev_snoc, (str_lstrip_chars_head p d _ Hd).
  now rewrite <- str_rev_snoc, str_rev_involutive.
Qed.

Lemma str_lstrip_head (c : ascii) (s : string) :
  token c = true -> str_lstrip (String c s) = String c s.
Proof.
  intros Hc. cbn [str_lstrip]. rewrite (token_not_space c Hc).
  destruct s as [| c2 s2]; [reflexivity |].
  rewrite (proj1 (token_space2 c c2 Hc)).
  destruct s2 as [| c3 s3]; [reflexivity |].
  now rewrite (proj1 (token_space3 c c2 c3 Hc)).
Qed.

Lemma str_lstrip_rev_head (c : ascii) (s : string) :
  token c = true -> str_lstrip_rev (String c s) = String c s.
Proof.
  intros Hc. cbn [str_lstrip_rev]. rewrite (token_not_space c Hc).
  destruct s as [| c2 s2]; [reflexivity |].
  rewrite (proj2 (token_space2 c c2 Hc)).
  destruct s2 as [| c3 s3]; [reflexivity |].
  now rewrite (proj2 (token_space3 c c2 c3 Hc)).
Qed.

Lemma str_strip_ends (c d : ascii) (s : string) :
  token c = true -> token d = true ->
  str_strip (String c (s ++ String d "")) = String c (s ++ String d "").
Proof.
  intros Hc Hd. unfold str_strip.
  rewrite (str_lstrip_head c _ Hc).
  change (String c (s ++ String d "")) with (String c s ++ String d "").
  rewrite str_rev_snoc, (str_lstrip_rev_head d _ Hd).
  now rewrite <- str_rev_snoc, str_rev_involutive.
Qed.

Lemma hex40_fullmatch_spec (v : string) :
  hex40_fullmatch v = true <-> exists body, v = "0x" ++ body /\ hex40 body.
Proof.
  unfold hex40_fullmatch, hex40. rewrite andb_true_iff, re_fullmatch_class_spec. split.
  - intros [(t & ->)%str_startswith_spec H]. exists t. split; [reflexivity | exact H].
  - intros (body & -> & H). split; [| exact H]. apply str_startswith_spec. eauto.
Qed.

Lemma hex40_snoc (body : string) :
  hex40 body -> exists s d, body = s ++ String d "" /\ token d = true /\ str_forall token s = true.
Proof.
  intros [Hlen Hhex].
  assert (str_forall token body = true) as Ht
    by (eapply str_forall_impl; [apply is_hex_token | exact Hhex]).
  clear Hhex. destruct body as [| c body]; [discriminate |]. clear Hlen.
  revert c Ht. induction body as [| c' body IH]; intros c Ht.
  - exists "", c. rewrite str_forall_cons in Ht. apply andb_prop in Ht as [Hc _]. auto.
  - rewrite str_forall_cons in Ht. apply andb_prop in Ht as [Hc Ht].
    destruct (IH c' Ht) as (s & d & -> & Hd & Hs).
    exists (String c s), d. split; [reflexivity | split; [exact Hd |]].
    rewrite str_forall_cons, Hc. exact Hs.
Qed.

Lemma str_strip_chars_none (p : ascii -> bool) (s : string) :
  str_forall (fun c => negb (p c)) s = true -> str_strip_chars p s = s.
Proof.
  assert (forall t, str_forall (fun c => negb (p c)) t = true -> str_lstrip_chars p t = t) as Hl.
  { intros [| c t]; [reflexivity |]. rewrite str_forall_cons.
    intros [Hc _]%andb_prop. apply str_lstrip_chars_head. now destruct (p c). }
  intros H. unfold str_strip_chars. rewrite (Hl s H).
  rewrite Hl by now rewrite str_forall_rev. apply str_rev_involutive.
Qed.

Lemma str_snoc (s : string) : s <> "" -> exists t d, s = t ++ String d "".
Proof.
  induction s as [| c s IH]; [congruence |]. intros _.
  destruct s as [| c' s'].
  - now exists "", c.
  - destruct IH as (t & d & ->); [discriminate |]. now exists (String c t), d.
Qed.

(** The cleaning steps of [_clean_address] on an address written with
    blanks between its digits. *)
Lemma clean_spaced (nfkc : string -> string) (left sep right : string) :
  (forall s, ascii_only s = true -> nfkc s = s) ->
  str_forall token left = true -> str_forall token right = true -> right <> "" ->
  str_forall ascii_space sep = true ->
  str_remove_spaces
    (str_strip_chars (byte_is 34)
       (str_strip_chars (byte_is 39) (str_strip (nfkc ("0x" ++ left ++ sep ++ right))))) =
  "0x" ++ left ++ right.
Proof.
  intros nfkc_ascii Hl Hr Hne Hsep.
  rewrite nfkc_ascii.
  2:{ unfold ascii_only. rewrite !str_forall_app.
      rewrite (str_forall_impl token _ left token_ascii Hl).
      rewrite (str_forall_impl token _ right token_ascii Hr).
      rewrite (str_forall_impl ascii_space (byte_in 0 127) sep); [reflexivity | | exact Hsep].
      intros c Hc. apply byte_in_spec. unfold ascii_space in Hc.
      rewrite !orb_true_iff, !byte_in_spec, byte_is_spec in Hc. lia. }
  destruct (str_snoc right Hne) as (t & d & ->).
  assert (token d = true) as Hd.
  { rewrite str_forall_app, (str_forall_cons token d "") in Hr.
    apply andb_prop in Hr as [_ Hr]. now apply andb_prop in Hr as [Hr _]. }
  assert ("0x" ++ left ++ sep ++ t ++ String d "" =
          String "0" (("x" ++ left ++ sep ++ t) ++ String d "")) as Hshape.
  { change ("0x" ++ left ++ sep ++ t ++ String d "")
      with (String "0" ("x" ++ left ++ sep ++ t ++ String d "")).
    f_equal. now rewrite !str_app_assoc. }
  rewrite Hshape.
  rewrite (str_strip_ends "0" d) by (first [reflexivity | exact Hd]).
  rewrite (str_strip_chars_ends (byte_is 39) "0" d) by
    (first [reflexivity | now apply token_not_char]).
  rewrite (str_strip_chars_ends (byte_is 34) "0" d) by
    (first [reflexivity | now apply token_not_char]).
  rewrite <- Hshape.
  change ("0x" ++ left ++ sep ++ t ++ String d "")
    with (String "0" (String "x" left ++ sep ++ t ++ String d "")).
  rewrite (str_remove_spaces_token_cons "0") by reflexivity.
  rewrite (str_remove_spaces_app (String "x" left) sep (t ++ String d "")).
  - now rewrite (str_remove_spaces_token _ Hr).
  - rewrite str_forall_cons, Hl. reflexivity.
  - exact Hsep.
Qed.

Lemma clean_token_address (nfkc : string -> string) (s : string) :
  (forall s, ascii_only s = true -> nfkc s = s) ->
  str_forall token s = true ->
  str_remove_spaces
    (str_strip_chars (byte_is 34) (str_strip_chars (byte_is 39) (str_strip (nfkc s)))) = s.
Proof.
  intros nfkc_ascii Ht.
  rewrite nfkc_ascii by (eapply str_forall_impl; [apply token_ascii | exact Ht]).
  rewrite str_strip_token by exact Ht.
  assert (forall n, (n < 48)%N -> str_strip_chars (byte_is n) s = s) as Hq.
  { intros n Hn. apply str_strip_chars_none.
    eapply str_forall_impl; [| exact Ht]. intros c Hc. now rewrite token_not_char. }
  rewrite !Hq by reflexivity. now apply str_remove_spaces_token.
Qed.

Lemma hex_token_str (s : string) : str_forall is_hex s = true -> str_forall token s = true.
Proof. apply str_forall_impl, is_hex_token. Qed.

Lemma clean_address_plain (nfkc py_repr : string -> string) (body : string) :
  (forall s, ascii_only s = true -> nfkc s = s) ->
  hex40 body -> clean_address nfkc py_repr ("0x" ++ body) = Ok ("0x" ++ body).
Proof.
  intros nfkc_ascii Hb. unfold clean_address. cbv zeta.
  rewrite (clean_token_address nfkc _ nfkc_ascii)
    by (rewrite str_forall_app, (hex_token_str body (proj2 Hb)); reflexivity).
  now rewrite (proj2 (hex40_fullmatch_spec _)) by eauto.
Qed.

(** X9. [_clean_address] returns 0x followed by 40 hexadecimal digits, in
    the case they were written in, or raises ValueError.  It returns such an
    address unchanged, also when whitespace splits its digits; it rejects
    the digits alone and the prefix 0X, which [normalize_hash] and
    [_to_bytes32] accept. *)
Theorem X9_clean_address (nfkc py_repr : string -> string) :
  (forall s, ascii_only s = true -> nfkc s = s) ->
  (forall value v, clean_address nfkc py_repr value = Ok v ->
     exists body, v = "0x" ++ body /\ hex40 body) /\
  (forall value e, clean_address nfkc py_repr value = Raise e -> exc_type e = "ValueError") /\
  (forall value v, clean_address nfkc py_repr value = Ok v ->
     clean_address nfkc py_repr v = Ok v) /\
  (forall left sep right, hex40 (left ++ right) -> right <> "" ->
     str_forall ascii_space sep = true ->
     clean_address nfkc py_repr ("0x" ++ left ++ sep ++ right) = Ok ("0x" ++ left ++ right)) /\
  (forall body, hex40 body ->
     (exists e, clean_address nfkc py_repr body = Raise e) /\
     (exists e, clean_address nfkc py_repr ("0X" ++ body) = Raise e)).
Proof.
  intros nfkc_ascii.
  assert (forall value v, clean_address nfkc py_repr value = Ok v ->
            exists body, v = "0x" ++ body /\ hex40 body) as Hshape.
  { intros value v. unfold clean_address. cbv zeta.
    destruct (hex40_fullmatch _) eqn:E; [| discriminate].
    intros [= <-]. now apply hex40_fullmatch_spec. }
  split; [exact Hshape | split; [| split; [| split]]].
  - intros value e. unfold clean_address. cbv zeta.
    destruct (negb _); [| discriminate]. now intros [= <-].
  - intros value v (body & -> & Hb)%Hshape. now apply clean_address_plain.
  - intros left sep right [Hlen Hhex] Hne Hsep.
    pose proof Hhex as Hhex'. rewrite str_forall_app in Hhex'.
    apply andb_prop in Hhex' as [Hl Hr].
    unfold clean_address. cbv zeta.
    rewrite (clean_spaced nfkc left sep right nfkc_ascii
               (hex_token_str _ Hl) (hex_token_str _ Hr) Hne Hsep).
    rewrite (proj2 (hex40_fullmatch_spec _)); [reflexivity |].
    exists (left ++ right). split; [reflexivity | split; assumption].
  - intros body [Hlen Hhex]. pose proof (hex_token_str body Hhex) as Ht.
    split; eexists; unfold clean_address; cbv zeta.
    + rewrite (clean_token_address nfkc body nfkc_ascii Ht).
      unfold hex40_fullmatch.
      pose proof (hex_no_prefix body Hhex) as Hno.
      apply orb_false_elim in Hno as [-> _]. reflexivity.
    + rewrite (clean_token_address nfkc ("0X" ++ body) nfkc_ascii)
        by (rewrite str_forall_app, Ht; reflexivity).
      reflexivity.
Qed.

Lemma X9_witness :
  clean_address nfkc_fragment (fun s => s) example_address = Ok example_address /\
  clean_address nfkc_fragment (fun s => s)
    ("0x" ++ "52908400" ++ " " ++ "098527886E0F7030069857D2E4169EE7") = Ok example_address.
Proof.
  destruct (X9_clean_address nfkc_fragment (fun s => s) nfkc_fragment_ascii)
    as (_ & _ & Hidem & Hsp & _).
  split.
  - apply (Hidem (" '" ++ example_address ++ "' ")). vm_compute. reflexivity.
  - apply (Hsp "52908400" " " "098527886E0F7030069857D2E4169EE7");
      [split; vm_compute; reflexivity | discriminate | reflexivity].
Defined.

(** ** When the canonical serialisation raises *)

Lemma all_of_Forall {A} (P : A -> Prop) (l : list A) : all_of P l <-> Forall P l.
Proof.
  induction l as [| x l IH]; cbn.
  - split; [constructor | trivial].
  - rewrite IH. split; [intros [H1 H2]; now constructor | now inversion 1].
Qed.

Lemma sequence_Ok {E A} (l : list (result E A)) :
  (exists r, sequence l = Ok r) <-> Forall (fun m => exists a, m = Ok a) l.
Proof.
  induction l as [| m l IH]; cbn [sequence].
  - split; [constructor | eauto].
  - split.
    + intros [r H]. destruct m as [a | e]; [| discriminate]. cbn in H.
      destruct (sequence l) as [r' | e]; [| discriminate].
      constructor; [eauto | apply IH; eauto].
    + inversion 1 as [| ? ? [a ->] Hl]; subst. apply IH in Hl as [r ->]. cbn. eauto.
Qed.

Lemma uniform_map {V W} (f : V -> W) (l : list (json_key * V)) :
  uniform (map (fun kv => (fst kv, f (snd kv))) l) <-> uniform l.
Proof.
  unfold uniform. split; intros H a b Ha Hb.
  - apply (H (fst a, f (snd a)) (fst b, f (snd b))); apply in_map_iff; eauto.
  - apply in_map_iff in Ha as (a' & <- & Ha'). apply in_map_iff in Hb as (b' & <- & Hb').
    cbn. now apply H.
Qed.

Lemma Forall_perm {A} (P : A -> Prop) (l l' : list A) :
  Permutation l l' -> Forall P l -> Forall P l'.
Proof.
  intros Hp H. apply List.Forall_forall. intros x Hx.
  rewrite List.Forall_forall in H. apply H.
  eapply Permutation_in; [symmetry; exact Hp | exact Hx].
Qed.

Lemma encode_items_Ok (l : list (json_key * result json_error string)) :
  (exists r, sequence (map encode_item l) = Ok r) <->
  Forall (fun kv => exists s, snd kv = Ok s) l.
Proof.
  rewrite sequence_Ok, List.Forall_map. split; apply List.Forall_impl; intros [k m]; cbn.
  - intros [a H]. unfold encode_item in H. cbn in H. destruct m; [eauto | discriminate].
  - intros [s ->]. unfold encode_item. cbn. eauto.
Qed.

Lemma dumps_result (float_repr : Q -> string) (v : json) :
  (exists text, dumps float_repr v = Ok text) \/ dumps float_repr v = Raise TypeError.
Proof.
  destruct (dumps float_repr v) as [text | []]; eauto.
Qed.

Lemma dumps_Ok (float_repr : Q -> string) (v : json) :
  (exists text, dumps float_repr v = Ok text) <-> uniform_keys v.
Proof.
  induction v as [| b | n | q | s | elems IH | items IH] using json_nested_ind;
    cbn [dumps uniform_keys]; try solve [split; [trivial | eauto]].
  - rewrite all_of_Forall.
    assert ((exists parts, sequence (map (dumps float_repr) elems) = Ok parts) <->
            Forall uniform_keys elems) as <-.
    { rewrite sequence_Ok, List.Forall_map.
      split; intros H; (eapply List.Forall_impl; [| exact (List.Forall_and IH H)]);
        cbn; intros a [Ha Hb]; now apply Ha. }
    split.
    + intros [text H]. destruct (sequence _) as [parts |]; [eauto | discriminate].
    + intros [parts ->]. cbn. eauto.
  - rewrite all_of_Forall.
    set (l := map (fun kv => (fst kv, dumps float_repr (snd kv))) items).
    assert (Forall (fun kv => exists s, snd kv = Ok s) l <->
            Forall (fun kv => uniform_keys (snd kv)) items) as Hvals.
    { subst l. rewrite List.Forall_map.
      split; intros H; (eapply List.Forall_impl; [| exact (List.Forall_and IH H)]);
        cbn; intros a [Ha Hb]; now apply Ha. }
    rewrite <- (uniform_map (dumps float_repr) items). fold l.
    destruct (sorted_items_spec l) as [[Hu ->] | [Hu ->]]; cbn.
    + rewrite <- Hvals. split.
      * intros [text H]. split; [exact Hu |].
        apply (Forall_perm _ (isort l)); [symmetry; apply isort_perm |].
        apply encode_items_Ok.
        destruct (sequence _) as [parts |]; [eauto | discriminate].
      * intros [_ H]. apply (Forall_perm _ _ _ (isort_perm l)) in H.
        apply encode_items_Ok in H as [parts ->]. cbn. eauto.
    + split; [intros [text H]; discriminate | tauto].
Qed.

(** X10. The canonical serialisation with sorted keys raises TypeError
    exactly when some dictionary of the value, at any depth, has both a
    string key and an integer key; on every other value it returns a
    text. *)
Theorem X10_dumps_raises_on_mixed_keys (float_repr : Q -> string) (v : json) :
  ((exists text, dumps float_repr v = Ok text) <-> uniform_keys v) /\
  (dumps float_repr v = Raise TypeError <-> ~ uniform_keys v) /\
  dumps float_repr mixed_keys = Raise TypeError /\
  dumps float_repr (JList [JDict [(KStr "a", mixed_keys)]]) = Raise TypeError.
Proof.
  split; [apply dumps_Ok | split; [| split; reflexivity]].
  rewrite <- dumps_Ok. destruct (dumps_result float_repr v) as [[text H] | H]; rewrite H.
  - split; [discriminate | intros Hn; exfalso; eauto].
  - split; [intros _ [text' H']; congruence | reflexivity].
Qed.

Lemma uniform_all_str {V} (l : list (json_key * V)) :
  Forall (fun kv => exists s, fst kv = KStr s) l -> uniform l.
Proof.
  rewrite List.Forall_forall. intros H a b Ha Hb.
  destruct (H a Ha) as [s ->], (H b Hb) as [t ->]. reflexivity.
Qed.

Lemma uniform_all_int {V} (l : list (json_key * V)) :
  Forall (fun kv => exists n, fst kv = KInt n) l -> uniform l.
Proof.
  rewrite List.Forall_forall. intros H a b Ha Hb.
  destruct (H a Ha) as [s ->], (H b Hb) as [t ->]. reflexivity.
Qed.

Lemma build_report_uniform (company now_iso : string) (safeguards : list safeguard)
    (respostas_by_id : gmap string string) (maturity : dict control_maturity)
    (cmmi_avg : Q) :
  uniform_keys (build_report company now_iso safeguards respostas_by_id maturity cmmi_avg).
Proof.
  unfold build_report. cbn [uniform_keys all_of fold_right snd].
  split; [apply uniform_all_str; repeat constructor; cbn; eauto |].
  repeat split.
  - apply all_of_Forall, List.Forall_map, List.Forall_forall. intros s _.
    cbn. repeat split. apply uniform_all_str. repeat constructor; cbn; eauto.
  - apply uniform_all_str, List.Forall_map, List.Forall_forall. intros kv _. cbn. eauto.
  - apply all_of_Forall, List.Forall_map, List.Forall_forall. intros kv _. exact I.
  - apply uniform_all_int, List.Forall_map, List.Forall_forall. intros kv _. cbn. eauto.
  - apply all_of_Forall, List.Forall_map, List.Forall_forall. intros kv _.
    cbn. repeat split. apply uniform_all_str. repeat constructor; cbn; eauto.
Qed.

(** X11. On the report of the questionnaire, built from a catalogue whose
    controls are integers and whose other fields are texts, the
    serialisation with sorted keys never raises: no dictionary of the report
    mixes strings and integers among its keys, whatever the company name,
    the catalogue, the answers and the scores.  (Turning the text into bytes
    is another step, with a failure of its own on a text that has no
    encoding.)  The fingerprint [sha256_hex] makes of any bytes is taken by
    [_to_bytes32] to its 64 digits. *)
Theorem X11_report_dumps_never_raises (float_repr : Q -> string)
    (company now_iso : string) (safeguards : list safeguard)
    (respostas_by_id : gmap string string) (maturity : dict control_maturity)
    (cmmi_avg : Q) :
  let report := build_report company now_iso safeguards respostas_by_id maturity cmmi_avg in
  uniform_keys report /\
  (exists text, dumps float_repr report = Ok text) /\
  dumps float_repr report <> Raise TypeError /\
  forall data, to_bytes32 (sha256_hex data) = Ok (hexdigest (SHA256.digest data)).
Proof.
  intros report. pose proof (build_report_uniform company now_iso safeguards
                               respostas_by_id maturity cmmi_avg) as Hu.
  fold report in Hu.
  destruct (proj2 (dumps_Ok float_repr report) Hu) as [text Ht].
  split; [exact Hu | split; [eauto | split; [congruence |]]].
  intros data.
  destruct (fingerprint_shape (SHA256.digest data) (sha256_digest_length _)) as [Hlen Hhex].
  now apply to_bytes32_fingerprint.
Qed.

(** ** IPFS upload: which provider, how many requests, what is sent *)

Lemma sent_to_bearer (name url token : string) (rest : list (string * string)) (p : payload) :
  (forall value, In ("Authorization", value) rest -> False) ->
  sent_to (name, url, token) (Request url (bearer token :: rest) p).
Proof.
  intros Hrest. split; [reflexivity | split; [now left |]].
  cbn. intros value [[= <-] | Hin]; [reflexivity | destruct (Hrest _ Hin)].
Qed.

Lemma pinata_outcome (w : world) (cfg : config) (obj : json) :
  upload_outcome w ("pinata", PINATA_ENDPOINT cfg, PINATA_JWT cfg)
                 (ipfs_upload_json_pinata w cfg obj).
Proof.
  unfold ipfs_upload_json_pinata.
  destruct (String.eqb (PINATA_JWT cfg) ""); [left; cbn; eauto |].
  destruct (c ← py_get obj "company"; py_strip (py_or c (JStr "empresa")))
    as [company | e]; [| left; cbn; eauto].
  right. cbv zeta. eexists. split; [reflexivity | split].
  - apply sent_to_bearer. intros value [[=] | []].
  - cbn [fst]. intros cid url prov H.
    destruct (post w _) as [r |]; [| discriminate]. cbn in H.
    destruct (negb (resp_ok r)); [discriminate |].
    destruct (resp_json r) as [data |]; [| discriminate]. cbn in H.
    destruct (py_get data "IpfsHash") as [c |]; [| discriminate]. cbn in H.
    destruct (truthy c) eqn:Hc; [| discriminate]. cbn in H.
    injection H as <- <- <-. auto.
Qed.

Lemma multipart_outcome (w : world) (name url token : string) (b : list byte)
    (cid_of : json -> result exception json) (complaint : json -> string) :
  upload_outcome w (name, url, token)
    (let '(r, sent) := post_multipart w url token "relatorio.json" b in
     (j ← r;
      cid ← cid_of j;
      if negb (truthy cid) then Raise (RuntimeError (complaint j))
      else Ok (cid, "ipfs://" ++ format w cid, name),
      sent)).
Proof.
  right. unfold post_multipart. cbv zeta. eexists. split; [reflexivity | split].
  - apply sent_to_bearer. intros value [].
  - cbn [fst]. intros cid url' prov H.
    destruct (post w _) as [r |]; [| discriminate]. cbn in H.
    destruct (negb (resp_ok r)); [discriminate |]. cbn in H.
    destruct (resp_json r) as [j |]; [| discriminate]. cbn in H.
    destruct (cid_of j) as [c |]; [| discriminate]. cbn in H.
    destruct (truthy c) eqn:Hc; [| discriminate]. cbn in H.
    injection H as <- <- <-. auto.
Qed.

Lemma str_startswith_nonempty (p s : string) :
  p <> "" -> str_startswith p s = true -> String.eqb s "" = false.
Proof.
  destruct p as [| a p]; [congruence |]. intros _. now destruct s.
Qed.

(** X12. [ipfs_upload_json_auto] uses the first provider that is
    configured, in the order Pinata (a non-empty PINATA_JWT), NFT.Storage (a
    token that starts with eyJ), Web3.Storage (a non-empty token), and
    raises the no-provider RuntimeError without sending anything when there
    is none.  Whatever the provider answers, at most one request is sent; it
    goes to the endpoint of the selected provider with that provider's token,
    so a failure of the selected provider is never followed by a request to
    another.  A result names the selected provider, comes after exactly one
    request, and carries a non-empty content identifier with its ipfs://
    address. *)
Theorem X12_upload_uses_first_configured_provider (w : world) (cfg : config) (obj : json) :
  let r := ipfs_upload_json_auto w cfg obj in
  (length (snd r) <= 1)%nat /\
  match selected cfg with
  | None => r = (Raise (RuntimeError no_provider), [])
  | Some provider =>
      Forall (sent_to provider) (snd r) /\
      forall cid url prov, fst r = Ok (cid, url, prov) ->
        prov = fst (fst provider) /\ length (snd r) = 1%nat /\
        truthy cid = true /\ url = "ipfs://" ++ format w cid
  end.
Proof.
  intros r0.
  assert (forall r provider, upload_outcome w provider r ->
            (length (snd r) <= 1)%nat /\
            Forall (sent_to provider) (snd r) /\
            forall cid url prov, fst r = Ok (cid, url, prov) ->
              prov = fst (fst provider) /\ length (snd r) = 1%nat /\
              truthy cid = true /\ url = "ipfs://" ++ format w cid) as Hout.
  { intros r provider [[Hs [e He]] | (req & Hs & Hto & Hok)]; rewrite Hs.
    - split; [cbn; lia | split; [constructor |]]. intros cid url prov H. congruence.
    - split; [cbn; lia | split; [constructor; [exact Hto | constructor] |]].
      intros cid url prov H. destruct (Hok cid url prov H) as (? & ? & ?). auto. }
  assert (forall e : exception, upload_outcome w
            ("nft.storage", NFT_STORAGE_API cfg, NFT_STORAGE_TOKEN cfg) (Raise e, []))
    as Hraise1 by (intros e; left; cbn; eauto).
  assert (forall e : exception, upload_outcome w
            ("web3.storage", web3_storage_url, WEB3_STORAGE_TOKEN cfg) (Raise e, []))
    as Hraise2 by (intros e; left; cbn; eauto).
  subst r0. unfold ipfs_upload_json_auto, selected.
  destruct (negb (String.eqb (PINATA_JWT cfg) "")).
  { apply Hout, pinata_outcome. }
  destruct (str_startswith "eyJ" (NFT_STORAGE_TOKEN cfg)) eqn:Hnft.
  { rewrite (str_startswith_nonempty "eyJ" _ ltac:(discriminate) Hnft). cbn [negb andb].
    apply Hout. destruct (dumps_bytes w obj) as [b | e]; [| apply Hraise1].
    apply multipart_outcome. }
  rewrite andb_false_r.
  destruct (negb (String.eqb (WEB3_STORAGE_TOKEN cfg) "")).
  { apply Hout. destruct (dumps_bytes w obj) as [b | e]; [| apply Hraise2].
    apply (multipart_outcome w "web3.storage" web3_storage_url (WEB3_STORAGE_TOKEN cfg) b
             (fun j => c ← py_get j "cid"; if truthy c then Ok c else value_cid j)). }
  split; [cbn; lia | reflexivity].
Qed.

Lemma X12_witness :
  let r := ipfs_upload_json_auto (example_world nft_answer) nft_config example_report in
  fst r = Ok (JStr "bafy", "ipfs://bafy", "nft.storage") /\ length (snd r) = 1%nat.
Proof.
  intros r.
  assert (fst r = Ok (JStr "bafy", "ipfs://bafy", "nft.storage")) as H
    by (vm_compute; reflexivity).
  split; [exact H |].
  pose proof (X12_upload_uses_first_configured_provider
                (example_world nft_answer) nft_config example_report) as [_ Hsel].
  change (selected nft_config)
    with (Some ("nft.storage", "https://api.nft.storage/upload", "eyJhbGciOi")) in Hsel.
  destruct Hsel as [_ Hok]. now destruct (Hok _ _ _ H) as (_ & Hlen & _).
Defined.

Lemma canonical_bytes_fingerprint (float_repr : Q -> string) (obj : json) (b : list byte) :
  canonical_bytes float_repr obj = Ok b ->
  report_fingerprint float_repr obj = Ok (sha256_hex b).
Proof.
  unfold canonical_bytes, report_fingerprint.
  destruct (dumps float_repr obj) as [text |]; [| discriminate]. cbn.
  now intros [= <-].
Qed.

Lemma dumps_bytes_Ok (w : world) (obj : json) (b : list byte) :
  dumps_bytes w obj = Ok b -> canonical_bytes (float_text w) obj = Ok b.
Proof.
  unfold dumps_bytes. destruct (canonical_bytes _ obj) as [b' | []]; [| discriminate].
  now intros [= <-].
Qed.

Lemma dumps_bytes_mixed (w : world) (obj : json) :
  ~ uniform_keys obj -> exists e, dumps_bytes w obj = Raise e.
Proof.
  intros H. unfold dumps_bytes, canonical_bytes.
  destruct (dumps (float_text w) obj) as [text | []] eqn:E; cbn; [| eauto].
  exfalso. apply H. apply (dumps_Ok (float_text w)). eauto.
Qed.

(** X13. What is uploaded.  To NFT.Storage and to Web3.Storage, from
    [ipfs_upload_json_auto] and from [upload_json_to_ipfs], the request
    carries the file relatorio.json whose bytes are the canonical bytes of
    the report, those the fingerprint is the SHA-256 of; a report that cannot
    be serialised raises before anything is sent.  To Pinata the report goes
    as the pinataContent field of a JSON body, beside a name, not as these
    bytes. *)
Theorem X13_upload_payload (w : world) (cfg : config) (obj : json) :
  (PINATA_JWT cfg = "" ->
   (forall req, In req (snd (ipfs_upload_json_auto w cfg obj)) -> canonical_file w obj req) /\
   (~ uniform_keys obj -> snd (ipfs_upload_json_auto w cfg obj) = [])) /\
  (forall token,
     (forall req, In req (snd (upload_json_to_ipfs w token obj)) -> canonical_file w obj req) /\
     (~ uniform_keys obj -> snd (upload_json_to_ipfs w token obj) = [])) /\
  (PINATA_JWT cfg <> "" ->
   forall req, In req (snd (ipfs_upload_json_auto w cfg obj)) ->
     exists name, req_payload req =
       JsonPayload (JDict [(KStr "pinataContent", obj);
                           (KStr "pinataMetadata", JDict [(KStr "name", JStr name)])])).
Proof.
  assert (forall b url token, canonical_bytes (float_text w) obj = Ok b ->
            canonical_file w obj
              (Request url [bearer token]
                       (FilePayload "relatorio.json" b "application/json"))) as Hfile.
  { intros b url token Hb. exists b. cbn.
    split; [reflexivity | split; [exact Hb | now apply canonical_bytes_fingerprint]]. }
  split; [| split].
  - intros Hjwt. unfold ipfs_upload_json_auto, post_multipart. rewrite Hjwt.
    cbn [String.eqb negb].
    destruct (_ && _).
    { split.
      - destruct (dumps_bytes w obj) as [b |] eqn:Hb; [| intros req []].
        intros req [<- | []]. apply Hfile, dumps_bytes_Ok, Hb.
      - intros [e ->]%(dumps_bytes_mixed w). reflexivity. }
    destruct (negb _).
    { split.
      - destruct (dumps_bytes w obj) as [b |] eqn:Hb; [| intros req []].
        intros req [<- | []]. apply Hfile, dumps_bytes_Ok, Hb.
      - intros [e ->]%(dumps_bytes_mixed w). reflexivity. }
    split; [intros req [] | reflexivity].
  - intros token. unfold upload_json_to_ipfs.
    destruct token as [token |]; [| split; [intros req [] | reflexivity]].
    destruct (String.eqb token ""); [split; [intros req [] | reflexivity] |].
    split.
    + destruct (dumps_bytes w obj) as [b |] eqn:Hb; [| intros req []].
      intros req [<- | []]. apply Hfile, dumps_bytes_Ok, Hb.
    + intros [e ->]%(dumps_bytes_mixed w). reflexivity.
  - intros Hjwt. unfold ipfs_upload_json_auto, ipfs_upload_json_pinata.
    destruct (String.eqb_spec (PINATA_JWT cfg) ""); [contradiction |]. cbn [negb].
    destruct (c ← py_get obj "company"; py_strip (py_or c (JStr "empresa")))
      as [company | e]; [| intros req []].
    intros req [<- | []]. cbn. eauto.
Qed.

Lemma X13_witness :
  exists req,
    snd (ipfs_upload_json_auto (example_world nft_answer) nft_config example_report) = [req] /\
    canonical_file (example_world nft_answer) example_report req.
Proof.
  destruct (X13_upload_payload (example_world nft_answer) nft_config example_report)
    as [H _]. destruct (H eq_refl) as [Hfile _].
  eexists. split; [vm_compute; reflexivity |]. apply Hfile.
  vm_compute. left. reflexivity.
Defined.



Lemma str_strip_blank (s : string) : str_forall ascii_space s = true -> str_strip s = "".
Proof.
  intros H. unfold str_strip.
  assert (str_lstrip s = "") as ->; [| reflexivity].
  induction s as [| c s IH]; [reflexivity |].
  rewrite str_forall_cons in H. apply andb_prop in H as [Hc Hs].
  cbn [str_lstrip]. rewrite Hc. now apply IH.
Qed.

Lemma env_setting_blank (env : gmap string string) (name : string) :
  blank env name -> env_setting env name "" = "".
Proof.
  unfold blank, env_setting. destruct (env !! name) as [v |]; [| reflexivity].
  intros H. destruct (String.eqb v ""); [reflexivity | now apply str_strip_blank].
Qed.

(** X15. A provider whose variable is unset, empty or made of blanks is not
    configured: when this holds of PINATA_JWT, NFT_STORAGE_TOKEN and
    WEB3_STORAGE_TOKEN the upload raises the no-provider error and sends
    nothing; an endpoint that is unset or empty is the provider's default
    address. *)
Theorem X15_blank_settings_are_unset (env : gmap string string) (w : world) (obj : json) :
  (blank env "PINATA_JWT" -> PINATA_JWT (load_config env) = "") /\
  (blank env "PINATA_JWT" -> blank env "NFT_STORAGE_TOKEN" -> blank env "WEB3_STORAGE_TOKEN" ->
   ipfs_upload_json_auto w (load_config env) obj = (Raise (RuntimeError no_provider), [])) /\
  (env !! "PINATA_ENDPOINT" = None \/ env !! "PINATA_ENDPOINT" = Some "" ->
   PINATA_ENDPOINT (load_config env) = "https://api.pinata.cloud/pinning/pinJSONToIPFS") /\
  (env !! "NFT_STORAGE_API" = None \/ env !! "NFT_STORAGE_API" = Some "" ->
   NFT_STORAGE_API (load_config env) = "https://api.nft.storage/upload").
Proof.
  split; [apply env_setting_blank | split; [| split]].
  - intros H1 H2 H3. unfold ipfs_upload_json_auto, load_config. cbn [PINATA_JWT
      NFT_STORAGE_TOKEN WEB3_STORAGE_TOKEN].
    now rewrite (env_setting_blank env _ H1), (env_setting_blank env _ H2),
      (env_setting_blank env _ H3).
  - unfold load_config, env_setting. cbn [PINATA_ENDPOINT].
    intros [-> | ->]; vm_compute; reflexivity.
  - unfold load_config, env_setting. cbn [NFT_STORAGE_API].
    intros [-> | ->]; vm_compute; reflexivity.
Qed.

Lemma X15_witness :
  ipfs_upload_json_auto (example_world web3_answer)
    (load_config (<["PINATA_JWT" := "  "]> (<["WEB3_STORAGE_TOKEN" := ""]> ∅))) example_report =
  (Raise (RuntimeError no_provider), []).
Proof.
  apply X15_blank_settings_are_unset; vm_compute; reflexivity.
Defined.

(** ** File-name slugs *)

Lemma str_lstrip_chars_no_lead (p : ascii -> bool) (s : string) :
  no_lead p (str_lstrip_chars p s).
Proof.
  induction s as [| c s IH]; cbn; [exact I |].
  destruct (p c) eqn:E; [exact IH | exact E].
Qed.

Lemma no_lead_lstrip (p : ascii -> bool) (s : string) :
  no_lead p s -> str_lstrip_chars p s = s.
Proof. destruct s as [| c s]; cbn; [reflexivity | now intros ->]. Qed.

Lemma str_lstrip_chars_suffix (p : ascii -> bool) (s : string) :
  exists pre, s = pre ++ str_lstrip_chars p s.
Proof.
  induction s as [| c s [pre IH]]; [now exists "" |]. cbn.
  destruct (p c); [| now exists ""].
  exists (String c pre). change (String c pre ++ ?t) with (String c (pre ++ t)).
  now rewrite <- IH.
Qed.

Lemma str_rev_app (s t : string) : str_rev (s ++ t) = str_rev t ++ str_rev s.
Proof.
  induction s as [| c s IH].
  - change ("" ++ t) with t. unfold str_rev at 3. cbn.
    induction (str_rev t) as [| d u IHu]; [reflexivity |].
    change (String d u ++ "") with (String d (u ++ "")). now rewrite <- IHu.
  - change (String c s ++ t) with (String c (s ++ t)).
    now rewrite !str_rev_cons, IH, str_app_assoc.
Qed.

Lemma no_lead_strip_step (p : ascii -> bool) (x : string) :
  no_lead p x -> no_lead p (str_rev (str_lstrip_chars p (str_rev x))).
Proof.
  intros Hx. destruct (str_lstrip_chars_suffix p (str_rev x)) as [pre Hpre].
  set (y := str_lstrip_chars p (str_rev x)) in *.
  assert (x = str_rev y ++ str_rev pre) as Hxy
    by now rewrite <- str_rev_app, <- Hpre, str_rev_involutive.
  destruct (str_rev y) as [| c t]; [exact I |].
  rewrite Hxy in Hx. exact Hx.
Qed.

Lemma str_strip_chars_no_lead (p : ascii -> bool) (s : string) :
  no_lead p (str_strip_chars p s).
Proof. apply no_lead_strip_step, str_lstrip_chars_no_lead. Qed.

Lemma str_strip_chars_idem (p : ascii -> bool) (s : string) :
  str_strip_chars p (str_strip_chars p s) = str_strip_chars p s.
Proof.
  pose proof (str_strip_chars_no_lead p s) as Hz.
  unfold str_strip_chars in *.
  rewrite (no_lead_lstrip p _ Hz), str_rev_involutive.
  now rewrite (no_lead_lstrip p _ (str_lstrip_chars_no_lead p _)).
Qed.

Lemma str_lstrip_chars_forall (p q : ascii -> bool) (s : string) :
  str_forall q s = true -> str_forall q (str_lstrip_chars p s) = true.
Proof.
  induction s as [| c s IH]; [reflexivity |]. intros H. cbn [str_lstrip_chars].
  destruct (p c); [| exact H].
  rewrite str_forall_cons in H. apply andb_prop in H as [_ H]. now apply IH.
Qed.

Lemma str_strip_chars_forall (p q : ascii -> bool) (s : string) :
  str_forall q s = true -> str_forall q (str_strip_chars p s) = true.
Proof.
  intros H. unfold str_strip_chars.
  rewrite str_forall_rev. apply str_lstrip_chars_forall.
  rewrite str_forall_rev. now apply str_lstrip_chars_forall.
Qed.

Lemma sub_runs_slug (in_run : bool) (s : string) :
  str_forall slug_char (sub_runs in_run s) = true.
Proof.
  revert in_run. induction s as [| c s IH]; intros in_run; [reflexivity |].
  cbn [sub_runs]. destruct (slug_char c) eqn:E.
  - now rewrite str_forall_cons, E, IH.
  - destruct in_run; [apply IH |]. now rewrite str_forall_cons, IH.
Qed.

Lemma str_filter_all (p : ascii -> bool) (s : string) :
  str_forall p s = true -> str_filter p s = s.
Proof.
  induction s as [| c s IH]; [reflexivity |].
  rewrite str_forall_cons. intros [Hc Hs]%andb_prop. cbn. now rewrite Hc, IH.
Qed.

Lemma sub_runs_word (in_run : bool) (u t : string) :
  str_forall word_char u = true -> u <> "" ->
  sub_runs in_run (u ++ t) = u ++ sub_runs false t.
Proof.
  intros Hu Hne. destruct u as [| c u]; [congruence |]. clear Hne.
  revert in_run c Hu. induction u as [| d u IH]; intros in_run c Hu;
    rewrite str_forall_cons in Hu; apply andb_prop in Hu as [Hc Hu];
    apply andb_prop in Hc as [Hc _].
  - change (String c "" ++ t) with (String c t). cbn [sub_runs]. now rewrite Hc.
  - change (String c (String d u) ++ t) with (String c (String d u ++ t)).
    cbn [sub_runs]. rewrite Hc.
    change (String c (String d u) ++ sub_runs false t)
      with (String c (String d u ++ sub_runs false t)).
    f_equal. now apply IH.
Qed.

Lemma sub_runs_junk (junk t : string) (c : ascii) :
  str_forall (fun c => negb (slug_char c)) junk = true -> slug_char c = true ->
  sub_runs true (junk ++ String c t) = sub_runs false (String c t).
Proof.
  intros Hj Hc. induction junk as [| d junk IH].
  - change ("" ++ String c t) with (String c t). cbn [sub_runs]. now rewrite Hc.
  - rewrite str_forall_cons in Hj. apply andb_prop in Hj as [Hd Hj].
    change (String d junk ++ String c t) with (String d (junk ++ String c t)).
    cbn [sub_runs]. apply negb_true_iff in Hd. rewrite Hd. now apply IH.
Qed.

Lemma word_char_ascii (c : ascii) : word_char c = true -> byte_in 0 127 c = true.
Proof.
  unfold word_char, slug_char. rewrite andb_true_iff, !orb_true_iff, !byte_in_spec,
    !byte_is_spec. lia.
Qed.

(** X16. [slugify] returns a non-empty text of letters, digits, underscores
    and hyphens that neither begins nor ends with a hyphen.  Between two
    words, a run of other ASCII characters of any length becomes one hyphen,
    and a text with nothing left becomes "empresa". *)
Theorem X16_slugify (nfkd : string -> string) :
  (forall text,
     slugify nfkd text <> "" /\
     str_forall slug_char (slugify nfkd text) = true /\
     str_strip_chars (byte_is 45) (slugify nfkd text) = slugify nfkd text) /\
  (forall text, str_forall (fun c => negb (byte_in 0 127 c)) (nfkd text) = true ->
     slugify nfkd text = "empresa") /\
  (forall u junk v,
     (forall s, ascii_only s = true -> nfkd s = s) ->
     str_forall word_char u = true -> u <> "" ->
     str_forall word_char v = true -> v <> "" ->
     str_forall (fun c => byte_in 0 127 c && negb (slug_char c)) junk = true -> junk <> "" ->
     slugify nfkd (u ++ junk ++ v) = u ++ "-" ++ v).
Proof.
  split; [| split].
  - intros text. unfold slugify. cbv zeta.
    set (t := str_strip_chars (byte_is 45) _).
    destruct (String.eqb_spec t "") as [E | E].
    + split; [discriminate | split; vm_compute; reflexivity].
    + split; [exact E | split].
      * apply str_strip_chars_forall, sub_runs_slug.
      * apply str_strip_chars_idem.
  - intros text H. unfold slugify. cbv zeta.
    assert (str_filter (byte_in 0 127) (nfkd text) = "") as ->; [| reflexivity].
    induction (nfkd text) as [| c s IH]; [reflexivity |].
    rewrite str_forall_cons in H. apply andb_prop in H as [Hc Hs].
    cbn. apply negb_true_iff in Hc. rewrite Hc. now apply IH.
  - intros u junk v nfkd_ascii Hu Hune Hv Hvne Hj Hjne.
    assert (ascii_only (u ++ junk ++ v) = true) as Hascii.
    { unfold ascii_only. rewrite !str_forall_app.
      rewrite (str_forall_impl word_char _ u word_char_ascii Hu).
      rewrite (str_forall_impl word_char _ v word_char_ascii Hv).
      rewrite (str_forall_impl (fun c => byte_in 0 127 c && negb (slug_char c))
                 (byte_in 0 127) junk); [reflexivity | | exact Hj].
      intros c Hc. now apply andb_prop in Hc as [Hc _]. }
    unfold slugify. cbv zeta.
    rewrite nfkd_ascii, str_filter_all by exact Hascii.
    rewrite (sub_runs_word false u _ Hu Hune).
    destruct junk as [| j junk]; [congruence |].
    destruct v as [| c v]; [congruence |].
    rewrite str_forall_cons in Hj. apply andb_prop in Hj as [Hj0 Hj].
    apply andb_prop in Hj0 as [_ Hj0]. apply negb_true_iff in Hj0.
    assert (slug_char c = true) as Hc.
    { rewrite str_forall_cons in Hv. apply andb_prop in Hv as [Hc _].
      now apply andb_prop in Hc as [Hc _]. }
    change (String j junk ++ String c v) with (String j (junk ++ String c v)).
    cbn [sub_runs]. rewrite Hj0.
    rewrite (sub_runs_junk junk v c); [| | exact Hc].
    2:{ eapply str_forall_impl; [| exact Hj]. intros a Ha.
        now apply andb_prop in Ha as [_ Ha]. }
    assert (forall s, s ++ "" = s) as Hnil.
    { induction s as [| a s IH]; [reflexivity |].
      change (String a s ++ "") with (String a (s ++ "")). now rewrite IH. }
    assert (sub_runs false (String c v) = String c v) as ->.
    { rewrite <- (Hnil (String c v)) at 1.
      rewrite (sub_runs_word false (String c v) "" Hv ltac:(discriminate)).
      apply Hnil. }
    assert (str_strip_chars (byte_is 45) (u ++ String "-" (String c v)) =
            u ++ String "-" (String c v)) as ->.
    { destruct u as [| a u]; [congruence |].
      destruct (str_snoc (String c v) ltac:(discriminate)) as (t & d & Ht).
      assert (byte_is 45 a = false /\ byte_is 45 d = false) as [Ha Hd].
      { rewrite Ht, str_forall_app, (str_forall_cons word_char d "") in Hv.
        apply andb_prop in Hv as [_ Hv]. apply andb_prop in Hv as [Hd _].
        rewrite str_forall_cons in Hu. apply andb_prop in Hu as [Ha _].
        apply andb_prop in Ha as [_ Ha]. apply andb_prop in Hd as [_ Hd].
        now rewrite negb_true_iff in Ha, Hd. }
      rewrite Ht.
      assert (String a u ++ String "-" (t ++ String d "") =
              String a ((u ++ String "-" t) ++ String d "")) as ->.
      { change (String a u ++ ?x) with (String a (u ++ x)). f_equal.
        rewrite str_app_assoc. reflexivity. }
      now apply str_strip_chars_ends. }
    destruct u as [| a u]; [congruence |]. reflexivity.
Qed.

Lemma X16_witness :
  slugify (fun s => s) ("Minha" ++ " & " ++ "Empresa_LTDA") = "Minha-Empresa_LTDA".
Proof.
  destruct (X16_slugify (fun s => s)) as (_ & _ & H).
  apply (H "Minha" " & " "Empresa_LTDA");
    first [reflexivity | discriminate | intros s _; reflexivity].
Defined.

(** ** The answers of the questionnaire reach the scoring under their ids *)

Lemma str_delete_absent (old s : string) :
  str_contains old s = false -> str_delete_from old 0 s = s.
Proof.
  induction s as [| c s IH]; [reflexivity |].
  cbn [str_contains]. intros [Hs Hc]%orb_false_elim.
  cbn [str_delete_from]. rewrite Hs. now rewrite IH.
Qed.

Lemma str_delete_ans (sid : string) :
  str_contains "ans_" sid = false -> str_delete "ans_" ("ans_" ++ sid) = sid.
Proof.
  intros H. unfold str_delete.
  change ("ans_" ++ sid) with (String "a" (String "n" (String "s" (String "_" sid)))).
  cbn [str_delete_from].
  change (str_startswith "ans_" (String "a" (String "n" (String "s" (String "_" sid)))))
    with (str_startswith "" sid).
  replace (str_startswith "" sid) with true by now destruct sid.
  cbn [String.length Nat.sub]. now apply str_delete_absent.
Qed.

Lemma str_delete_from_length (old : string) (skip : nat) (s : string) :
  (String.length (str_delete_from old skip s) <= String.length s)%nat.
Proof.
  revert skip. induction s as [| c s IH]; intros skip; [cbn; lia |].
  cbn [str_delete_from]. destruct skip as [| k].
  - destruct (str_startswith old (String c s)).
    + specialize (IH (String.length old - 1)%nat). cbn [String.length]. lia.
    + specialize (IH 0%nat). cbn [String.length]. lia.
  - specialize (IH k). cbn [String.length]. lia.
Qed.

Lemma str_delete_shorter (old s : string) :
  old <> "" -> str_contains old s = true ->
  (String.length (str_delete_from old 0 s) < String.length s)%nat.
Proof.
  intros Hold. induction s as [| c s IH].
  - cbn. destruct old; [congruence | discriminate].
  - cbn [str_contains str_delete_from]. destruct (str_startswith old (String c s)).
    + intros _. pose proof (str_delete_from_length old (String.length old - 1) s).
      cbn [String.length]. lia.
    + cbn [orb]. intros H. specialize (IH H). cbn [String.length]. lia.
Qed.

Lemma fold_insert_other (answers : list (string * string)) (m : gmap string string)
    (sid : string) :
  (forall kv, In kv answers -> str_delete "ans_" (fst kv) <> sid) ->
  fold_left (fun m kv => <[str_delete "ans_" (fst kv) := snd kv]> m) answers m !! sid =
  m !! sid.
Proof.
  revert m. induction answers as [| kv answers IH]; intros m H; [reflexivity |].
  cbn [fold_left]. rewrite IH by (intros kv' Hin; apply H; now right).
  apply lookup_insert_ne. apply H. now left.
Qed.

Lemma str_app_inj (p s t : string) : p ++ s = p ++ t -> s = t.
Proof.
  induction p as [| c p IH]; [trivial |].
  change (String c p ++ ?x) with (String c (p ++ x)). intros [= H]. now apply IH.
Qed.

(** X17. The answers are handed to the scoring under the key the form gave
    them with every "ans_" removed.  When no safeguard id contains "ans_",
    each answer is found under its id; an id that contains "ans_" is not the
    key of its own answer. *)
Theorem X17_answers_keyed_by_id :
  (forall sid, str_contains "ans_" sid = false -> str_delete "ans_" ("ans_" ++ sid) = sid) /\
  (forall sid, str_contains "ans_" sid = true -> str_delete "ans_" ("ans_" ++ sid) <> sid) /\
  (forall session,
     NoDup (map fst session) ->
     (forall kv, In kv session ->
        exists sid, fst kv = "ans_" ++ sid /\ str_contains "ans_" sid = false) ->
     forall sid a, In ("ans_" ++ sid, a) session ->
       respostas_of_session session !! sid = Some a).
Proof.
  split; [exact str_delete_ans | split].
  - intros sid H Heq.
    assert (str_delete "ans_" ("ans_" ++ sid) = str_delete_from "ans_" 0 sid) as Hd.
    { unfold str_delete.
      change ("ans_" ++ sid) with (String "a" (String "n" (String "s" (String "_" sid)))).
      cbn [str_delete_from].
      change (str_startswith "ans_" (String "a" (String "n" (String "s" (String "_" sid)))))
        with (str_startswith "" sid).
      replace (str_startswith "" sid) with true by now destruct sid.
      reflexivity. }
    pose proof (str_delete_shorter "ans_" sid ltac:(discriminate) H) as Hlt.
    rewrite <- Hd, Heq in Hlt. lia.
  - intros session. unfold respostas_of_session. generalize (∅ : gmap string string).
    induction session as [| kv session IH]; intros m Hnd Hwf sid a Hin; [destruct Hin |].
    cbn [map] in Hnd. apply NoDup_cons in Hnd as [Hkv Hnd]. cbn [fold_left].
    destruct Hin as [-> | Hin].
    + cbn [fst snd]. destruct (Hwf _ (or_introl eq_refl)) as (sid0 & Hk & Hc).
      cbn [fst] in Hk. apply str_app_inj in Hk as <-.
      rewrite (str_delete_ans sid Hc), fold_insert_other; [apply lookup_insert_eq |].
      intros kv' Hin' Heq. destruct (Hwf kv' (or_intror Hin')) as (sid' & Hk' & Hc').
      rewrite Hk', (str_delete_ans sid' Hc') in Heq. subst sid'.
      apply Hkv. apply list_elem_of_In. cbn [fst]. rewrite <- Hk'.
      apply (in_map fst session kv' Hin').
    + apply IH; [exact Hnd | | exact Hin]. intros kv' Hin'. apply Hwf. now right.
Qed.

Lemma X17_witness :
  respostas_of_session [("ans_1.1", "Implementado"); ("ans_1.2", "Parcial")] !! "1.2" =
    Some "Parcial" /\
  str_delete "ans_" ("ans_" ++ "trans_1") <> "trans_1".
Proof.
  destruct X17_answers_keyed_by_id as (_ & Hlost & Hfound).
  split.
  - apply Hfound.
    + cbn. apply NoDup_cons. split; [| apply NoDup_singleton].
      intros H%list_elem_of_In. destruct H as [[=] | []].
    + intros kv [<- | [<- | []]]; eexists; (split; [reflexivity | vm_compute; reflexivity]).
    + right. now left.
  - apply Hlost. vm_compute. reflexivity.
Defined.

(** ** The text report of [hashing.py] *)

Lemma weight_known (f : Hashing.formats) (ans : string) :
  (Hashing.known ans /\ exists x, Hashing.weight f ans = Ok x) \/
  (~ Hashing.known ans /\ exists e, Hashing.weight f ans = Raise e /\ exc_type e = "KeyError").
Proof.
  unfold Hashing.weight, Hashing.known.
  destruct (String.eqb_spec ans "Implementado"); [left; eauto |].
  destruct (String.eqb_spec ans "Parcial"); [left; eauto |].
  destruct (String.eqb_spec ans "Nao implementado"); [left; eauto |].
  right. split; [tauto | eauto].
Qed.

Lemma report_loop_known (f : Hashing.formats) (items : list (json_key * string)) :
  Forall (fun kv => Hashing.known (snd kv)) items ->
  forall lines total, exists total',
    Hashing.report_loop f items lines total =
    Ok ((lines ++ map Hashing.question_line items)%list, total').
Proof.
  induction 1 as [| kv items Hkv _ IH]; intros lines total; cbn [Hashing.report_loop map].
  - exists total. now rewrite app_nil_r.
  - destruct (weight_known f (snd kv)) as [[_ [x ->]] | [Hn _]]; [| contradiction].
    cbn. destruct (IH (lines ++ [Hashing.question_line kv])%list (total + x)%Q) as [t ->].
    exists t. now rewrite <- app_assoc.
Qed.

Lemma report_loop_unknown (f : Hashing.formats) (items : list (json_key * string)) :
  ~ Forall (fun kv => Hashing.known (snd kv)) items ->
  forall lines total, exists e,
    Hashing.report_loop f items lines total = Raise e /\ exc_type e = "KeyError".
Proof.
  induction items as [| kv items IH]; intros Hn lines total.
  - exfalso. apply Hn. constructor.
  - cbn [Hashing.report_loop].
    destruct (weight_known f (snd kv)) as [[Hk [x ->]] | [_ (e & -> & He)]]; [| cbn; eauto].
    cbn. apply IH. intros Hall. apply Hn. now constructor.
Qed.

(** X18. [build_report] of [hashing.py] fails on an empty questionnaire
    (ZeroDivisionError) and on every questionnaire with an answer other than
    "Implementado", "Parcial" and "Nao implementado" (KeyError): among them
    "Não implementado" and "Não se aplica", which the application offers and
    [score_answer] scores.  On the other questionnaires whose ids are of one
    kind it returns the title, the score line, two empty lines and one line
    for each question in the order of the ids. *)
Theorem X18_text_report (f : Hashing.formats) (resps : list (json_key * string)) :
  (exists e, Hashing.build_report f [] = Raise e /\ exc_type e = "ZeroDivisionError") /\
  (uniform resps -> ~ Forall (fun kv => Hashing.known (snd kv)) resps ->
   exists e, Hashing.build_report f resps = Raise e /\ exc_type e = "KeyError") /\
  (uniform resps -> resps <> [] -> Forall (fun kv => Hashing.known (snd kv)) resps ->
   exists score,
     Hashing.build_report f resps =
     Ok (join Hashing.newline
           ("CIS IG1 Maturity Report" :: score :: "" :: "" ::
            map Hashing.question_line (isort resps)))) /\
  ~ Hashing.known "Não implementado" /\ ~ Hashing.known "Não se aplica" /\
  score_answer "Não se aplica" = 1%Q.
Proof.
  split; [eexists; split; reflexivity | split; [| split]].
  - intros Hu Hn. unfold Hashing.build_report.
    destruct (sorted_items_spec resps) as [[_ ->] | [Hnu _]]; [| contradiction].
    destruct (report_loop_unknown f (isort resps)) with
      (lines := ["CIS IG1 Maturity Report"; ""; ""]) (total := 0%Q) as (e & -> & He).
    + intros Hall. apply Hn. eapply Forall_perm; [symmetry; apply isort_perm | exact Hall].
    + cbn. eauto.
  - intros Hu Hne Hall. unfold Hashing.build_report.
    destruct (sorted_items_spec resps) as [[_ ->] | [Hnu _]]; [| contradiction].
    destruct (report_loop_known f (isort resps)) with
      (lines := ["CIS IG1 Maturity Report"; ""; ""]) (total := 0%Q) as (t & ->).
    + eapply Forall_perm; [apply isort_perm | exact Hall].
    + cbn. destruct resps as [| kv resps]; [congruence |]. cbn [length Nat.eqb].
      eexists. reflexivity.
  - unfold Hashing.known. repeat split; try reflexivity;
      intros [H | [H | H]]; discriminate.
Qed.

Lemma X18_witness :
  (exists e, Hashing.build_report Hashing.example_formats
               [(KInt 1, "Implementado"); (KInt 2, "Não implementado")] = Raise e /\
             exc_type e = "KeyError") /\
  Hashing.build_report Hashing.example_formats
    [(KInt 2, "Nao implementado"); (KInt 1, "Implementado")] =
  Ok ("CIS IG1 Maturity Report" ++ Hashing.newline ++ "Score: 50.0%" ++ Hashing.newline ++
      Hashing.newline ++ Hashing.newline ++ "Q1: Implementado" ++ Hashing.newline ++
      "Q2: Nao implementado").
Proof.
  split.
  - apply X18_text_report.
    + intros a b [<- | [<- | []]] [<- | [<- | []]]; reflexivity.
    + intros H. inversion H as [| ? ? _ H2]; subst.
      inversion H2 as [| ? ? Hk _]; subst. cbn in Hk.
      destruct Hk as [Hk | [Hk | Hk]]; discriminate.
  - vm_compute. reflexivity.
Defined.

(** ** What [normalize_hash] accepts *)

Lemma printing_range (c : ascii) : printing c = true -> (33 <= N_of_ascii c <= 126)%N.
Proof. apply byte_in_spec. Qed.

Lemma printing_not_space (c : ascii) : printing c = true -> ascii_space c = false.
Proof.
  intros H%printing_range. unfold ascii_space.
  now rewrite !byte_in_out, byte_is_out by lia.
Qed.

Lemma printing_space2 (c c' : ascii) :
  printing c = true -> space2 c c' = false /\ space2 c' c = false.
Proof.
  intros H%printing_range. unfold space2.
  rewrite (byte_is_out 194 c), (byte_is_out 133 c), (byte_is_out 160 c) by lia.
  now rewrite andb_false_r.
Qed.

Lemma printing_space3 (c c' c'' : ascii) :
  printing c = true -> space3 c c' c'' = false /\ space3 c'' c' c = false.
Proof.
  intros H%printing_range. unfold space3.
  rewrite (byte_is_out 225 c), (byte_is_out 226 c), (byte_is_out 227 c),
    (byte_is_out 128 c), (byte_is_out 168 c), (byte_is_out 169 c),
    (byte_is_out 175 c), (byte_is_out 159 c), (byte_in_out 128 138 c) by lia.
  now rewrite !andb_false_r.
Qed.

Lemma printing_not_gap (c : ascii) : printing c = true -> gap c = false.
Proof.
  intros H%printing_range. unfold gap. now rewrite !byte_is_out by lia.
Qed.

Lemma token_printing (c : ascii) : token c = true -> printing c = true.
Proof. intros H%token_range. apply byte_in_spec. lia. Qed.

Lemma quote_printing (c : ascii) : is_quote c = true -> printing c = true.
Proof.
  unfold is_quote. rewrite orb_true_iff, !byte_is_spec. intros H.
  apply byte_in_spec. lia.
Qed.

Lemma gap_space (c : ascii) : gap c = true -> ascii_space c = true.
Proof.
  unfold gap, ascii_space. rewrite !orb_true_iff, !byte_is_spec, !byte_in_spec. lia.
Qed.

(** The first byte of a longer whitespace character is not whitespace by
    itself, and the two first bytes of one of three are not one of two. *)
Lemma space2_lead (c1 c2 : ascii) :
  space2 c1 c2 = true -> ascii_space c1 = false /\ ascii_space c2 = false.
Proof.
  unfold space2. rewrite andb_true_iff, orb_true_iff, !byte_is_spec. intros [H1 H2].
  unfold ascii_space. now rewrite !byte_in_out, !byte_is_out by lia.
Qed.

Lemma space3_lead (c1 c2 c3 : ascii) :
  space3 c1 c2 c3 = true ->
  ascii_space c1 = false /\ space2 c1 c2 = false /\
  ascii_space c3 = false /\ space2 c2 c3 = false.
Proof.
  unfold space3.
  rewrite !orb_true_iff, !andb_true_iff, !orb_true_iff, !byte_is_spec, !byte_in_spec.
  intros H. unfold ascii_space, space2.
  assert ((225 <= N_of_ascii c1 <= 227)%N /\ (128 <= N_of_ascii c2 <= 154)%N /\
          (128 <= N_of_ascii c3 <= 175)%N) as (H1 & H2 & H3) by lia.
  rewrite (byte_is_out 194 c1), (byte_is_out 194 c2) by lia.
  now rewrite !byte_in_out, !byte_is_out by lia.
Qed.

Lemma str_lstrip_ws (w s : string) : ws_char w -> str_lstrip (w ++ s) = str_lstrip s.
Proof.
  intros [(c & -> & H) | [(c1 & c2 & -> & H) | (c1 & c2 & c3 & -> & H)]].
  - change (String c "" ++ s) with (String c s). cbn [str_lstrip]. now rewrite H.
  - change (String c1 (String c2 "") ++ s) with (String c1 (String c2 s)).
    cbn [str_lstrip]. destruct (space2_lead _ _ H) as [-> _]. now rewrite H.
  - change (String c1 (String c2 (String c3 "")) ++ s)
      with (String c1 (String c2 (String c3 s))).
    cbn [str_lstrip]. destruct (space3_lead _ _ _ H) as (-> & -> & _). now rewrite H.
Qed.

Lemma str_lstrip_rev_ws (w s : string) :
  ws_char w -> str_lstrip_rev (str_rev w ++ s) = str_lstrip_rev s.
Proof.
  intros [(c & -> & H) | [(c1 & c2 & -> & H) | (c1 & c2 & c3 & -> & H)]].
  - change (str_rev (String c "") ++ s) with (String c s).
    cbn [str_lstrip_rev]. now rewrite H.
  - change (str_rev (String c1 (String c2 "")) ++ s) with (String c2 (String c1 s)).
    cbn [str_lstrip_rev]. destruct (space2_lead _ _ H) as [_ ->]. now rewrite H.
  - change (str_rev (String c1 (String c2 (String c3 ""))) ++ s)
      with (String c3 (String c2 (String c1 s))).
    cbn [str_lstrip_rev]. destruct (space3_lead _ _ _ H) as (_ & _ & -> & ->).
    now rewrite H.
Qed.

Lemma blank_app (s t : string) : blank_text s -> blank_text t -> blank_text (s ++ t).
Proof.
  induction 1 as [| w s Hw _ IH]; intros Ht; [exact Ht |].
  rewrite str_app_assoc. apply blank_cons; [exact Hw | now apply IH].
Qed.

Lemma str_app_nil (s : string) : s ++ "" = s.
Proof.
  induction s as [| c s IH]; [reflexivity |].
  change (String c s ++ "") with (String c (s ++ "")). now rewrite IH.
Qed.

Lemma blank_ws (w : string) : ws_char w -> blank_text w.
Proof. intros H. rewrite <- (str_app_nil w). apply blank_cons; [exact H | constructor]. Qed.

Lemma blank_gaps (s : string) : str_forall gap s = true -> blank_text s.
Proof.
  induction s as [| c s IH]; [constructor |].
  rewrite str_forall_cons. intros [Hc Hs]%andb_prop.
  change (String c s) with (String c "" ++ s). apply blank_cons; [| now apply IH].
  left. exists c. split; [reflexivity | now apply gap_space].
Qed.

Lemma str_lstrip_blank (lead s : string) :
  blank_text lead -> str_lstrip (lead ++ s) = str_lstrip s.
Proof.
  induction 1 as [| w lead Hw _ IH]; [reflexivity |].
  now rewrite str_app_assoc, str_lstrip_ws.
Qed.

Lemma str_lstrip_rev_blank (trail : string) :
  blank_text trail -> forall s, str_lstrip_rev (str_rev trail ++ s) = str_lstrip_rev s.
Proof.
  induction 1 as [| w trail Hw _ IH]; intros s; [reflexivity |].
  rewrite str_rev_app, str_app_assoc, IH. now apply str_lstrip_rev_ws.
Qed.

Lemma str_lstrip_printing (c : ascii) (s : string) :
  printing c = true -> str_lstrip (String c s) = String c s.
Proof.
  intros Hc. cbn [str_lstrip]. rewrite (printing_not_space c Hc).
  destruct s as [| c2 s2]; [reflexivity |].
  rewrite (proj1 (printing_space2 c c2 Hc)).
  destruct s2 as [| c3 s3]; [reflexivity |].
  now rewrite (proj1 (printing_space3 c c2 c3 Hc)).
Qed.

Lemma str_lstrip_rev_printing (c : ascii) (s : string) :
  printing c = true -> str_lstrip_rev (String c s) = String c s.
Proof.
  intros Hc. cbn [str_lstrip_rev]. rewrite (printing_not_space c Hc).
  destruct s as [| c2 s2]; [reflexivity |].
  rewrite (proj2 (printing_space2 c c2 Hc)).
  destruct s2 as [| c3 s3]; [reflexivity |].
  now rewrite (proj2 (printing_space3 c c2 c3 Hc)).
Qed.

(** Blank text around a text that begins and ends with printing characters
    is what [strip] removes. *)
Lemma str_strip_around (lead trail m : string) (c d : ascii) :
  blank_text lead -> blank_text trail -> printing c = true -> printing d = true ->
  str_strip (lead ++ String c (m ++ String d "") ++ trail) = String c (m ++ String d "").
Proof.
  intros Hl Ht Hc Hd. unfold str_strip.
  rewrite (str_lstrip_blank lead _ Hl).
  change (String c (m ++ String d "") ++ trail) with (String c ((m ++ String d "") ++ trail)).
  rewrite (str_lstrip_printing c _ Hc).
  change (String c ((m ++ String d "") ++ trail))
    with ((String c m ++ String d "") ++ trail).
  rewrite str_rev_app, str_rev_snoc, (str_lstrip_rev_blank trail Ht).
  rewrite (str_lstrip_rev_printing d _ Hd).
  now rewrite <- str_rev_snoc, str_rev_involutive.
Qed.

(** What [lstrip] removes is blank. *)
Lemma str_lstrip_decomp (s : string) :
  exists lead, blank_text lead /\ s = lead ++ str_lstrip s.
Proof.
  assert (forall n s, (String.length s <= n)%nat ->
            exists lead, blank_text lead /\ s = lead ++ str_lstrip s) as H.
  { clear s. induction n as [| n IH]; intros s Hlen.
    - destruct s; [| cbn in Hlen; lia]. exists "". split; [constructor | reflexivity].
    - destruct s as [| c1 s1]; [exists ""; split; [constructor | reflexivity] |].
      cbn [String.length] in Hlen. cbn [str_lstrip].
      destruct (ascii_space c1) eqn:E1.
      { destruct (IH s1 ltac:(lia)) as (lead & Hb & Heq).
        exists (String c1 "" ++ lead). split.
        - apply blank_cons; [left; eauto | exact Hb].
        - change ((String c1 "" ++ lead) ++ str_lstrip s1)
            with (String c1 (lead ++ str_lstrip s1)). now rewrite <- Heq. }
      destruct s1 as [| c2 s2]; [exists ""; split; [constructor | reflexivity] |].
      cbn [String.length] in Hlen.
      destruct (space2 c1 c2) eqn:E2.
      { destruct (IH s2 ltac:(lia)) as (lead & Hb & Heq).
        exists (String c1 (String c2 "") ++ lead). split.
        - apply blank_cons; [right; left; eauto | exact Hb].
        - change ((String c1 (String c2 "") ++ lead) ++ str_lstrip s2)
            with (String c1 (String c2 (lead ++ str_lstrip s2))). now rewrite <- Heq. }
      destruct s2 as [| c3 s3]; [exists ""; split; [constructor | reflexivity] |].
      cbn [String.length] in Hlen.
      destruct (space3 c1 c2 c3) eqn:E3; [| exists ""; split; [constructor | reflexivity]].
      destruct (IH s3 ltac:(lia)) as (lead & Hb & Heq).
      exists (String c1 (String c2 (String c3 "")) ++ lead). split.
      + apply blank_cons; [right; right; eauto 6 | exact Hb].
      + change ((String c1 (String c2 (String c3 "")) ++ lead) ++ str_lstrip s3)
          with (String c1 (String c2 (String c3 (lead ++ str_lstrip s3)))).
        now rewrite <- Heq. }
  apply (H (String.length s)). lia.
Qed.

(** The same from the end, where the bytes of a character come reversed. *)
Lemma str_lstrip_rev_decomp (s : string) :
  exists lead, blank_text (str_rev lead) /\ s = lead ++ str_lstrip_rev s.
Proof.
  assert (forall n s, (String.length s <= n)%nat ->
            exists lead, blank_text (str_rev lead) /\ s = lead ++ str_lstrip_rev s) as H.
  { clear s. induction n as [| n IH]; intros s Hlen.
    - destruct s; [| cbn in Hlen; lia]. exists "". split; [constructor | reflexivity].
    - destruct s as [| c1 s1]; [exists ""; split; [constructor | reflexivity] |].
      cbn [String.length] in Hlen. cbn [str_lstrip_rev].
      destruct (ascii_space c1) eqn:E1.
      { destruct (IH s1 ltac:(lia)) as (lead & Hb & Heq).
        exists (String c1 lead). split.
        - rewrite str_rev_cons. apply blank_app; [exact Hb |].
          apply blank_ws. left. eauto.
        - change (String c1 lead ++ str_lstrip_rev s1)
            with (String c1 (lead ++ str_lstrip_rev s1)). now rewrite <- Heq. }
      destruct s1 as [| c2 s2]; [exists ""; split; [constructor | reflexivity] |].
      cbn [String.length] in Hlen.
      destruct (space2 c2 c1) eqn:E2.
      { destruct (IH s2 ltac:(lia)) as (lead & Hb & Heq).
        exists (String c1 (String c2 lead)). split.
        - rewrite !str_rev_cons, str_app_assoc. apply blank_app; [exact Hb |].
          apply blank_ws. right. left. exists c2, c1. split; [reflexivity | exact E2].
        - change (String c1 (String c2 lead) ++ str_lstrip_rev s2)
            with (String c1 (String c2 (lead ++ str_lstrip_rev s2))). now rewrite <- Heq. }
      destruct s2 as [| c3 s3]; [exists ""; split; [constructor | reflexivity] |].
      cbn [String.length] in Hlen.
      destruct (space3 c3 c2 c1) eqn:E3; [| exists ""; split; [constructor | reflexivity]].
      destruct (IH s3 ltac:(lia)) as (lead & Hb & Heq).
      exists (String c1 (String c2 (String c3 lead))). split.
      + rewrite !str_rev_cons, !str_app_assoc. apply blank_app; [exact Hb |].
        apply blank_ws. right. right. exists c3, c2, c1. split; [reflexivity | exact E3].
      + change (String c1 (String c2 (String c3 lead)) ++ str_lstrip_rev s3)
          with (String c1 (String c2 (String c3 (lead ++ str_lstrip_rev s3)))).
        now rewrite <- Heq. }
  apply (H (String.length s)). lia.
Qed.

Lemma str_strip_decomp (t : string) :
  exists lead trail,
    blank_text lead /\ blank_text trail /\ t = lead ++ str_strip t ++ trail.
Proof.
  destruct (str_lstrip_decomp t) as (lead & Hl & Ht).
  destruct (str_lstrip_rev_decomp (str_rev (str_lstrip t))) as (lr & Hr & Hrev).
  exists lead, (str_rev lr). split; [exact Hl | split; [exact Hr |]].
  unfold str_strip. rewrite <- str_rev_app, <- Hrev, str_rev_involutive. exact Ht.
Qed.

Lemma str_lstrip_chars_decomp (p : ascii -> bool) (s : string) :
  exists pre, str_forall p pre = true /\ s = pre ++ str_lstrip_chars p s.
Proof.
  induction s as [| c s (pre & Hp & Heq)]; [now exists "" |].
  cbn [str_lstrip_chars]. destruct (p c) eqn:E; [| now exists ""].
  exists (String c pre). split; [now rewrite str_forall_cons, E |].
  change (String c pre ++ str_lstrip_chars p s) with (String c (pre ++ str_lstrip_chars p s)).
  now rewrite <- Heq.
Qed.

Lemma str_strip_chars_decomp (p : ascii -> bool) (s : string) :
  exists ql qr,
    str_forall p ql = true /\ str_forall p qr = true /\
    s = ql ++ str_strip_chars p s ++ qr.
Proof.
  destruct (str_lstrip_chars_decomp p s) as (ql & Hl & Hs).
  destruct (str_lstrip_chars_decomp p (str_rev (str_lstrip_chars p s))) as (qr & Hr & Hrev).
  exists ql, (str_rev qr). split; [exact Hl | split; [now rewrite str_forall_rev |]].
  unfold str_strip_chars. rewrite <- str_rev_app, <- Hrev, str_rev_involutive. exact Hs.
Qed.

Lemma ascii_eqb_byte_is (n : N) (c : ascii) :
  (n < 256)%N -> Ascii.eqb c (ascii_of_N n) = byte_is n c.
Proof.
  intros Hn. unfold byte_is. destruct (Ascii.eqb_spec c (ascii_of_N n)) as [-> | Hne].
  - rewrite N_ascii_embedding by exact Hn. symmetry. apply N.eqb_refl.
  - symmetry. apply N.eqb_neq. intros Heq. apply Hne.
    now rewrite <- Heq, ascii_N_embedding.
Qed.

(** The three [replace] calls of [normalize_hash] keep the characters that
    are not spaces or line breaks. *)
Lemma str_remove_gaps (s : string) :
  str_remove "013" (str_remove "010" (str_remove " " s)) =
  str_filter (fun c => negb (gap c)) s.
Proof.
  induction s as [| c s IH]; [reflexivity |].
  cbn [str_remove str_filter]. unfold gap at 1.
  rewrite <- (ascii_eqb_byte_is 32 c), <- (ascii_eqb_byte_is 10 c),
    <- (ascii_eqb_byte_is 13 c) by reflexivity.
  change (ascii_of_N 32) with " "%char. change (ascii_of_N 10) with "010"%char.
  change (ascii_of_N 13) with "013"%char.
  destruct (Ascii.eqb c " "); cbn [orb negb]; [exact IH |].
  cbn [str_remove]. destruct (Ascii.eqb c "010"); cbn [orb negb]; [exact IH |].
  cbn [str_remove]. destruct (Ascii.eqb c "013"); cbn [orb negb]; [exact IH |].
  now rewrite IH.
Qed.

Lemma str_filter_app (p : ascii -> bool) (s t : string) :
  str_filter p (s ++ t) = str_filter p s ++ str_filter p t.
Proof.
  induction s as [| c s IH]; [reflexivity |].
  change (String c s ++ t) with (String c (s ++ t)). cbn [str_filter].
  destruct (p c); [| exact IH].
  change (String c (str_filter p s) ++ str_filter p t)
    with (String c (str_filter p s ++ str_filter p t)). now rewrite IH.
Qed.

Lemma str_filter_none (s : string) :
  str_filter (fun c => negb (gap c)) s = "" -> str_forall gap s = true.
Proof.
  induction s as [| c s IH]; [reflexivity |]. cbn [str_filter].
  destruct (gap c) eqn:E; cbn [negb]; [| discriminate].
  intros H. now rewrite str_forall_cons, E, IH.
Qed.

(** The first and the last character kept of a text, and the spaces and
    line breaks before and after them. *)
Lemma str_filter_first (core : string) (c : ascii) (kept : string) :
  str_filter (fun c => negb (gap c)) core = String c kept ->
  exists sp rest,
    core = sp ++ String c rest /\ str_forall gap sp = true /\
    str_filter (fun c => negb (gap c)) rest = kept.
Proof.
  induction core as [| a core IH]; [discriminate |]. cbn [str_filter].
  destruct (gap a) eqn:E; cbn [negb].
  - intros (sp & rest & -> & Hsp & Hrest)%IH.
    exists (String a sp), rest. split; [reflexivity | split; [| exact Hrest]].
    now rewrite str_forall_cons, E.
  - intros [= -> <-]. now exists "", core.
Qed.

Lemma str_filter_last (rest kept : string) (d : ascii) :
  str_filter (fun c => negb (gap c)) rest = kept ++ String d "" ->
  exists mid sp,
    rest = mid ++ String d sp /\ str_forall gap sp = true /\
    str_filter (fun c => negb (gap c)) mid = kept.
Proof.
  revert kept. induction rest as [| a rest IH]; intros kept.
  - destruct kept; discriminate.
  - cbn [str_filter]. destruct (gap a) eqn:E; cbn [negb].
    + intros (mid & sp & -> & Hsp & Hmid)%IH.
      exists (String a mid), sp. split; [reflexivity | split; [exact Hsp |]].
      cbn [str_filter]. now rewrite E.
    + destruct kept as [| k kept].
      * change ("" ++ String d "") with (String d ""). intros [= -> Hnone].
        exists "", rest. split; [reflexivity | split; [| reflexivity]].
        now apply str_filter_none.
      * change (String k kept ++ String d "") with (String k (kept ++ String d "")).
        intros [= -> (mid & sp & -> & Hsp & Hmid)%IH].
        exists (String k mid), sp. split; [reflexivity | split; [exact Hsp |]].
        cbn [str_filter]. now rewrite E, Hmid.
Qed.

Lemma str_lstrip_chars_app (p : ascii -> bool) (ql : string) (c : ascii) (s : string) :
  str_forall p ql = true -> p c = false ->
  str_lstrip_chars p (ql ++ String c s) = String c s.
Proof.
  intros Hq Hc. induction ql as [| q ql IH].
  - change ("" ++ String c s) with (String c s). now apply str_lstrip_chars_head.
  - rewrite str_forall_cons in Hq. apply andb_prop in Hq as [Hq Hql].
    change (String q ql ++ String c s) with (String q (ql ++ String c s)).
    cbn [str_lstrip_chars]. rewrite Hq. now apply IH.
Qed.

Lemma str_strip_chars_around (p : ascii -> bool) (ql qr m : string) (c d : ascii) :
  str_forall p ql = true -> str_forall p qr = true -> p c = false -> p d = false ->
  str_strip_chars p (ql ++ String c (m ++ String d "") ++ qr) = String c (m ++ String d "").
Proof.
  intros Hl Hr Hc Hd. unfold str_strip_chars.
  change (String c (m ++ String d "") ++ qr) with (String c ((m ++ String d "") ++ qr)).
  rewrite (str_lstrip_chars_app p ql c _ Hl Hc).
  change (String c ((m ++ String d "") ++ qr)) with ((String c m ++ String d "") ++ qr).
  rewrite str_rev_app, str_rev_snoc.
  rewrite (str_lstrip_chars_app p (str_rev qr) d _) by (now rewrite ?str_forall_rev).
  now rewrite <- str_rev_snoc, str_rev_involutive.
Qed.

(** A text of two characters or more has a first and a last one. *)
Lemma str_ends (s : string) :
  (2 <= String.length s)%nat -> exists c m d, s = String c (m ++ String d "").
Proof.
  destruct s as [| c s]; [cbn; lia |]. cbn [String.length]. intros H.
  destruct (str_snoc s) as (m & d & ->); [destruct s; [cbn in H; lia | discriminate] |].
  now exists c, m, d.
Qed.

Lemma str_ends_forall (p : ascii -> bool) (c d : ascii) (m : string) :
  str_forall p (String c (m ++ String d "")) = true -> p c = true /\ p d = true.
Proof.
  rewrite str_forall_cons, str_forall_app, (str_forall_cons p d "").
  intros [Hc [_ [Hd _]%andb_prop]%andb_prop]%andb_prop. auto.
Qed.

Lemma hash_prefix_token (p : string) : hash_prefix p -> str_forall token p = true.
Proof. intros [-> | [-> | ->]]; reflexivity. Qed.

Lemma drop_hash_prefix (p body : string) :
  hash_prefix p -> str_forall is_hex body = true ->
  (if str_startswith "0x" (p ++ body) || str_startswith "0X" (p ++ body)
   then str_drop2 (p ++ body) else p ++ body) = body.
Proof.
  intros [-> | [-> | ->]] Hhex; [| reflexivity | reflexivity].
  change ("" ++ body) with body. now rewrite hex_no_prefix.
Qed.

Lemma take_hash_prefix (c : string) :
  exists p, hash_prefix p /\
    c = p ++ (if str_startswith "0x" c || str_startswith "0X" c then str_drop2 c else c).
Proof.
  destruct (str_startswith "0x" c) eqn:E1.
  - apply str_startswith_spec in E1 as [t ->]. exists "0x". split; [right; now left | reflexivity].
  - destruct (str_startswith "0X" c) eqn:E2.
    + apply str_startswith_spec in E2 as [t ->]. exists "0X". split; [right; now right | reflexivity].
    + exists "". split; [now left | reflexivity].
Qed.

(** The steps of [normalize_hash] on a text that spells digits. *)
Lemma spells_steps (t body : string) :
  spells t body ->
  (let h := str_strip t in
   let h := str_strip_chars is_quote
              (str_remove "013" (str_remove "010" (str_remove " " h))) in
   if str_startswith "0x" h || str_startswith "0X" h then str_drop2 h else h) = body.
Proof.
  intros (lead & core & trail & ql & qr & p & -> & Hlead & Htrail & Hfilter & Hql & Hqr &
          Hp & Hlen & Hhex).
  cbv zeta. rewrite str_remove_gaps.
  set (keep := fun c => negb (gap c)) in *.
  assert (str_forall token (p ++ body) = true) as Htok
    by (rewrite str_forall_app, (hash_prefix_token p Hp); now apply hex_token_str).
  assert (str_forall printing (ql ++ p ++ body ++ qr) = true) as Hprint.
  { replace (ql ++ p ++ body ++ qr) with (ql ++ (p ++ body) ++ qr)
      by now rewrite (str_app_assoc p body qr).
    rewrite (str_forall_app printing ql), (str_forall_app printing (p ++ body) qr).
    rewrite (str_forall_impl is_quote printing ql quote_printing Hql).
    rewrite (str_forall_impl is_quote printing qr quote_printing Hqr).
    now rewrite (str_forall_impl token printing _ token_printing Htok). }
  destruct (str_ends (ql ++ p ++ body ++ qr)) as (c & kept & d & Hshape).
  { rewrite !str_length_app, Hlen. lia. }
  rewrite Hshape in Hfilter, Hprint.
  destruct (str_ends_forall printing c d kept Hprint) as [Hc Hd].
  destruct (str_filter_first core c _ Hfilter) as (sp & rest & -> & Hsp & Hrest).
  destruct (str_filter_last rest kept d Hrest) as (mid & sp' & -> & Hsp' & Hmid).
  assert (lead ++ (sp ++ String c (mid ++ String d sp')) ++ trail =
          (lead ++ sp) ++ String c (mid ++ String d "") ++ (sp' ++ trail)) as ->.
  { rewrite !str_app_assoc. f_equal. f_equal.
    change (String c (mid ++ String d sp') ++ trail)
      with (String c ((mid ++ String d sp') ++ trail)).
    change (String c (mid ++ String d "") ++ sp' ++ trail)
      with (String c ((mid ++ String d "") ++ sp' ++ trail)).
    f_equal. now rewrite !str_app_assoc. }
  rewrite str_strip_around;
    [| apply blank_app; [exact Hlead | now apply blank_gaps]
     | apply blank_app; [now apply blank_gaps | exact Htrail] | exact Hc | exact Hd].
  assert (str_filter keep (String c (mid ++ String d "")) = ql ++ (p ++ body) ++ qr) as ->.
  { cbn [str_filter]. subst keep. cbn beta. rewrite (printing_not_gap c Hc). cbn [negb].
    rewrite str_filter_app, Hmid. cbn [str_filter]. rewrite (printing_not_gap d Hd).
    cbn [negb]. rewrite str_app_assoc. now rewrite <- Hshape. }
  destruct (str_ends (p ++ body)) as (c' & m' & d' & Hpb).
  { rewrite str_length_app, Hlen. lia. }
  rewrite Hpb in Htok. destruct (str_ends_forall token c' d' m' Htok) as [Hc' Hd'].
  rewrite Hpb, str_strip_chars_around by (first [assumption | now apply token_not_quote]).
  rewrite <- Hpb. now apply drop_hash_prefix.
Qed.

Lemma normalize_hash_spells (nfkc : string -> string) (h r : string) :
  normalize_hash nfkc h = Some r <->
  h <> "" /\ exists body, spells (nfkc h) body /\ r = "0x" ++ str_lower body.
Proof.
  unfold normalize_hash. destruct (String.eqb_spec h "") as [-> | Hne].
  { split; [discriminate | tauto]. }
  split.
  - cbv zeta. set (a := str_strip (nfkc h)).
    set (b := str_strip_chars is_quote _).
    set (d := if str_startswith "0x" b || str_startswith "0X" b then str_drop2 b else b).
    destruct (re_fullmatch_class is_hex 64 d) eqn:E; [| discriminate].
    intros [= <-]. split; [exact Hne |]. exists d. split; [| reflexivity].
    apply re_fullmatch_class_spec in E.
    destruct (str_strip_decomp (nfkc h)) as (lead & trail & Hl & Ht & Heq).
    destruct (str_strip_chars_decomp is_quote
                (str_remove "013" (str_remove "010" (str_remove " " a))))
      as (ql & qr & Hql & Hqr & Hb).
    destruct (take_hash_prefix b) as (p & Hp & Hd).
    exists lead, a, trail, ql, qr, p.
    split; [exact Heq | split; [exact Hl | split; [exact Ht |]]].
    split; [| auto].
    rewrite <- str_remove_gaps. rewrite Hb at 1. fold b. rewrite Hd at 1.
    fold d. now rewrite !str_app_assoc.
  - intros (_ & body & Hs & ->).
    pose proof (spells_steps _ _ Hs) as Hsteps. cbv zeta in Hsteps |- *.
    rewrite Hsteps.
    destruct Hs as (_ & _ & _ & _ & _ & _ & _ & _ & _ & _ & _ & _ & _ & Hhex).
    now rewrite (proj2 (re_fullmatch_class_spec is_hex 64 body) Hhex).
Qed.

(** C4. [normalize_hash] applies one normalisation pass, strips the
    whitespace around the text, deletes every space, line feed and carriage
    return (between the digits too), strips the quotes around what is left,
    accepts an optional 0x or 0X prefix, and returns 0x followed by the 64
    digits in lower case exactly when what remains is 64 hexadecimal
    characters; on every other input it returns None.  Said without the
    steps: the result is a value exactly when the normalised input is blank
    text around a core which, read without its spaces and line breaks, is
    the 64 digits after an optional prefix, between quotes or not.  Two
    spaces, 0X, 64 upper-case digits and a single quote are accepted, and so
    are the digits after a tab and the digits written in two groups; 63
    digits, digits with another character and digits with a tab between
    them are rejected. *)
Theorem C4_normalize_hash_validates (nfkc : string -> string) :
  (forall h r,
     normalize_hash nfkc h = Some r <->
     h <> "" /\ exists body, spells (nfkc h) body /\ r = "0x" ++ str_lower body) /\
  (forall h,
     normalize_hash nfkc h = None <-> h = "" \/ ~ exists body, spells (nfkc h) body) /\
  (forall h r, normalize_hash nfkc h = Some r -> fingerprint r) /\
  ((forall s, ascii_only s = true -> nfkc s = s) ->
   normalize_hash nfkc ("  0X" ++ upper_hex_64 ++ "'") = Some ("0x" ++ lower_hex_64) /\
   normalize_hash nfkc (tab ++ "0x" ++ lower_hex_64) = Some ("0x" ++ lower_hex_64) /\
   normalize_hash nfkc spaced_hex = Some ("0x" ++ hex_32 ++ hex_32) /\
   normalize_hash nfkc hex_63 = None /\
   normalize_hash nfkc ("0x" ++ hex_63 ++ "g") = None /\
   normalize_hash nfkc tabbed_hex = None).
Proof.
  split; [apply normalize_hash_spells | split; [| split]].
  - intros h. destruct (normalize_hash nfkc h) as [r |] eqn:E.
    + apply normalize_hash_spells in E as (Hne & body & Hs & _).
      split; [discriminate |]. intros [-> | Hn]; [congruence | exfalso; eauto].
    + split; [intros _ | reflexivity].
      destruct (String.eqb_spec h "") as [-> | Hne]; [now left | right].
      intros [body Hs].
      assert (normalize_hash nfkc h = Some ("0x" ++ str_lower body)) as E'
        by (apply normalize_hash_spells; eauto).
      congruence.
  - intros h r (_ & body & Hs & ->)%normalize_hash_spells.
    destruct Hs as (_ & _ & _ & _ & _ & _ & _ & _ & _ & _ & _ & _ & _ & Hlen & Hhex).
    exists (str_lower body). split; [reflexivity | split].
    + now rewrite str_lower_length.
    + now apply str_lower_hex.
  - intros nfkc_ascii. unfold normalize_hash.
    repeat split; rewrite nfkc_ascii by reflexivity; reflexivity.
Qed.

Lemma C4_witness :
  normalize_hash nfkc_fragment ("  0X" ++ upper_hex_64 ++ "'") = Some ("0x" ++ lower_hex_64) /\
  normalize_hash nfkc_fragment spaced_hex = Some ("0x" ++ hex_32 ++ hex_32) /\
  normalize_hash nfkc_fragment tabbed_hex = None.
Proof.
  destruct (C4_normalize_hash_validates nfkc_fragment) as (_ & _ & _ & Hrows).
  destruct (Hrows nfkc_fragment_ascii) as (H1 & _ & H3 & _ & _ & H6).
  exact (conj H1 (conj H3 H6)).
Defined.

(** Read as stripping only what surrounds the text, the claim returns None
    on digits written in two groups; the code returns them joined. *)
Lemma C4_counterexample :
  claimed_content nfkc_fragment spaced_hex = spaced_hex /\
  ~ hex64 spaced_hex /\
  claimed_normalize_hash nfkc_fragment spaced_hex = None /\
  normalize_hash nfkc_fragment spaced_hex = Some ("0x" ++ hex_32 ++ hex_32) /\
  normalize_hash nfkc_fragment spaced_hex <> claimed_normalize_hash nfkc_fragment spaced_hex.
Proof.
  assert (claimed_normalize_hash nfkc_fragment spaced_hex = None) as H1
    by (vm_compute; reflexivity).
  assert (normalize_hash nfkc_fragment spaced_hex = Some ("0x" ++ hex_32 ++ hex_32)) as H2
    by (vm_compute; reflexivity).
  split; [vm_compute; reflexivity | split; [| split; [exact H1 | split; [exact H2 |]]]].
  - intros [Hlen _]. vm_compute in Hlen. discriminate.
  - rewrite H1, H2. discriminate.
Qed.

(** ** The provider of an upload is chosen by what is configured *)





